(** * YT2CUE: the timestamp parser, the line extractor, the file loader,
      the CUE renderer and the two interactive methods of
      [youtube_to_cue.py], embedded and verified.

    Text is modelled as lists of characters whose code points lie in
    U+0000..U+00FF (one [ascii] per code point).  On that range the
    character classes of Python ([str.isspace], the [\s], [\d] and [.]
    classes of [re], the characters accepted by [int]) are finite tables,
    which are written out below. *)

From Stdlib Require Import Ascii String DecimalString.
From Stdlib Require Import List ZArith Lia Bool Arith.
From Stdlib Require DecimalPos DecimalZ.
Import ListNotations.

Local Open Scope list_scope.
Local Open Scope bool_scope.

(** ** Text *)

Definition str := list ascii.

Definition lit (s : string) : str := list_ascii_of_string s.
Coercion lit : string >-> str.

Definition code (a : ascii) : nat := nat_of_ascii a.

Definition chr_eqb (a b : ascii) : bool := Ascii.eqb a b.

Definition colon : ascii := ":"%char.
Definition newline : ascii := ascii_of_nat 10.
Definition dquote : ascii := ascii_of_nat 34.

(** [str.isspace] on one character, also the class [\s] of [re] on [str]
    patterns: TAB..CR, FS..US, SPACE, NEL, NBSP. *)
Definition is_space (a : ascii) : bool :=
  let n := code a in
  ((9 <=? n) && (n <=? 13)) || ((28 <=? n) && (n <=? 32))
  || (n =? 133) || (n =? 160).

(** The class [\d] of [re] on [str] patterns (decimal digits); below U+0100
    these are the ten ASCII digits. *)
Definition is_digit (a : ascii) : bool :=
  let n := code a in (48 <=? n) && (n <=? 57).

Definition digit_val (a : ascii) : Z := Z.of_nat (code a - 48).

(** [.] without DOTALL: anything but a line feed. *)
Definition is_dot (a : ascii) : bool := negb (chr_eqb a newline).

Definition is_colon (a : ascii) : bool := chr_eqb a colon.

(** [x in s] for a one-character [x]. *)
Definition contains_chr (x : ascii) (s : str) : bool := existsb (chr_eqb x) s.

(** [str.lstrip()], [str.rstrip()], [str.strip()] with no argument. *)
Fixpoint lstrip (s : str) : str :=
  match s with
  | a :: s' => if is_space a then lstrip s' else s
  | [] => []
  end.

Definition rstrip (s : str) : str := rev (lstrip (rev s)).

Definition strip (s : str) : str := rstrip (lstrip s).

(** [s.split(':')]: the pieces between the colons, [n + 1] pieces for [n]
    colons; the accumulator holds the current piece reversed. *)
Fixpoint split_on (sep : ascii) (cur : str) (s : str) : list str :=
  match s with
  | [] => [rev cur]
  | a :: s' =>
      if chr_eqb a sep then rev cur :: split_on sep [] s'
      else split_on sep (a :: cur) s'
  end.

Definition split (sep : ascii) (s : str) : list str := split_on sep [] s.

(** The decimal text of an integer. *)
Definition str_of_Z (z : Z) : str := lit (NilZero.string_of_int (Z.to_int z)).

(** The text that the format spec [02d] gives: sign first, then zeros up to
    width 2, then the decimal digits. *)
Definition pad_02d (z : Z) : str :=
  let d := str_of_Z (Z.abs z) in
  let sgn : str := if (z <? 0)%Z then lit "-" else [] in
  sgn ++ repeat "0"%char (2 - length sgn - length d) ++ d.

(** The text that the format spec [2d] gives: the decimal text, with blanks
    in front up to width 2. *)
Definition pad_2d (z : Z) : str :=
  let d := str_of_Z z in repeat " "%char (2 - length d) ++ d.

(** ** Exceptions *)

Inductive exn_class :=
| ValueError | UnicodeDecodeError
| OSError | FileNotFoundError
| Exception.

Record exn := mk_exn { exn_cls : exn_class; exn_msg : str }.

(** [issubclass(c, d)] on the classes above. *)
Definition subclass (c d : exn_class) : bool :=
  match d, c with
  | Exception, _ => true
  | ValueError, (ValueError | UnicodeDecodeError) => true
  | UnicodeDecodeError, UnicodeDecodeError => true
  | OSError, (OSError | FileNotFoundError) => true
  | FileNotFoundError, FileNotFoundError => true
  | _, _ => false
  end.

Inductive result (A : Type) :=
| Ok (a : A)
| Raise (e : exn).
Arguments Ok {A} a.
Arguments Raise {A} e.

Definition bind {A B} (r : result A) (k : A -> result B) : result B :=
  match r with
  | Ok a => k a
  | Raise e => Raise e
  end.

Notation "x <- r ;; k" := (bind r (fun x => k))
  (at level 61, r at next level, right associativity).

(** ** The limit on conversions between integers and decimal text

    The interpreter refuses to convert between [int] and decimal text when
    more than [sys.get_int_max_str_digits()] digits are involved, 4300 unless
    the interpreter was started otherwise: it raises [ValueError]. *)

Definition int_max_str_digits : nat := 4300.

(** The least absolute value with more than [int_max_str_digits] digits. *)
Definition int_limit : Z := (10 ^ Z.of_nat int_max_str_digits)%Z.

(** The integer has at most [int_max_str_digits] decimal digits: its
    absolute value is below [int_limit]. *)
Definition within_limit (z : Z) : bool := (Z.abs z <? int_limit)%Z.

Definition limit_error : exn :=
  mk_exn ValueError
    (lit "Exceeds the limit (4300 digits) for integer string conversion; use sys.set_int_max_str_digits() to increase the limit").

(** [str(n)], also the replacement field [{n}] of an f-string. *)
Definition str_int (z : Z) : result str :=
  if within_limit z then Ok (str_of_Z z) else Raise limit_error.

(** The replacement field [{n:02d}]. *)
Definition fmt_02d (z : Z) : result str :=
  if within_limit z then Ok (pad_02d z) else Raise limit_error.

(** The replacement field [{n:2d}]. *)
Definition fmt_2d (z : Z) : result str :=
  if within_limit z then Ok (pad_2d z) else Raise limit_error.

(** ** The builtin [int] on a string, base 10

    White space at both ends, an optional sign, then digits, single
    underscores allowed between digits.  The scan stops behind the run of
    digits and underscores; a well-formed run of more than
    [int_max_str_digits] digits is refused there, whatever follows it. *)

(** [repr] of a string: quote choice, backslash escapes, [\xNN] for what is
    not printable. *)
Definition hex_digit (n : nat) : ascii :=
  if n <? 10 then ascii_of_nat (48 + n) else ascii_of_nat (87 + n).

Definition is_printable (a : ascii) : bool :=
  let n := code a in
  ((32 <=? n) && (n <? 127)) || ((161 <=? n) && negb (n =? 173)).

Definition repr_chr (quote : ascii) (a : ascii) : str :=
  if chr_eqb a quote || chr_eqb a "\"%char then ["\"%char; a]
  else if code a =? 9 then lit "\t"
  else if code a =? 10 then lit "\n"
  else if code a =? 13 then lit "\r"
  else if is_printable a then [a]
  else ["\"%char; "x"%char; hex_digit (code a / 16); hex_digit (code a mod 16)].

Definition repr (s : str) : str :=
  let quote :=
    if contains_chr "'"%char s && negb (contains_chr dquote s)
    then dquote else "'"%char in
  quote :: flat_map (repr_chr quote) s ++ [quote].

(** White space that [int] skips at both ends: the C-locale blanks, and the
    two blanks above U+007F, which are mapped to a space beforehand. *)
Definition is_int_space (a : ascii) : bool :=
  let n := code a in
  ((9 <=? n) && (n <=? 13)) || (n =? 32) || (n =? 133) || (n =? 160).

Fixpoint int_lskip (s : str) : str :=
  match s with
  | a :: s' => if is_int_space a then int_lskip s' else s
  | [] => []
  end.

(** The digits after the first one; a single underscore may separate two
    digits. *)
Fixpoint int_digits (acc : Z) (prev_underscore : bool) (s : str) : option Z :=
  match s with
  | [] => if prev_underscore then None else Some acc
  | a :: s' =>
      if is_digit a then int_digits (10 * acc + digit_val a) false s'
      else if chr_eqb a "_"%char then
        if prev_underscore then None else int_digits acc true s'
      else None
  end.

Definition int_body (s : str) : option Z :=
  match s with
  | a :: s' => if is_digit a then int_digits (digit_val a) false s' else None
  | [] => None
  end.

Definition is_int_chr (a : ascii) : bool := is_digit a || chr_eqb a "_"%char.

(** The run of digits and underscores at the start, and what follows it. *)
Fixpoint int_span (s : str) : str * str :=
  match s with
  | a :: s' =>
      if is_int_chr a then let (run, rest) := int_span s' in (a :: run, rest)
      else ([], s)
  | [] => ([], [])
  end.

Inductive int_scan_result :=
| IntValue (z : Z)
| IntInvalid
| IntTooLong (digits : nat).

(** Behind the sign: the run must be well formed; then its digits are
    counted; then only white space may follow. *)
Definition int_unsigned (s : str) : int_scan_result :=
  let (run, rest) := int_span s in
  match int_body run with
  | None => IntInvalid
  | Some z =>
      let digits := length (filter is_digit run) in
      if int_max_str_digits <? digits then IntTooLong digits
      else match int_lskip rest with
           | [] => IntValue z
           | _ :: _ => IntInvalid
           end
  end.

Definition int_scan (s : str) : int_scan_result :=
  match int_lskip s with
  | a :: t' =>
      if chr_eqb a "-"%char then
        match int_unsigned t' with
        | IntValue z => IntValue (- z)
        | r => r
        end
      else if chr_eqb a "+"%char then int_unsigned t'
      else int_unsigned (a :: t')
  | [] => IntInvalid
  end.

(** The integer that [int] returns, if it returns. *)
Definition int_literal (s : str) : option Z :=
  match int_scan s with
  | IntValue z => Some z
  | _ => None
  end.

Definition int_error (s : str) : exn :=
  mk_exn ValueError
    (lit "invalid literal for int() with base 10: " ++ firstn 200 (repr s)).

Definition int_limit_error (digits : nat) : exn :=
  mk_exn ValueError
    (lit "Exceeds the limit (4300 digits) for integer string conversion: value has "
     ++ str_of_Z (Z.of_nat digits)
     ++ lit " digits; use sys.set_int_max_str_digits() to increase the limit").

Definition int (s : str) : result Z :=
  match int_scan s with
  | IntValue z => Ok z
  | IntInvalid => Raise (int_error s)
  | IntTooLong digits => Raise (int_limit_error digits)
  end.

(** ** The object *)

Record Track := mk_track
  { title : str; minutes : Z; seconds : Z; frames : Z }.

Record CueGenerator := mk_gen
  { album : str; artist : str; year : str; genre : str;
    audio_file : str; tracks : list Track }.

(** [CueGenerator.__init__] *)
Definition init : CueGenerator := mk_gen [] [] [] [] [] [].

(** ** [CueGenerator.parse_timestamp] *)

Definition parse_timestamp (self : CueGenerator) (timestamp : str)
  : result (Z * Z * Z) :=
  let timestamp := strip timestamp in
  let parts := split colon timestamp in
  match parts with
  | [p0; p1] =>
      minutes <- int p0 ;;
      seconds <- int p1 ;;
      Ok (minutes, seconds, 0%Z)
  | [p0; p1; p2] =>
      hours <- int p0 ;;
      m <- int p1 ;;
      let minutes := (m + hours * 60)%Z in
      seconds <- int p2 ;;
      Ok (minutes, seconds, 0%Z)
  | _ =>
      Raise (mk_exn ValueError (lit "Invalid timestamp format: " ++ timestamp))
  end.

(** ** The part of [re] that the patterns of the source use

    A backtracking matcher explores the ways a pattern can match in a fixed
    order and stops at the first that reaches the end of the pattern.  Here
    [exec r st] lists, in that order, every state in which [r] can leave the
    matcher when started in [st]; the match that [re] reports is the head of
    the list for the whole pattern. *)

Inductive regex :=
| Bol                                   (* ^ *)
| Eol                                   (* $ *)
| Cls (p : ascii -> bool)               (* one character of a class *)
| Rep (p : ascii -> bool) (lo : nat) (hi : option nat) (greedy : bool)
                                        (* class{lo,hi}, greedy or lazy *)
| Opt (r : regex)                       (* (?:r)? *)
| Grp (n : nat) (r : regex)             (* capturing group number n *)
| Seq (r1 r2 : regex).

Record mstate := mk_mstate
  { m_pos : nat;                        (* characters consumed so far *)
    m_rest : str;                       (* the text from [m_pos] on *)
    m_caps : list (nat * str) }.        (* groups closed so far, latest first *)

Definition has_budget (hi : option nat) : bool :=
  match hi with Some 0 => false | _ => true end.

Definition spend (hi : option nat) : option nat := option_map pred hi.

(** Exactly [n] characters of the class, or no way at all. *)
Fixpoint take_exact (p : ascii -> bool) (n : nat) (pos : nat) (u : str)
  : option (nat * str) :=
  match n with
  | 0 => Some (pos, u)
  | S n' =>
      match u with
      | a :: u' => if p a then take_exact p n' (S pos) u' else None
      | [] => None
      end
  end.

(** Up to [hi] further characters of the class: the longest run first when
    greedy, the shortest first when lazy. *)
Fixpoint take_upto (p : ascii -> bool) (greedy : bool) (hi : option nat)
  (pos : nat) (u : str) : list (nat * str) :=
  match u with
  | a :: u' =>
      if p a && has_budget hi then
        let more := take_upto p greedy (spend hi) (S pos) u' in
        if greedy then more ++ [(pos, u)] else (pos, u) :: more
      else [(pos, u)]
  | [] => [(pos, u)]
  end.

Definition set_cap (n : nat) (from to : mstate) : mstate :=
  mk_mstate (m_pos to) (m_rest to)
    ((n, firstn (m_pos to - m_pos from) (m_rest from)) :: m_caps to).

Definition move (st : mstate) (pu : nat * str) : mstate :=
  mk_mstate (fst pu) (snd pu) (m_caps st).

Fixpoint exec (r : regex) (st : mstate) : list mstate :=
  match r with
  | Bol => if m_pos st =? 0 then [st] else []
  | Eol =>
      match m_rest st with
      | [] => [st]
      | [a] => if chr_eqb a newline then [st] else []
      | _ => []
      end
  | Cls p =>
      match m_rest st with
      | a :: u' => if p a then [move st (S (m_pos st), u')] else []
      | [] => []
      end
  | Rep p lo hi greedy =>
      match take_exact p lo (m_pos st) (m_rest st) with
      | Some (pos, u) =>
          map (move st)
            (take_upto p greedy (option_map (fun h => h - lo) hi) pos u)
      | None => []
      end
  | Opt r' => exec r' st ++ [st]
  | Grp n r' => map (set_cap n st) (exec r' st)
  | Seq r1 r2 => flat_map (exec r2) (exec r1 st)
  end.

(** The match object: where the match ended and what the groups hold. *)
Definition group (m : mstate) (n : nat) : option str :=
  option_map snd (find (fun c => fst c =? n) (m_caps m)).

(** [pattern.match(text, pos)] with [text[pos:] = u]. *)
Definition match_at (r : regex) (pos : nat) (u : str) : option mstate :=
  hd_error (exec r (mk_mstate pos u [])).

(** [re.match(pattern, text)] *)
Definition re_match (r : regex) (u : str) : option mstate := match_at r 0 u.

(** [re.sub(pattern, '', text)]: scan from the left; where the pattern
    matches a non-empty stretch, drop it and go on behind it; elsewhere keep
    the character.  (An empty match is replaced by the empty string, which
    changes nothing.)  [skip] counts the characters of the current match that
    are still to be dropped. *)
Fixpoint sub_scan (r : regex) (pos skip : nat) (u : str) : str :=
  match u with
  | [] => []
  | a :: u' =>
      match skip with
      | S k => sub_scan r (S pos) k u'
      | 0 =>
          match match_at r pos u with
          | Some m =>
              match m_pos m - pos with
              | S k => sub_scan r (S pos) k u'
              | 0 => a :: sub_scan r (S pos) 0 u'
              end
          | None => a :: sub_scan r (S pos) 0 u'
          end
      end
  end.

Definition re_sub_empty (r : regex) (u : str) : str := sub_scan r 0 0 u.

(** ** The patterns of [parse_timestamp_line] *)

Definition is_open (a : ascii) : bool :=
  chr_eqb a "["%char || chr_eqb a "("%char.
Definition is_close (a : ascii) : bool :=
  chr_eqb a "]"%char || chr_eqb a ")"%char.
Definition is_dotchr (a : ascii) : bool := chr_eqb a "."%char.

Definition chain (rs : list regex) (last : regex) : regex :=
  fold_right Seq last rs.

(** [\d{1,2}:\d{2}(?::\d{2})?] *)
Definition re_timestamp : regex :=
  chain [Rep is_digit 1 (Some 2) true; Cls is_colon]
    (Seq (Rep is_digit 2 (Some 2) true)
       (Opt (Seq (Cls is_colon) (Rep is_digit 2 (Some 2) true)))).

(** [^[\d]+\.\s*] *)
Definition re_ordinal : regex :=
  chain [Bol; Rep is_digit 1 None true; Cls is_dotchr]
    (Rep is_space 0 None true).

(** [^[\[\(]?(\d{1,2}:\d{2}(?::\d{2})?)[\]\)]?\s+(.+)$] *)
Definition pattern_a : regex :=
  chain [Bol; Rep is_open 0 (Some 1) true; Grp 1 re_timestamp;
       Rep is_close 0 (Some 1) true; Rep is_space 1 None true;
       Grp 2 (Rep is_dot 1 None true)]
    Eol.

(** [^(\d{1,2}:\d{2}(?::\d{2})?)\s+(.+)$] *)
Definition pattern_b : regex :=
  chain [Bol; Grp 1 re_timestamp; Rep is_space 1 None true;
       Grp 2 (Rep is_dot 1 None true)]
    Eol.

(** [^(.+?)\s+[\[\(]?(\d{1,2}:\d{2}(?::\d{2})?)[\]\)]?$] *)
Definition pattern_c : regex :=
  chain [Bol; Grp 1 (Rep is_dot 1 None false); Rep is_space 1 None true;
       Rep is_open 0 (Some 1) true; Grp 2 re_timestamp;
       Rep is_close 0 (Some 1) true]
    Eol.

Definition patterns : list regex := [pattern_a; pattern_b; pattern_c].

(** ** [CueGenerator.parse_timestamp_line] *)

Record Extraction := mk_extraction { x_timestamp : str; x_title : str }.

(** The body of the [for] loop on one match object.  A group that took no
    part in the match would be [None] in Python; both groups are mandatory
    in all three patterns (lemma [groups_present] below), so the last branch
    is never reached. *)
Definition extraction_of (m : mstate) : option Extraction :=
  match group m 1, group m 2 with
  | Some g0, Some g1 =>
      let '(timestamp, title) :=
        if contains_chr colon g0 then (g0, g1) else (g1, g0) in
      Some (mk_extraction (strip timestamp) (strip title))
  | _, _ => None
  end.

Fixpoint first_match (ps : list regex) (line : str) : option Extraction :=
  match ps with
  | [] => None
  | pattern :: ps' =>
      match re_match pattern line with
      | Some m => extraction_of m
      | None => first_match ps' line
      end
  end.

Definition parse_timestamp_line (self : CueGenerator) (line : str)
  : option Extraction :=
  let line := strip line in
  match line with
  | [] => None
  | _ =>
      let line := re_sub_empty re_ordinal line in
      first_match patterns line
  end.

(** ** [CueGenerator.read_timestamps_file] *)

(** What [open(filepath, 'r', encoding='utf-8')] followed by
    [f.readlines()] does is decided outside the program: the lines of the
    file, or an exception. *)
Inductive read_outcome :=
| ReadLines (lines : list str)
| ReadRaises (e : exn).

Definition filesystem := str -> read_outcome.

Definition str_of_nat (n : nat) : str := str_of_Z (Z.of_nat n).

(** The text printed for a line whose timestamp does not convert. *)
Definition warning (line_num : nat) (e : exn) : str :=
  lit "Warning: Skipping line " ++ str_of_nat line_num ++ lit " - " ++ exn_msg e.

(** The [for] loop over [enumerate(lines, 1)]: the tracks appended so far
    and the lines printed so far are threaded through; an exception that the
    inner [except ValueError] does not catch leaves the loop. *)
Fixpoint read_loop (self : CueGenerator) (line_num : nat) (lines : list str)
  (tracks : list Track) (out : list str) : result (list Track) * list str :=
  match lines with
  | [] => (Ok tracks, out)
  | line :: lines' =>
      match parse_timestamp_line self line with
      | Some parsed =>
          match parse_timestamp self (x_timestamp parsed) with
          | Ok (mins, secs, frames) =>
              read_loop self (S line_num) lines'
                (tracks ++ [mk_track (x_title parsed) mins secs frames]) out
          | Raise e =>
              if subclass (exn_cls e) ValueError then
                read_loop self (S line_num) lines' tracks
                  (out ++ [warning line_num e])
              else (Raise e, out)
          end
      | None => read_loop self (S line_num) lines' tracks out
      end
  end.

Definition set_tracks (self : CueGenerator) (ts : list Track) : CueGenerator :=
  mk_gen (album self) (artist self) (year self) (genre self)
    (audio_file self) ts.

(** The body of the [try]. *)
Definition read_body (self : CueGenerator) (filepath : str) (fs : filesystem)
  : result (nat * CueGenerator) * list str :=
  match fs filepath with
  | ReadRaises e => (Raise e, [])
  | ReadLines lines =>
      match read_loop self 1 lines [] [] with
      | (Raise e, out) => (Raise e, out)
      | (Ok [], out) =>
          (Raise (mk_exn ValueError (lit "No valid timestamps found in file")),
           out)
      | (Ok tracks, out) => (Ok (length tracks, set_tracks self tracks), out)
      end
  end.

(** The result, the object afterwards, and what was printed. *)
Definition read_timestamps_file (self : CueGenerator) (filepath : str)
  (fs : filesystem) : result nat * CueGenerator * list str :=
  match read_body self filepath fs with
  | (Ok (n, self'), out) => (Ok n, self', out)
  | (Raise e, out) =>
      if subclass (exn_cls e) FileNotFoundError then
        (Raise (mk_exn FileNotFoundError (lit "File not found: " ++ filepath)),
         self, out)
      else
        (Raise (mk_exn Exception (lit "Error reading file: " ++ exn_msg e)),
         self, out)
  end.

(** ** [CueGenerator.generate_cue_content] *)

Fixpoint join (sep : str) (ls : list str) : str :=
  match ls with
  | [] => []
  | [l] => l
  | l :: ls' => l ++ sep ++ join sep ls'
  end.

Definition quoted (s : str) : str := dquote :: s ++ [dquote].

(** The four lines appended for track number [i]; the numbers are written
    in the order of the source. *)
Definition track_block (self : CueGenerator) (i : nat) (track : Track)
  : result (list str) :=
  n <- fmt_02d (Z.of_nat i) ;;
  let l1 := lit "  TRACK " ++ n ++ lit " AUDIO" in
  let l2 := lit "    TITLE " ++ quoted (title track) in
  let l3 := lit "    PERFORMER " ++ quoted (artist self) in
  m <- fmt_02d (minutes track) ;;
  s <- fmt_02d (seconds track) ;;
  f <- fmt_02d (frames track) ;;
  let l4 := lit "    INDEX 01 " ++ m ++ lit ":" ++ s ++ lit ":" ++ f in
  Ok [l1; l2; l3; l4].

(** The [for] loop over [enumerate(self.tracks, 1)]. *)
Fixpoint cue_loop (self : CueGenerator) (i : nat) (ts : list Track)
  (cue_lines : list str) : result (list str) :=
  match ts with
  | [] => Ok cue_lines
  | track :: ts' =>
      block <- track_block self i track ;;
      cue_loop self (S i) ts' (cue_lines ++ block)
  end.

Definition truthy (s : str) : bool :=
  match s with [] => false | _ => true end.

(** [now_year] is [datetime.now().year], which is looked up only when the
    year of the object is empty. *)
Definition cue_lines (self : CueGenerator) (now_year : Z)
  : result (list str) :=
  let cue_lines : list str := [] in
  let cue_lines := cue_lines ++
    [if truthy (genre self) then lit "REM GENRE " ++ quoted (genre self)
     else lit "REM GENRE " ++ quoted (lit "Unknown")] in
  date <- (if truthy (year self) then Ok (year self) else str_int now_year) ;;
  let cue_lines := cue_lines ++ [lit "REM DATE " ++ date] in
  let cue_lines := cue_lines ++
    [lit "REM COMMENT " ++ quoted (lit "Generated by YouTube to CUE Converter")] in
  let cue_lines := cue_lines ++ [lit "PERFORMER " ++ quoted (artist self)] in
  let cue_lines := cue_lines ++ [lit "TITLE " ++ quoted (album self)] in
  let cue_lines := cue_lines ++
    [lit "FILE " ++ quoted (audio_file self) ++ lit " WAVE"] in
  cue_loop self 1 (tracks self) cue_lines.

Definition generate_cue_content (self : CueGenerator) (now_year : Z)
  : result str :=
  cue_lines <- cue_lines self now_year ;;
  Ok (join [newline] cue_lines).

(** ** Notions used to state the properties *)

(** [x] occurs in [s] as a contiguous piece. *)
Definition is_infix (x s : str) : Prop :=
  exists pre post, s = pre ++ x ++ post.

(** The same as a test. *)
Fixpoint prefixb (x s : str) : bool :=
  match x, s with
  | [], _ => true
  | a :: x', b :: s' => chr_eqb a b && prefixb x' s'
  | _ :: _, [] => false
  end.

Fixpoint infixb (x s : str) : bool :=
  prefixb x s || match s with [] => false | _ :: s' => infixb x s' end.

Definition digit_chr (d : nat) : ascii := ascii_of_nat (48 + d).

(** A number below 100 written with two digits, as in [SS] and [MM]. *)
Definition two_digits (n : nat) : str := [digit_chr (n / 10); digit_chr (n mod 10)].

(** The leading group [M]/[MM] (or [H]/[HH]): one digit or two. *)
Definition one_or_two_digits (n : nat) (t : str) : bool :=
  if list_eq_dec ascii_dec t (two_digits n) then true
  else if list_eq_dec ascii_dec t [digit_chr n] then n <? 10
  else false.

(** [u] starts with digit, colon, digit, digit. *)
Definition starts_with_shape (u : str) : bool :=
  match u with
  | a :: b :: c :: d :: _ => is_digit a && is_colon b && is_digit c && is_digit d
  | _ => false
  end.

(** Some piece of [u] reads digit, colon, digit, digit: every text of the
    shape [M:SS], [MM:SS] or [H:MM:SS] holds such a piece, and such a piece
    is itself of the shape [M:SS]. *)
Fixpoint has_timestamp_shape (u : str) : bool :=
  match u with
  | [] => false
  | _ :: u' => starts_with_shape u || has_timestamp_shape u'
  end.

(** The extractor with shape (b) taken out of the list of patterns. *)
Definition patterns_without_b : list regex := [pattern_a; pattern_c].

Definition parse_timestamp_line_without_b (self : CueGenerator) (line : str)
  : option Extraction :=
  let line := strip line in
  match line with
  | [] => None
  | _ =>
      let line := re_sub_empty re_ordinal line in
      first_match patterns_without_b line
  end.

(** [enumerate(lines, start)] *)
Fixpoint enumerate {A} (start : nat) (l : list A) : list (nat * A) :=
  match l with
  | [] => []
  | x :: l' => (start, x) :: enumerate (S start) l'
  end.

(** What one numbered line contributes to the printed output. *)
Definition line_diagnostic (self : CueGenerator) (nl : nat * str) : list str :=
  match parse_timestamp_line self (snd nl) with
  | None => []
  | Some parsed =>
      match parse_timestamp self (x_timestamp parsed) with
      | Ok _ => []
      | Raise e => [warning (fst nl) e]
      end
  end.

(** What one numbered line contributes to the track list. *)
Definition line_track (self : CueGenerator) (line : str) : list Track :=
  match parse_timestamp_line self line with
  | None => []
  | Some parsed =>
      match parse_timestamp self (x_timestamp parsed) with
      | Ok (mins, secs, frames) => [mk_track (x_title parsed) mins secs frames]
      | Raise _ => []
      end
  end.

(** A line is skipped when it adds no track. *)
Definition skipped (self : CueGenerator) (line : str) : bool :=
  match line_track self line with [] => true | _ => false end.

(** Every number of the track can be written. *)
Definition track_within_limit (track : Track) : bool :=
  within_limit (minutes track) && within_limit (seconds track)
  && within_limit (frames track).

(** The numbered tracks from [i] on can be written, numbers included. *)
Fixpoint tracks_within_limit (i : nat) (ts : list Track) : bool :=
  match ts with
  | [] => true
  | track :: ts' =>
      within_limit (Z.of_nat i) && track_within_limit track
      && tracks_within_limit (S i) ts'
  end.

(** Every number that [generate_cue_content] writes has at most
    [int_max_str_digits] digits: the current year when the object has no
    year, the numbers of the tracks, and their minutes, seconds and
    frames. *)
Definition numbers_within_limit (self : CueGenerator) (now_year : Z) : bool :=
  (truthy (year self) || within_limit now_year)
  && tracks_within_limit 1 (tracks self).

(** The four lines of a track whose numbers can be written. *)
Definition block_text (self : CueGenerator) (i : nat) (track : Track)
  : list str :=
  [ lit "  TRACK " ++ pad_02d (Z.of_nat i) ++ lit " AUDIO";
    lit "    TITLE " ++ quoted (title track);
    lit "    PERFORMER " ++ quoted (artist self);
    lit "    INDEX 01 " ++ pad_02d (minutes track) ++ lit ":"
      ++ pad_02d (seconds track) ++ lit ":" ++ pad_02d (frames track) ].

Definition block_of (self : CueGenerator) (it : nat * Track) : list str :=
  block_text self (fst it) (snd it).

(** The six lines in front of the tracks. *)
Definition header_text (self : CueGenerator) (now_year : Z) : list str :=
  [ lit "REM GENRE "
      ++ quoted (if truthy (genre self) then genre self else lit "Unknown");
    lit "REM DATE "
      ++ (if truthy (year self) then year self else str_of_Z now_year);
    lit "REM COMMENT " ++ quoted (lit "Generated by YouTube to CUE Converter");
    lit "PERFORMER " ++ quoted (artist self);
    lit "TITLE " ++ quoted (album self);
    lit "FILE " ++ quoted (audio_file self) ++ lit " WAVE" ].

(** The lines of the CUE text when every number can be written. *)
Definition lines_text (self : CueGenerator) (now_year : Z) : list str :=
  header_text self now_year
  ++ flat_map (block_of self) (enumerate 1 (tracks self)).

(** ** Notions used in the proofs *)

(** A character that is neither white space nor a colon. *)
Definition plain (a : ascii) : Prop :=
  is_space a = false /\ chr_eqb a colon = false.

Definition plainb (a : ascii) : bool :=
  negb (is_space a) && negb (chr_eqb a colon).

(** [int] reads [s] as the number [n]. *)
Definition int_is (s : str) (n : nat) : bool :=
  match int_literal s with
  | Some z => Z.eqb z (Z.of_nat n)
  | None => false
  end.


Definition str_eqb (s t : str) : bool :=
  if list_eq_dec ascii_dec s t then true else false.

(** A pattern with the capturing group [k] on its spine. *)
Inductive on_spine (g : regex) : regex -> Prop :=
| spine_here : on_spine g g
| spine_left r1 r2 : on_spine g r1 -> on_spine g (Seq r1 r2)
| spine_right r1 r2 : on_spine g r2 -> on_spine g (Seq r1 r2).

(** [\s+(.+)$], the common end of the patterns (a) and (b). *)
Definition re_tail : regex :=
  chain [Rep is_space 1 None true; Grp 2 (Rep is_dot 1 None true)] Eol.

Definition re_open : regex := Rep is_open 0 (Some 1) true.
Definition re_close : regex := Rep is_close 0 (Some 1) true.

(** The ways the timestamp pattern can match at one place: none, one, or
    two, and then the second (the short one) stops in front of a colon. *)
Definition timestamp_outcomes (X : list mstate) : Prop :=
  X = [] \/ (exists z, X = [z])
  \/ (exists v z u, X = [v; z] /\ m_rest z = colon :: u).

(** ** Notions for the further properties *)

(** The value of a decimal numeral read from the left, starting from
    [acc]. *)
Fixpoint uint_val (d : Decimal.uint) (acc : Z) : Z :=
  match d with
  | Decimal.Nil => acc
  | Decimal.D0 l => uint_val l (10 * acc + 0)
  | Decimal.D1 l => uint_val l (10 * acc + 1)
  | Decimal.D2 l => uint_val l (10 * acc + 2)
  | Decimal.D3 l => uint_val l (10 * acc + 3)
  | Decimal.D4 l => uint_val l (10 * acc + 4)
  | Decimal.D5 l => uint_val l (10 * acc + 5)
  | Decimal.D6 l => uint_val l (10 * acc + 6)
  | Decimal.D7 l => uint_val l (10 * acc + 7)
  | Decimal.D8 l => uint_val l (10 * acc + 8)
  | Decimal.D9 l => uint_val l (10 * acc + 9)
  end.

(** The characters of a decimal numeral. *)
Definition uint_chars (d : Decimal.uint) : str :=
  lit (NilEmpty.string_of_uint d).

(** A timestamp token: [M:SS], [MM:SS], [H:MM:SS] or [HH:MM:SS], all
    digits. *)
Definition is_token (t : str) : bool :=
  match t with
  | [m; c; s1; s2] =>
      is_digit m && is_colon c && is_digit s1 && is_digit s2
  | [m1; m2; c; s1; s2] =>
      is_digit m1 && is_digit m2 && is_colon c && is_digit s1 && is_digit s2
  | [h; c; m1; m2; c'; s1; s2] =>
      is_digit h && is_colon c && is_digit m1 && is_digit m2
      && is_colon c' && is_digit s1 && is_digit s2
  | [h1; h2; c; m1; m2; c'; s1; s2] =>
      is_digit h1 && is_digit h2 && is_colon c && is_digit m1 && is_digit m2
      && is_colon c' && is_digit s1 && is_digit s2
  | _ => false
  end.

(** Nothing, or one character of the class: what an optional bracket
    consumes. *)
Definition at_most_one (p : ascii -> bool) (o : str) : bool :=
  match o with
  | [] => true
  | [a] => p a
  | _ => false
  end.

(** The text does not begin with white space. *)
Definition head_ok (s : str) : Prop :=
  match s with
  | [] => True
  | a :: _ => is_space a = false
  end.

(** The text does not end with white space. *)
Definition last_ok (s : str) : Prop :=
  forall w a, s = w ++ [a] -> is_space a = false.

(** The text holds no line feed. *)
Definition one_line (s : str) : Prop :=
  Forall (fun a => chr_eqb a newline = false) s.

(** The text behind its leading digits. *)
Fixpoint skip_digits (u : str) : str :=
  match u with
  | a :: u' => if is_digit a then skip_digits u' else u
  | [] => []
  end.

(** The text begins with digits and a full stop: an ordinal marker. *)
Definition has_ordinal_marker (u : str) : bool :=
  match u with
  | a :: _ =>
      is_digit a
      && match skip_digits u with b :: _ => is_dotchr b | [] => false end
  | [] => false
  end.

(** The text does not begin with a colon. *)
Definition no_colon_next (u : str) : Prop :=
  match u with
  | [] => True
  | a :: _ => is_colon a = false
  end.

(** ** Standard input and output

    The interactive methods read lines from standard input and write to
    standard output.  [w_stdin] holds the lines still to be read, without
    their line ends; [w_stdout] is the text written so far.  A computation
    gives [None] when [input] met the end of the input ([EOFError]). *)

Record world := mk_world
  { w_self : CueGenerator; w_stdin : list str; w_stdout : str }.

Definition io (A : Type) := world -> option A * world.

Definition io_ret {A} (a : A) : io A := fun w => (Some a, w).

Definition io_bind {A B} (m : io A) (k : A -> io B) : io B :=
  fun w =>
    match m w with
    | (Some a, w') => k a w'
    | (None, w') => (None, w')
    end.

Notation "x <-- m ;; k" := (io_bind m (fun x => k))
  (at level 61, m at next level, right associativity).

Notation "m >> k" := (io_bind m (fun _ => k))
  (at level 61, right associativity).

(** [print(s)] *)
Definition print (s : str) : io unit :=
  fun w =>
    (Some tt, mk_world (w_self w) (w_stdin w) (w_stdout w ++ s ++ [newline])).

(** [input(prompt)]: the prompt is written, then a line is read. *)
Definition input (prompt : str) : io str :=
  fun w =>
    match w_stdin w with
    | l :: ls => (Some l, mk_world (w_self w) ls (w_stdout w ++ prompt))
    | [] => (None, mk_world (w_self w) [] (w_stdout w ++ prompt))
    end.

Definition get_self : io CueGenerator := fun w => (Some (w_self w), w).

Definition assign (f : CueGenerator -> CueGenerator) : io unit :=
  fun w => (Some tt, mk_world (f (w_self w)) (w_stdin w) (w_stdout w)).

Definition set_artist (v : str) (g : CueGenerator) : CueGenerator :=
  mk_gen (album g) v (year g) (genre g) (audio_file g) (tracks g).
Definition set_album (v : str) (g : CueGenerator) : CueGenerator :=
  mk_gen v (artist g) (year g) (genre g) (audio_file g) (tracks g).
Definition set_audio_file (v : str) (g : CueGenerator) : CueGenerator :=
  mk_gen (album g) (artist g) (year g) (genre g) v (tracks g).
Definition set_year (v : str) (g : CueGenerator) : CueGenerator :=
  mk_gen (album g) (artist g) v (genre g) (audio_file g) (tracks g).
Definition set_genre (v : str) (g : CueGenerator) : CueGenerator :=
  mk_gen (album g) (artist g) (year g) v (audio_file g) (tracks g).

(** [s or default] on strings. *)
Definition or_default (s default : str) : str :=
  if truthy s then s else default.

(** [str.isdigit()]: not empty, and every character a digit; below U+0100
    these are the ASCII digits and the superscripts two, three and one. *)
Definition is_digit_chr (a : ascii) : bool :=
  is_digit a || (code a =? 178) || (code a =? 179) || (code a =? 185).

Definition isdigit (s : str) : bool :=
  match s with
  | [] => false
  | _ => forallb is_digit_chr s
  end.

(** [str.lower()]: below U+0100 the capital letters are A..Z and
    U+00C0..U+00DE without the multiplication sign. *)
Definition lower_chr (a : ascii) : ascii :=
  let n := code a in
  if ((65 <=? n) && (n <=? 90))
     || ((192 <=? n) && (n <=? 222) && negb (n =? 215))
  then ascii_of_nat (n + 32) else a.

Definition lower (s : str) : str := map lower_chr s.

Definition rule : str := repeat "="%char 60.

(** ** [CueGenerator.get_user_input] *)

Definition get_user_input : io unit :=
  print ([newline] ++ rule) >>
  print (lit "CUE FILE METADATA") >>
  print rule >>
  a <-- input (lit "Enter Artist/Performer name: ") ;;
  assign (set_artist (or_default (strip a) (lit "Unknown Artist"))) >>
  a <-- input (lit "Enter Album/Mix name: ") ;;
  assign (set_album (or_default (strip a) (lit "Unknown Album"))) >>
  a <-- input (lit "Enter audio filename (e.g., audio.mp3): ") ;;
  assign (set_audio_file (or_default (strip a) (lit "audio.wav"))) >>
  a <-- input (lit "Enter year (optional, press Enter to skip): ") ;;
  let year_input := strip a in
  (if isdigit year_input then assign (set_year year_input) else io_ret tt) >>
  a <-- input (lit "Enter genre (optional, press Enter to skip): ") ;;
  assign (set_genre (strip a)) >>
  print ([newline] ++ rule).

(** ** [CueGenerator.review_tracks]

    Besides the end of the input there is a second way not to return: a
    number that cannot be written.  The computation then gives
    [Some (Raise e)]. *)

(** The line printed for track number [i]: the time is written first. *)
Definition review_line (i : nat) (track : Track) : result str :=
  m <- fmt_02d (minutes track) ;;
  s <- fmt_02d (seconds track) ;;
  f <- fmt_02d (frames track) ;;
  let timestamp := m ++ lit ":" ++ s ++ lit ":" ++ f in
  n <- fmt_2d (Z.of_nat i) ;;
  Ok (n ++ lit ". [" ++ timestamp ++ lit "] " ++ title track).

(** The [for] loop over [enumerate(self.tracks, 1)]. *)
Fixpoint review_loop (i : nat) (ts : list Track) : io (result unit) :=
  match ts with
  | [] => io_ret (Ok tt)
  | track :: ts' =>
      match review_line i track with
      | Ok l => print l >> review_loop (S i) ts'
      | Raise e => io_ret (Raise e)
      end
  end.

Definition review_tracks : io (result bool) :=
  print ([newline] ++ lit "PARSED TRACKS:") >>
  print rule >>
  self <-- get_self ;;
  r <-- review_loop 1 (tracks self) ;;
  match r with
  | Raise e => io_ret (Raise e)
  | Ok _ =>
      print rule >>
      a <-- input ([newline] ++ lit "Do these tracks look correct? (y/n): ") ;;
      let response := lower (strip a) in
      io_ret (Ok (str_eqb response (lit "y") || str_eqb response (lit "yes")
                  || str_eqb response []))
  end.

(** The time of a track as shown, when its numbers can be written. *)
Definition time_text (track : Track) : str :=
  pad_02d (minutes track) ++ lit ":" ++ pad_02d (seconds track) ++ lit ":"
    ++ pad_02d (frames track).

(** The line of a track whose numbers can be written. *)
Definition review_text (i : nat) (track : Track) : str :=
  pad_2d (Z.of_nat i) ++ lit ". [" ++ time_text track ++ lit "] " ++ title track.

(** What the review prints for one numbered track. *)
Definition shown (it : nat * Track) : str :=
  review_text (fst it) (snd it) ++ [newline].

(** The tracks in front of the first one that cannot be written. *)
Fixpoint writable_prefix (i : nat) (ts : list Track) : list Track :=
  match ts with
  | [] => []
  | track :: ts' =>
      if within_limit (Z.of_nat i) && track_within_limit track
      then track :: writable_prefix (S i) ts'
      else []
  end.

(** Not a colon; not white space. *)
Definition not_colon (a : ascii) : bool := negb (is_colon a).
Definition not_space (a : ascii) : bool := negb (is_space a).
Definition digit_or_colon (a : ascii) : bool := is_digit a || is_colon a.

(** * Properties *)

(** ** Worked examples *)

Example parse_timestamp_ex1 :
  parse_timestamp init (lit "1:02:03") = Ok (62, 3, 0)%Z.
Proof. reflexivity. Qed.

Example parse_timestamp_ex2 :
  parse_timestamp init (lit " 1_0:+5 ") = Ok (10, 5, 0)%Z.
Proof. reflexivity. Qed.

Example extract_ex1 :
  parse_timestamp_line init (lit "0:00 Intro")
  = Some (mk_extraction (lit "0:00") (lit "Intro")).
Proof. reflexivity. Qed.

Example extract_ex2 :
  parse_timestamp_line init (lit "Part 1: Intro (0:00)")
  = Some (mk_extraction (lit "Part 1: Intro") (lit "0:00")).
Proof. reflexivity. Qed.

Example extract_ex3 :
  parse_timestamp_line init (lit "1. 0:05 Second Track")
  = Some (mk_extraction (lit "0:05") (lit "Second Track")).
Proof. reflexivity. Qed.

Example extract_ex4 :
  parse_timestamp_line init (lit "1:02:03) a b ")
  = Some (mk_extraction (lit "1:02:03") (lit "a b")).
Proof. reflexivity. Qed.

Example generate_ex1 :
  generate_cue_content
    (mk_gen (lit "Album") (lit "Artist") [] [] (lit "a.wav")
       [mk_track (lit "Intro") 0 0 0; mk_track (lit "Two") 2 15 0]) 2024
  = Ok (join [newline]
      [lit "REM GENRE " ++ quoted (lit "Unknown");
       lit "REM DATE 2024";
       lit "REM COMMENT " ++ quoted (lit "Generated by YouTube to CUE Converter");
       lit "PERFORMER " ++ quoted (lit "Artist");
       lit "TITLE " ++ quoted (lit "Album");
       lit "FILE " ++ quoted (lit "a.wav") ++ lit " WAVE";
       lit "  TRACK 01 AUDIO";
       lit "    TITLE " ++ quoted (lit "Intro");
       lit "    PERFORMER " ++ quoted (lit "Artist");
       lit "    INDEX 01 00:00:00";
       lit "  TRACK 02 AUDIO";
       lit "    TITLE " ++ quoted (lit "Two");
       lit "    PERFORMER " ++ quoted (lit "Artist");
       lit "    INDEX 01 02:15:00"]).
Proof. vm_compute. reflexivity. Qed.

Example fmt_ex1 :
  fmt_02d 7 = Ok (lit "07") /\ fmt_2d 7 = Ok (lit " 7")
  /\ fmt_02d (-7) = Ok (lit "-7") /\ fmt_2d (-7) = Ok (lit "-7")
  /\ fmt_02d 123 = Ok (lit "123") /\ str_int 2024 = Ok (lit "2024").
Proof. vm_compute. repeat split; reflexivity. Qed.

Example read_ex1 :
  read_timestamps_file init (lit "t.txt")
    (fun _ => ReadLines [lit "0:00 Intro"; lit "junk"; lit "a: b 1:00"; lit "[2:15] Two"])
  = (Ok 2,
     set_tracks init [mk_track (lit "Intro") 0 0 0; mk_track (lit "Two") 2 15 0],
     [lit "Warning: Skipping line 3 - invalid literal for int() with base 10: 'a'"]).
Proof. reflexivity. Qed.

Example read_ex2 :
  read_timestamps_file init (lit "t.txt")
    (fun _ => ReadLines
       [lit "0:00 Intro"; lit "[2:15] Track Two"; lit "Track Three (4:30)"])
  = (Ok 3,
     set_tracks init
       [mk_track (lit "Intro") 0 0 0; mk_track (lit "Track Two") 2 15 0;
        mk_track (lit "Track Three") 4 30 0],
     []).
Proof. reflexivity. Qed.

(** ** Characters and text *)

Ltac by_cases_on_char a :=
  destruct a as [[] [] [] [] [] [] [] []]; vm_compute; intros;
  try reflexivity; try discriminate; try congruence.

Lemma digit_not_space a : is_digit a = true -> is_space a = false.
Proof. by_cases_on_char a. Qed.

Lemma digit_not_colon a : is_digit a = true -> is_colon a = false.
Proof. by_cases_on_char a. Qed.

Lemma digit_not_open a : is_digit a = true -> is_open a = false.
Proof. by_cases_on_char a. Qed.

Lemma colon_not_space a : is_colon a = true -> is_space a = false.
Proof. by_cases_on_char a. Qed.

Lemma space_not_close a : is_space a = true -> is_close a = false.
Proof. by_cases_on_char a. Qed.

Lemma is_colon_eq a : is_colon a = true -> a = colon.
Proof. unfold is_colon, chr_eqb. apply Ascii.eqb_eq. Qed.

Lemma lstrip_head a s : is_space a = false -> lstrip (a :: s) = a :: s.
Proof. intros H. simpl. now rewrite H. Qed.

Lemma lstrip_no_space s :
  Forall (fun a => is_space a = false) s -> lstrip s = s.
Proof. intros H. destruct H as [|a s Ha _]; [reflexivity|now apply lstrip_head]. Qed.

Lemma strip_no_space s :
  Forall (fun a => is_space a = false) s -> strip s = s.
Proof.
  intros H. unfold strip, rstrip. rewrite (lstrip_no_space s H).
  rewrite lstrip_no_space; [apply rev_involutive|].
  apply Forall_rev. exact H.
Qed.

Lemma split_on_no_sep sep cur s :
  Forall (fun a => chr_eqb a sep = false) s ->
  split_on sep cur s = [rev cur ++ s].
Proof.
  intros H. revert cur. induction H as [|a s Ha _ IH]; intros cur; simpl.
  - now rewrite app_nil_r.
  - rewrite Ha, IH. simpl. now rewrite <- app_assoc.
Qed.

Lemma split_on_first sep cur s t :
  Forall (fun a => chr_eqb a sep = false) s ->
  split_on sep cur (s ++ sep :: t) = (rev cur ++ s) :: split_on sep [] t.
Proof.
  intros H. revert cur. induction H as [|a s Ha _ IH]; intros cur; simpl.
  - unfold chr_eqb. rewrite Ascii.eqb_refl. now rewrite app_nil_r.
  - rewrite Ha, IH. simpl. now rewrite <- app_assoc.
Qed.

(** ** The numeric groups of a timestamp token *)

Lemma plain_colon_free s :
  Forall plain s -> Forall (fun a => chr_eqb a colon = false) s.
Proof. apply Forall_impl. now intros a [_ H]. Qed.

Lemma plain_space_free s :
  Forall plain s -> Forall (fun a => is_space a = false) s.
Proof. apply Forall_impl. now intros a [H _]. Qed.

Lemma plainb_plain s : forallb plainb s = true -> Forall plain s.
Proof.
  intros H. apply Forall_forall. intros a Ha.
  apply (proj1 (forallb_forall _ _) H) in Ha. unfold plainb in Ha.
  apply andb_true_iff in Ha as [H1 H2].
  split; [now apply negb_true_iff in H1|now apply negb_true_iff in H2].
Qed.

Lemma int_is_int s n : int_is s n = true -> int s = Ok (Z.of_nat n).
Proof.
  unfold int_is, int, int_literal.
  destruct (int_scan s) as [z| |d]; [|discriminate..].
  intros H. apply Z.eqb_eq in H. now subst.
Qed.

(** A check that holds for every number below [k], by running it. *)
Lemma below_by_running (P : nat -> bool) (k : nat) :
  forallb P (seq 0 k) = true -> forall n, n < k -> P n = true.
Proof.
  intros H n Hn. apply (proj1 (forallb_forall _ _) H).
  apply in_seq. lia.
Qed.

Lemma two_digits_plain n : n <= 99 -> Forall plain (two_digits n).
Proof.
  intros H. apply plainb_plain.
  apply (below_by_running (fun n => forallb plainb (two_digits n)) 100);
    [vm_compute; reflexivity|lia].
Qed.

Lemma two_digits_int n : n <= 99 -> int (two_digits n) = Ok (Z.of_nat n).
Proof.
  intros H. apply int_is_int.
  apply (below_by_running (fun n => int_is (two_digits n) n) 100);
    [vm_compute; reflexivity|lia].
Qed.

Lemma one_or_two_digits_inv n t :
  one_or_two_digits n t = true ->
  t = two_digits n \/ (t = [digit_chr n] /\ n <= 9).
Proof.
  unfold one_or_two_digits.
  destruct (list_eq_dec ascii_dec t (two_digits n)); [now left|].
  destruct (list_eq_dec ascii_dec t [digit_chr n]); [|discriminate].
  intros H. apply Nat.ltb_lt in H. right. split; [assumption|lia].
Qed.

Lemma leading_group_plain n t :
  n <= 99 -> one_or_two_digits n t = true -> Forall plain t.
Proof.
  intros Hn H. apply one_or_two_digits_inv in H as [->|[-> H9]].
  - now apply two_digits_plain.
  - apply plainb_plain.
    apply (below_by_running (fun n => forallb plainb [digit_chr n]) 10);
      [vm_compute; reflexivity|lia].
Qed.

Lemma leading_group_int n t :
  n <= 99 -> one_or_two_digits n t = true -> int t = Ok (Z.of_nat n).
Proof.
  intros Hn H. apply one_or_two_digits_inv in H as [->|[-> H9]].
  - now apply two_digits_int.
  - apply int_is_int.
    apply (below_by_running (fun n => int_is [digit_chr n] n) 10);
      [vm_compute; reflexivity|lia].
Qed.

Lemma colon_is_plain_free : Forall plain [colon] -> False.
Proof. intros H. inversion H as [|? ? [_ Hc] _]. discriminate Hc. Qed.

Lemma parse_two_groups self p0 p1 :
  Forall plain p0 -> Forall plain p1 ->
  parse_timestamp self (p0 ++ colon :: p1)
  = (minutes <- int p0 ;; seconds <- int p1 ;; Ok (minutes, seconds, 0%Z)).
Proof.
  intros H0 H1. unfold parse_timestamp.
  rewrite strip_no_space.
  - unfold split. rewrite split_on_first by now apply plain_colon_free.
    rewrite split_on_no_sep by now apply plain_colon_free. reflexivity.
  - apply Forall_app. split; [now apply plain_space_free|].
    constructor; [reflexivity|now apply plain_space_free].
Qed.

Lemma parse_three_groups self p0 p1 p2 :
  Forall plain p0 -> Forall plain p1 -> Forall plain p2 ->
  parse_timestamp self (p0 ++ colon :: p1 ++ colon :: p2)
  = (hours <- int p0 ;; m <- int p1 ;; seconds <- int p2 ;;
     Ok ((m + hours * 60)%Z, seconds, 0%Z)).
Proof.
  intros H0 H1 H2. unfold parse_timestamp.
  rewrite strip_no_space.
  - unfold split. rewrite split_on_first by now apply plain_colon_free.
    rewrite split_on_first by now apply plain_colon_free.
    rewrite split_on_no_sep by now apply plain_colon_free. reflexivity.
  - repeat (apply Forall_app; split); try (now apply plain_space_free).
    constructor; [reflexivity|]. apply Forall_app. split.
    + now apply plain_space_free.
    + constructor; [reflexivity|now apply plain_space_free].
Qed.

(** C1.  A token [M:SS] or [MM:SS] with [M], [SS] in 0..99 parses to
    [(M, SS, 0)]; a token [H:MM:SS] (hours with one or two digits) parses to
    [(H*60+MM, SS, 0)]; the seconds are returned as written, so [1:75] gives
    seconds 75 and minutes 1. *)
Theorem parse_timestamp_valid_tokens (self : CueGenerator) :
  (forall M SS mm, M <= 99 -> SS <= 99 -> one_or_two_digits M mm = true ->
     parse_timestamp self (mm ++ lit ":" ++ two_digits SS)
     = Ok (Z.of_nat M, Z.of_nat SS, 0%Z))
  /\ (forall H MM SS hh, H <= 99 -> MM <= 99 -> SS <= 99 ->
        one_or_two_digits H hh = true ->
        parse_timestamp self
          (hh ++ lit ":" ++ two_digits MM ++ lit ":" ++ two_digits SS)
        = Ok (Z.of_nat (H * 60 + MM), Z.of_nat SS, 0%Z))
  /\ parse_timestamp self (lit "1:75") = Ok (1%Z, 75%Z, 0%Z).
Proof.
  split; [|split].
  - intros M SS mm HM HS Hmm. change (lit ":" ++ two_digits SS) with (colon :: two_digits SS).
    rewrite parse_two_groups.
    + rewrite (leading_group_int M mm HM Hmm), (two_digits_int SS HS). reflexivity.
    + now apply (leading_group_plain M).
    + now apply two_digits_plain.
  - intros H MM SS hh HH HM HS Hhh.
    change (hh ++ lit ":" ++ two_digits MM ++ lit ":" ++ two_digits SS)
      with (hh ++ colon :: two_digits MM ++ colon :: two_digits SS).
    rewrite parse_three_groups.
    + rewrite (leading_group_int H hh HH Hhh), (two_digits_int MM HM),
        (two_digits_int SS HS). simpl. do 2 f_equal. f_equal. lia.
    + now apply (leading_group_plain H).
    + now apply two_digits_plain.
    + now apply two_digits_plain.
  - reflexivity.
Qed.

Lemma parse_timestamp_valid_tokens_witness :
  parse_timestamp init (lit "1:75") = Ok (1%Z, 75%Z, 0%Z)
  /\ parse_timestamp init (lit "07:05") = Ok (7%Z, 5%Z, 0%Z)
  /\ parse_timestamp init (lit "1:02:75") = Ok (62%Z, 75%Z, 0%Z).
Proof.
  split; [|split].
  - apply (proj1 (parse_timestamp_valid_tokens init) 1 75 (lit "1"));
      [lia | lia | reflexivity].
  - apply (proj1 (parse_timestamp_valid_tokens init) 7 5 (lit "07"));
      [lia | lia | reflexivity].
  - apply (proj1 (proj2 (parse_timestamp_valid_tokens init)) 1 2 75 (lit "1"));
      [lia | lia | lia | reflexivity].
Defined.

(** ** The exceptions of [parse_timestamp] *)

Lemma int_ok_or_not p :
  (exists z, int p = Ok z /\ int_literal p = Some z)
  \/ (exists e, int p = Raise e /\ exn_cls e = ValueError
                /\ int_literal p = None).
Proof.
  unfold int, int_literal. destruct (int_scan p) as [z| |d].
  - left. now exists z.
  - right. eexists. repeat split.
  - right. eexists. repeat split.
Qed.

Lemma parse_timestamp_raises_value_error self t e :
  parse_timestamp self t = Raise e -> exn_cls e = ValueError.
Proof.
  unfold parse_timestamp.
  destruct (split colon (strip t)) as [|p0 [|p1 [|p2 [|p3 rest]]]];
    try (intros H; injection H as <-; reflexivity).
  - destruct (int_ok_or_not p0) as [[z0 [E0 _]]|[e0 [E0 [C0 _]]]]; rewrite E0; simpl;
      [|intros H; injection H as <-; exact C0].
    destruct (int_ok_or_not p1) as [[z1 [E1 _]]|[e1 [E1 [C1 _]]]]; rewrite E1; simpl;
      [discriminate|intros H; injection H as <-; exact C1].
  - destruct (int_ok_or_not p0) as [[z0 [E0 _]]|[e0 [E0 [C0 _]]]]; rewrite E0; simpl;
      [|intros H; injection H as <-; exact C0].
    destruct (int_ok_or_not p1) as [[z1 [E1 _]]|[e1 [E1 [C1 _]]]]; rewrite E1; simpl;
      [|intros H; injection H as <-; exact C1].
    destruct (int_ok_or_not p2) as [[z2 [E2 _]]|[e2 [E2 [C2 _]]]]; rewrite E2; simpl;
      [discriminate|intros H; injection H as <-; exact C2].
Qed.

(** What [parse_timestamp] does with two and with three groups. *)
Lemma parse_timestamp_groups self t :
  let parts := split colon (strip t) in
  (exists e, parse_timestamp self t = Raise e)
  <-> ((length parts <> 2 /\ length parts <> 3)
       \/ exists p, In p parts /\ int_literal p = None).
Proof.
  cbv zeta. unfold parse_timestamp.
  destruct (split colon (strip t)) as [|p0 [|p1 [|p2 [|p3 rest]]]].
  - split; [intros _; left; simpl; split; discriminate|].
    intros _. eexists. reflexivity.
  - split; [intros _; left; simpl; split; discriminate|].
    intros _. eexists. reflexivity.
  - split.
    + intros [e He]. right.
      destruct (int_ok_or_not p0) as [[z0 [E0 _]]|[e0 [_ [_ N0]]]];
        [|exists p0; split; [now left|assumption]].
      destruct (int_ok_or_not p1) as [[z1 [E1 _]]|[e1 [_ [_ N1]]]];
        [|exists p1; split; [right; now left|assumption]].
      rewrite E0, E1 in He. discriminate He.
    + intros [[H _]|[p [Hin Hp]]]; [now elim H|].
      destruct (int_ok_or_not p0) as [[z0 [E0 L0]]|[e0 [E0 _]]];
        [|rewrite E0; eexists; reflexivity].
      destruct (int_ok_or_not p1) as [[z1 [E1 L1]]|[e1 [E1 _]]];
        [|rewrite E0, E1; eexists; reflexivity].
      destruct Hin as [<-|[<-|[]]]; congruence.
  - split.
    + intros [e He]. right.
      destruct (int_ok_or_not p0) as [[z0 [E0 _]]|[e0 [_ [_ N0]]]];
        [|exists p0; split; [now left|assumption]].
      destruct (int_ok_or_not p1) as [[z1 [E1 _]]|[e1 [_ [_ N1]]]];
        [|exists p1; split; [right; now left|assumption]].
      destruct (int_ok_or_not p2) as [[z2 [E2 _]]|[e2 [_ [_ N2]]]];
        [|exists p2; split; [right; right; now left|assumption]].
      rewrite E0, E1, E2 in He. discriminate He.
    + intros [[_ H]|[p [Hin Hp]]]; [now elim H|].
      destruct (int_ok_or_not p0) as [[z0 [E0 L0]]|[e0 [E0 _]]];
        [|rewrite E0; eexists; reflexivity].
      destruct (int_ok_or_not p1) as [[z1 [E1 L1]]|[e1 [E1 _]]];
        [|rewrite E0, E1; eexists; reflexivity].
      destruct (int_ok_or_not p2) as [[z2 [E2 L2]]|[e2 [E2 _]]];
        [|rewrite E0, E1, E2; eexists; reflexivity].
      destruct Hin as [<-|[<-|[<-|[]]]]; congruence.
  - split; [intros _; left; simpl; split; discriminate|].
    intros _. eexists. reflexivity.
Qed.

(** ** The loading loop *)

(** The loop never leaves early: it ends with the tracks of the lines that
    convert, in order, and has printed the warnings of the lines that were
    extracted but do not convert, in order. *)
Lemma read_loop_spec self lines : forall n ts out,
  read_loop self n lines ts out
  = (Ok (ts ++ flat_map (line_track self) lines),
     out ++ flat_map (line_diagnostic self) (enumerate n lines)).
Proof.
  induction lines as [|line lines IH]; intros n ts out; simpl.
  - now rewrite !app_nil_r.
  - unfold line_track at 1, line_diagnostic at 1. simpl.
    destruct (parse_timestamp_line self line) as [parsed|]; [|apply IH].
    destruct (parse_timestamp self (x_timestamp parsed)) as [[[mins secs] fr]|e] eqn:E.
    + rewrite IH. simpl. now rewrite <- app_assoc.
    + rewrite (parse_timestamp_raises_value_error _ _ _ E). simpl.
      rewrite IH. now rewrite <- app_assoc.
Qed.

Lemma read_body_lines self filepath fs lines :
  fs filepath = ReadLines lines ->
  read_body self filepath fs
  = (match flat_map (line_track self) lines with
     | [] => Raise (mk_exn ValueError (lit "No valid timestamps found in file"))
     | ts => Ok (length ts, set_tracks self ts)
     end,
     flat_map (line_diagnostic self) (enumerate 1 lines)).
Proof.
  intros E. unfold read_body. rewrite E, read_loop_spec. simpl.
  now destruct (flat_map (line_track self) lines).
Qed.

Lemma read_timestamps_file_output self filepath fs lines :
  fs filepath = ReadLines lines ->
  snd (read_timestamps_file self filepath fs)
  = flat_map (line_diagnostic self) (enumerate 1 lines).
Proof.
  intros E. unfold read_timestamps_file. rewrite (read_body_lines _ _ _ _ E).
  now destruct (flat_map (line_track self) lines).
Qed.

Lemma in_enumerate {A} (l : list A) : forall start k x,
  nth_error l k = Some x -> In (start + k, x) (enumerate start l).
Proof.
  induction l as [|y l IH]; intros start k x H.
  - destruct k; discriminate.
  - destruct k as [|k]; simpl in *.
    + injection H as ->. left. f_equal. lia.
    + right. replace (start + S k) with (S start + k) by lia. now apply IH.
Qed.

Lemma is_infix_app_l x s t : is_infix x s -> is_infix x (t ++ s).
Proof.
  intros [pre [post ->]]. exists (t ++ pre), post. now rewrite <- app_assoc.
Qed.

Lemma is_infix_app_r x s t : is_infix x s -> is_infix x (s ++ t).
Proof.
  intros [pre [post ->]]. exists pre, (post ++ t). now rewrite <- !app_assoc.
Qed.

Lemma is_infix_refl x : is_infix x x.
Proof. exists [], []. simpl. now rewrite app_nil_r. Qed.

(** C3, as the code has it.  When the file can be read, what is printed is
    exactly one warning for each line that was extracted but whose timestamp
    does not convert, in line order; such a warning holds the 1-based line
    number and the message of the conversion error.  A line on which no
    shape matches prints nothing. *)
Theorem read_timestamps_file_diagnostics
  (self : CueGenerator) (filepath : str) (fs : filesystem) (lines : list str) :
  fs filepath = ReadLines lines ->
  let out := snd (read_timestamps_file self filepath fs) in
  out = flat_map (line_diagnostic self) (enumerate 1 lines)
  /\ (forall k line parsed e,
        nth_error lines k = Some line ->
        parse_timestamp_line self line = Some parsed ->
        parse_timestamp self (x_timestamp parsed) = Raise e ->
        In (warning (S k) e) out
        /\ is_infix (str_of_nat (S k)) (warning (S k) e)
        /\ is_infix (exn_msg e) (warning (S k) e))
  /\ (forall k line,
        parse_timestamp_line self line = None ->
        line_diagnostic self (k, line) = []).
Proof.
  intros E out. unfold out. rewrite (read_timestamps_file_output _ _ _ _ E).
  split; [reflexivity|split].
  - intros k line parsed e Hk Hp He. split; [|split].
    + apply in_flat_map. exists (S k, line). split.
      * now apply (in_enumerate lines 1 k).
      * unfold line_diagnostic. simpl. rewrite Hp, He. now left.
    + unfold warning. apply is_infix_app_l, is_infix_app_r, is_infix_refl.
    + unfold warning. do 3 apply is_infix_app_l. apply is_infix_refl.
  - intros k line H. unfold line_diagnostic. simpl. now rewrite H.
Qed.

Lemma read_timestamps_file_diagnostics_witness :
  snd (read_timestamps_file init (lit "t.txt")
         (fun _ => ReadLines [lit "0:00 Intro"; lit "junk"; lit "a: b 1:00"]))
  = [lit "Warning: Skipping line 3 - invalid literal for int() with base 10: 'a'"].
Proof.
  exact (proj1 (read_timestamps_file_diagnostics init (lit "t.txt")
                  (fun _ => ReadLines [lit "0:00 Intro"; lit "junk"; lit "a: b 1:00"])
                  [lit "0:00 Intro"; lit "junk"; lit "a: b 1:00"] eq_refl)).
Defined.

Lemma prefixb_app x post : prefixb x (x ++ post) = true.
Proof.
  induction x as [|a x IH]; [reflexivity|]. simpl.
  unfold chr_eqb. now rewrite Ascii.eqb_refl.
Qed.

Lemma is_infix_infixb x s : is_infix x s -> infixb x s = true.
Proof.
  intros [pre [post ->]]. induction pre as [|a pre IH].
  - simpl. destruct (x ++ post) eqn:E; simpl; rewrite <- E, prefixb_app; reflexivity.
  - change ((a :: pre) ++ x ++ post) with (a :: (pre ++ x ++ post)).
    cbn [infixb]. rewrite IH. apply orb_true_r.
Qed.

(** C3, as stated, fails twice.  A line on which no shape matches is
    skipped and nothing at all is printed for it; and the warning printed
    for a line whose timestamp does not convert holds the line number and
    the failing group, not the text of the line. *)
Lemma skipped_line_without_diagnostic :
  ~ (forall self filepath fs lines k line,
       fs filepath = ReadLines lines ->
       nth_error lines k = Some line ->
       skipped self line = true ->
       exists w, In w (snd (read_timestamps_file self filepath fs))
                 /\ is_infix (str_of_nat (S k)) w /\ is_infix line w)
  /\ ~ (forall self filepath fs lines k line,
          fs filepath = ReadLines lines ->
          nth_error lines k = Some line ->
          skipped self line = true ->
          parse_timestamp_line self line <> None ->
          exists w, In w (snd (read_timestamps_file self filepath fs))
                    /\ is_infix (str_of_nat (S k)) w /\ is_infix line w).
Proof.
  split; intros H.
  - destruct (H init (lit "t.txt")
                (fun _ => ReadLines [lit "0:00 Intro"; lit "just text"])
                [lit "0:00 Intro"; lit "just text"] 1 (lit "just text")
                eq_refl eq_refl eq_refl) as [w [Hin _]].
    exact Hin.
  - destruct (H init (lit "t.txt")
                (fun _ => ReadLines [lit "Part 1: Intro (0:00)"])
                [lit "Part 1: Intro (0:00)"] 0 (lit "Part 1: Intro (0:00)")
                eq_refl eq_refl eq_refl) as [w [Hin [_ Hline]]];
      [discriminate|].
    destruct Hin as [<-|[]].
    apply is_infix_infixb in Hline. vm_compute in Hline. discriminate Hline.
Qed.

(** ** What reaches the caller of [read_timestamps_file] *)

(** Whenever the lines of a readable file give no track, the [ValueError]
    raised inside the [try] is caught by the last handler and replaced. *)
Lemma no_tracks_error self filepath fs lines :
  fs filepath = ReadLines lines ->
  flat_map (line_track self) lines = [] ->
  fst (read_timestamps_file self filepath fs)
  = (Raise (mk_exn Exception
              (lit "Error reading file: No valid timestamps found in file")),
     self).
Proof.
  intros E H. unfold read_timestamps_file.
  rewrite (read_body_lines _ _ _ _ E), H. reflexivity.
Qed.

(** Whatever is raised, it is never a [ValueError]. *)
Lemma read_timestamps_file_raise_class self filepath fs e :
  fst (fst (read_timestamps_file self filepath fs)) = Raise e ->
  exn_cls e = FileNotFoundError \/ exn_cls e = Exception.
Proof.
  unfold read_timestamps_file.
  destruct (read_body self filepath fs) as [[[n self']|e'] out].
  - discriminate.
  - destruct (subclass (exn_cls e') FileNotFoundError); simpl;
      intros H; injection H as <-; [now left|now right].
Qed.

(** C4, on the code.  A readable file without any track makes the call
    raise [Exception("Error reading file: No valid timestamps found in
    file")]: the class and the prefix are those that an unreadable file
    gives, and not the [ValueError] of the docstring. *)
Theorem no_tracks_error_is_wrapped :
  read_timestamps_file init (lit "list.txt")
    (fun _ => ReadLines [lit "just text, no timestamp"])
  = (Raise (mk_exn Exception
              (lit "Error reading file: No valid timestamps found in file")),
     init, [])
  /\ read_timestamps_file init (lit "list.txt")
       (fun _ => ReadRaises
          (mk_exn OSError (lit "[Errno 13] Permission denied: 'list.txt'")))
     = (Raise (mk_exn Exception
                 (lit "Error reading file: [Errno 13] Permission denied: 'list.txt'")),
        init, [])
  /\ read_timestamps_file init (lit "list.txt")
       (fun _ => ReadRaises
          (mk_exn FileNotFoundError
             (lit "[Errno 2] No such file or directory: 'list.txt'")))
     = (Raise (mk_exn FileNotFoundError (lit "File not found: list.txt")),
        init, []).
Proof. repeat split. Qed.

(** C10.  On every exit by an exception the object is what it was; on a
    normal return the file was read, all its lines went through the loop,
    the loop gave at least one track, and [tracks] alone was assigned. *)
Theorem read_timestamps_file_atomic
  (self : CueGenerator) (filepath : str) (fs : filesystem) :
  match read_timestamps_file self filepath fs with
  | (Raise _, self', _) => self' = self
  | (Ok n, self', out) =>
      exists lines ts,
        fs filepath = ReadLines lines
        /\ read_loop self 1 lines [] [] = (Ok ts, out)
        /\ ts = flat_map (line_track self) lines
        /\ ts <> []
        /\ self' = set_tracks self ts
        /\ n = length ts
  end.
Proof.
  unfold read_timestamps_file, read_body.
  destruct (fs filepath) as [lines|e].
  - rewrite read_loop_spec. simpl.
    destruct (flat_map (line_track self) lines) as [|t ts] eqn:E; simpl.
    + reflexivity.
    + exists lines, (t :: ts). rewrite read_loop_spec. simpl. rewrite E.
      repeat split. discriminate.
  - destruct (subclass (exn_cls e) FileNotFoundError); reflexivity.
Qed.

(** ** Which group is the timestamp *)

(** C6, on the code.  On the suffix form with a colon in the title the
    pattern captures the title first and the timestamp second, and the
    extractor returns them swapped. *)
Theorem suffix_form_title_with_colon_swapped :
  option_map (fun m => (group m 1, group m 2))
    (re_match pattern_c (lit "Part 1: Intro (0:00)"))
  = Some (Some (lit "Part 1: Intro"), Some (lit "0:00"))
  /\ parse_timestamp_line init (lit "Part 1: Intro (0:00)")
     = Some (mk_extraction (lit "Part 1: Intro") (lit "0:00")).
Proof. split; reflexivity. Qed.

(** ** The rendered CUE text *)

Lemma fmt_02d_within z : within_limit z = true -> fmt_02d z = Ok (pad_02d z).
Proof. unfold fmt_02d. now intros ->. Qed.

Lemma fmt_2d_within z : within_limit z = true -> fmt_2d z = Ok (pad_2d z).
Proof. unfold fmt_2d. now intros ->. Qed.

Lemma track_within_limit_inv t :
  track_within_limit t = true ->
  within_limit (minutes t) = true /\ within_limit (seconds t) = true
  /\ within_limit (frames t) = true.
Proof.
  unfold track_within_limit. intros H.
  apply andb_true_iff in H as [H Hf]. apply andb_true_iff in H as [Hm Hs].
  now repeat split.
Qed.

(** A block is appended when its four numbers can be written; otherwise
    the conversion error leaves the method. *)
Lemma track_block_spec self i t :
  track_block self i t
  = if within_limit (Z.of_nat i) && track_within_limit t
    then Ok (block_text self i t) else Raise limit_error.
Proof.
  unfold track_block, track_within_limit, fmt_02d.
  destruct (within_limit (Z.of_nat i)); [|reflexivity].
  destruct (within_limit (minutes t)); [|reflexivity].
  destruct (within_limit (seconds t)); [|reflexivity].
  destruct (within_limit (frames t)); reflexivity.
Qed.

Lemma cue_loop_spec self ts : forall i acc,
  cue_loop self i ts acc
  = if tracks_within_limit i ts
    then Ok (acc ++ flat_map (block_of self) (enumerate i ts))
    else Raise limit_error.
Proof.
  induction ts as [|t ts IH]; intros i acc; cbn [cue_loop tracks_within_limit].
  - cbn [enumerate flat_map]. now rewrite app_nil_r.
  - rewrite track_block_spec.
    destruct (within_limit (Z.of_nat i) && track_within_limit t);
      [|reflexivity].
    cbn [bind andb]. rewrite IH.
    destruct (tracks_within_limit (S i) ts); [|reflexivity].
    cbn [enumerate flat_map]. unfold block_of at 2. cbn [fst snd].
    now rewrite <- app_assoc.
Qed.

Lemma blocks_nth self ts : forall i k t j,
  nth_error ts k = Some t -> j < 4 ->
  nth_error (flat_map (block_of self) (enumerate i ts)) (4 * k + j)
  = nth_error (block_text self (i + k) t) j.
Proof.
  induction ts as [|t0 ts IH]; intros i k t j Hk Hj.
  - destruct k; discriminate.
  - destruct k as [|k]; simpl in Hk.
    + injection Hk as ->. replace (i + 0) with i by lia.
      replace (4 * 0 + j) with j by lia.
      cbn [enumerate flat_map]. rewrite nth_error_app1; [reflexivity|].
      simpl. exact Hj.
    + cbn [enumerate flat_map].
      rewrite nth_error_app2 by (simpl; lia).
      replace (4 * S k + j - length (block_of self (i, t0))) with (4 * k + j)
        by (simpl; lia).
      rewrite (IH (S i) k t j Hk Hj). f_equal. f_equal. lia.
Qed.

Lemma blocks_length self ts : forall i,
  length (flat_map (block_of self) (enumerate i ts)) = 4 * length ts.
Proof.
  induction ts as [|t ts IH]; intros i; [reflexivity|].
  cbn [enumerate flat_map]. rewrite length_app, IH. simpl. lia.
Qed.

(** The method returns the lines exactly when every number it writes is
    within the limit; otherwise it raises the conversion error. *)
Lemma cue_lines_spec self now_year :
  cue_lines self now_year
  = if numbers_within_limit self now_year
    then Ok (lines_text self now_year) else Raise limit_error.
Proof.
  unfold cue_lines, numbers_within_limit, lines_text, header_text, str_int.
  destruct (truthy (year self)) eqn:Ey; cbn [orb andb bind app].
  - rewrite cue_loop_spec.
    destruct (tracks_within_limit 1 (tracks self)); [|reflexivity].
    destruct (truthy (genre self)); reflexivity.
  - destruct (within_limit now_year); cbn [bind andb]; [|reflexivity].
    rewrite cue_loop_spec.
    destruct (tracks_within_limit 1 (tracks self)); [|reflexivity].
    destruct (truthy (genre self)); reflexivity.
Qed.

Lemma generate_cue_content_spec self now_year :
  generate_cue_content self now_year
  = if numbers_within_limit self now_year
    then Ok (join [newline] (lines_text self now_year))
    else Raise limit_error.
Proof.
  unfold generate_cue_content. rewrite cue_lines_spec.
  now destruct (numbers_within_limit self now_year).
Qed.

Lemma tracks_within_limit_nth ts : forall i k t,
  tracks_within_limit i ts = true -> nth_error ts k = Some t ->
  within_limit (Z.of_nat (i + k)) = true /\ track_within_limit t = true.
Proof.
  induction ts as [|t0 ts IH]; intros i k t H Hk.
  - destruct k; discriminate.
  - cbn [tracks_within_limit] in H.
    apply andb_true_iff in H as [H Hts]. apply andb_true_iff in H as [Hi Ht].
    destruct k as [|k]; simpl in Hk.
    + injection Hk as <-. replace (i + 0) with i by lia. now split.
    + replace (i + S k) with (S i + k) by lia. now apply IH.
Qed.

Lemma join_infix sep l ls : In l ls -> is_infix l (join sep ls).
Proof.
  induction ls as [|l0 ls IH]; intros H; [contradiction|].
  destruct H as [->|H].
  - destruct ls as [|l1 ls]; [apply is_infix_refl|].
    cbn [join]. apply is_infix_app_r, is_infix_refl.
  - destruct ls as [|l1 ls]; [contradiction|].
    cbn [join]. apply is_infix_app_l, is_infix_app_l. now apply IH.
Qed.

Lemma str_eqb_eq s t : str_eqb s t = true -> s = t.
Proof. unfold str_eqb. now destruct (list_eq_dec ascii_dec s t). Qed.

Lemma result_eqb_two_digits n :
  n <= 99 -> fmt_02d (Z.of_nat n) = Ok (two_digits n).
Proof.
  intros H.
  assert (E : match fmt_02d (Z.of_nat n) with
              | Ok t => str_eqb t (two_digits n)
              | Raise _ => false
              end = true).
  { apply (below_by_running
             (fun n => match fmt_02d (Z.of_nat n) with
                       | Ok t => str_eqb t (two_digits n)
                       | Raise _ => false
                       end) 100); [vm_compute; reflexivity|lia]. }
  destruct (fmt_02d (Z.of_nat n)) as [t|e]; [|discriminate].
  apply str_eqb_eq in E. now subst.
Qed.

(** C8, with the condition that the code needs.  When every number that the
    method writes has at most 4300 digits, it returns a text, and for the
    track at position [k] (from 0) of the track list, with frames 0, the
    text holds [INDEX 01 mm:ss:00] with minutes and seconds in the format
    [02d]; the lines of the text are 6 header lines and then 4 lines per
    track, in the order of the list, the block of that track starting with
    [TRACK nn AUDIO] for [nn] the format [02d] of [k + 1] and ending with
    its [INDEX] line; and [02d] of a number in 0..99 is its two digits. *)
Theorem generate_cue_content_tracks
  (self : CueGenerator) (now_year : Z) (k : nat) (track : Track) :
  numbers_within_limit self now_year = true ->
  nth_error (tracks self) k = Some track ->
  frames track = 0%Z ->
  exists content lines mm ss nn,
    generate_cue_content self now_year = Ok content
    /\ cue_lines self now_year = Ok lines
    /\ fmt_02d (minutes track) = Ok mm
    /\ fmt_02d (seconds track) = Ok ss
    /\ fmt_02d (Z.of_nat (S k)) = Ok nn
    /\ content = join [newline] lines
    /\ is_infix (lit "INDEX 01 " ++ mm ++ lit ":" ++ ss ++ lit ":00") content
    /\ length lines = 6 + 4 * length (tracks self)
    /\ nth_error lines (6 + 4 * k) = Some (lit "  TRACK " ++ nn ++ lit " AUDIO")
    /\ nth_error lines (6 + 4 * k + 1)
       = Some (lit "    TITLE " ++ quoted (title track))
    /\ nth_error lines (6 + 4 * k + 2)
       = Some (lit "    PERFORMER " ++ quoted (artist self))
    /\ nth_error lines (6 + 4 * k + 3)
       = Some (lit "    INDEX 01 " ++ mm ++ lit ":" ++ ss ++ lit ":00")
    /\ (forall n, n <= 99 -> fmt_02d (Z.of_nat n) = Ok (two_digits n))
    /\ fmt_02d (Z.of_nat 100) = Ok (lit "100").
Proof.
  intros Hfit Hk Hf.
  assert (Hts : tracks_within_limit 1 (tracks self) = true).
  { unfold numbers_within_limit in Hfit. now apply andb_true_iff in Hfit. }
  destruct (tracks_within_limit_nth _ 1 k track Hts Hk) as [Hn Ht].
  destruct (track_within_limit_inv _ Ht) as [Hm [Hs _]].
  exists (join [newline] (lines_text self now_year)), (lines_text self now_year),
    (pad_02d (minutes track)), (pad_02d (seconds track)),
    (pad_02d (Z.of_nat (S k))).
  set (lines := lines_text self now_year).
  assert (Hnth : forall j, j < 4 ->
            nth_error lines (6 + 4 * k + j)
            = nth_error (block_text self (S k) track) j).
  { intros j Hj. unfold lines, lines_text.
    rewrite nth_error_app2 by (simpl; lia).
    replace (6 + 4 * k + j - length (header_text self now_year))
      with (4 * k + j) by (simpl; lia).
    now rewrite (blocks_nth self (tracks self) 1 k track j Hk Hj). }
  assert (H3 : nth_error lines (6 + 4 * k + 3)
               = Some (lit "    INDEX 01 " ++ pad_02d (minutes track) ++ lit ":"
                         ++ pad_02d (seconds track) ++ lit ":00")).
  { rewrite (Hnth 3) by lia. unfold block_text. simpl nth_error.
    rewrite Hf. reflexivity. }
  split; [rewrite generate_cue_content_spec, Hfit; reflexivity|].
  split; [rewrite cue_lines_spec, Hfit; reflexivity|].
  split; [now apply fmt_02d_within|]. split; [now apply fmt_02d_within|].
  split; [now apply fmt_02d_within|]. split; [reflexivity|]. split.
  { destruct (join_infix [newline] _ _ (nth_error_In _ _ H3)) as [pre [post E]].
    exists (pre ++ lit "    "), post. rewrite E. now rewrite <- !app_assoc. }
  split.
  { unfold lines, lines_text. rewrite length_app, blocks_length. simpl. lia. }
  split.
  { replace (6 + 4 * k) with (6 + 4 * k + 0) by lia. now rewrite (Hnth 0) by lia. }
  split; [now rewrite (Hnth 1) by lia|].
  split; [now rewrite (Hnth 2) by lia|].
  split; [exact H3|].
  split; [exact result_eqb_two_digits|vm_compute; reflexivity].
Qed.

Lemma generate_cue_content_tracks_witness :
  exists content,
    generate_cue_content
      (mk_gen (lit "Album") (lit "Artist") [] [] (lit "a.wav")
         [mk_track (lit "Intro") 0 0 0; mk_track (lit "Two") 2 15 0]) 2024
    = Ok content
    /\ is_infix (lit "INDEX 01 02:15:00") content.
Proof.
  destruct (generate_cue_content_tracks
    (mk_gen (lit "Album") (lit "Artist") [] [] (lit "a.wav")
       [mk_track (lit "Intro") 0 0 0; mk_track (lit "Two") 2 15 0])
    2024 1 (mk_track (lit "Two") 2 15 0) eq_refl eq_refl eq_refl)
    as [content [lines [mm [ss [nn [E [_ [Em [Es [_ [_ [H _]]]]]]]]]]]].
  exists content. split; [exact E|].
  vm_compute in Em, Es. injection Em as <-. injection Es as <-. exact H.
Defined.

(** ** The matcher *)

Lemma move_id st : move st (m_pos st, m_rest st) = st.
Proof. now destruct st. Qed.

Lemma take_upto_zero p g pos u : take_upto p g (Some 0) pos u = [(pos, u)].
Proof. destruct u as [|a u]; simpl; [reflexivity|]. now rewrite andb_false_r. Qed.

Lemma take_exact_inv p : forall n pos u pos' u',
  take_exact p n pos u = Some (pos', u') ->
  exists t, u = t ++ u' /\ length t = n /\ forallb p t = true /\ pos' = pos + n.
Proof.
  induction n as [|n IH]; intros pos u pos' u' H; simpl in H.
  - injection H as <- <-. exists []. repeat split. lia.
  - destruct u as [|a u]; [discriminate|].
    destruct (p a) eqn:Ha; [|discriminate].
    destruct (IH _ _ _ _ H) as [t [-> [Hl [Hp ->]]]].
    exists (a :: t). simpl. rewrite Ha, Hl, Hp. repeat split. lia.
Qed.

Lemma take_upto_inv p g : forall u hi pos pos' u',
  In (pos', u') (take_upto p g hi pos u) ->
  exists t, u = t ++ u' /\ forallb p t = true /\ pos' = pos + length t.
Proof.
  induction u as [|a u IH]; intros hi pos pos' u' H; simpl in H.
  - destruct H as [H|[]]. injection H as <- <-. exists []. repeat split. simpl. lia.
  - assert (Hhere : (pos, a :: u) = (pos', u') ->
              exists t, a :: u = t ++ u' /\ forallb p t = true
                        /\ pos' = pos + length t).
    { intros E. injection E as <- <-. exists []. repeat split. simpl. lia. }
    assert (Hmore : In (pos', u') (take_upto p g (spend hi) (S pos) u) ->
              p a = true ->
              exists t, a :: u = t ++ u' /\ forallb p t = true
                        /\ pos' = pos + length t).
    { intros Hin Ha. destruct (IH _ _ _ _ Hin) as [t [-> [Hp ->]]].
      exists (a :: t). simpl. rewrite Ha, Hp. repeat split. lia. }
    destruct (p a && has_budget hi) eqn:E.
    + apply andb_true_iff in E as [Ha _]. destruct g.
      * apply in_app_iff in H as [H|[H|[]]]; auto.
      * destruct H as [H|H]; auto.
    + destruct H as [H|[]]. auto.
Qed.

(** A class repeated: the characters consumed are of the class, and
    there are at least [lo] of them. *)
Lemma exec_Rep_inv p lo hi g st st' :
  In st' (exec (Rep p lo hi g) st) ->
  exists t, m_rest st = t ++ m_rest st' /\ forallb p t = true
            /\ lo <= length t /\ m_caps st' = m_caps st.
Proof.
  cbn [exec]. destruct (take_exact p lo (m_pos st) (m_rest st)) as [[pos u]|] eqn:E;
    [|contradiction].
  intros H. apply in_map_iff in H as [[pos' u'] [<- H]].
  apply take_exact_inv in E as [t1 [E1 [Hl [Hp1 _]]]].
  apply take_upto_inv in H as [t2 [E2 [Hp2 _]]].
  exists (t1 ++ t2). simpl. rewrite E1, E2, forallb_app, Hp1, Hp2, length_app.
  repeat split; [now rewrite app_assoc|lia].
Qed.

Lemma exec_Cls_inv p st st' :
  In st' (exec (Cls p) st) ->
  exists a, m_rest st = a :: m_rest st' /\ p a = true /\ m_caps st' = m_caps st.
Proof.
  cbn [exec]. destruct (m_rest st) as [|a u]; [contradiction|].
  destruct (p a) eqn:Ha; [|contradiction].
  intros [<-|[]]. exists a. now repeat split.
Qed.

Lemma exec_Seq_in r1 r2 st st' :
  In st' (exec (Seq r1 r2) st) <->
  exists s, In s (exec r1 st) /\ In st' (exec r2 s).
Proof. cbn [exec]. apply in_flat_map. Qed.

(** Matching only moves forward in the text. *)
Lemma exec_suffix r : forall st st',
  In st' (exec r st) -> exists t, m_rest st = t ++ m_rest st'.
Proof.
  induction r as [| |p|p lo hi g|r IH|n r IH|r1 IH1 r2 IH2]; intros st st' H.
  - cbn [exec] in H. destruct (m_pos st =? 0); [|contradiction].
    destruct H as [<-|[]]. now exists [].
  - cbn [exec] in H. destruct (m_rest st) as [|a [|b u]] eqn:E.
    + destruct H as [<-|[]]. exists []. now rewrite E.
    + destruct (chr_eqb a newline); [|contradiction].
      destruct H as [<-|[]]. exists []. now rewrite E.
    + contradiction.
  - apply exec_Cls_inv in H as [a [E _]]. now exists [a].
  - apply exec_Rep_inv in H as [t [E _]]. now exists t.
  - cbn [exec] in H. apply in_app_iff in H as [H|[<-|[]]]; [now apply IH|now exists []].
  - cbn [exec] in H. apply in_map_iff in H as [s [<- H]].
    unfold set_cap. cbn [m_rest]. now apply IH.
  - apply exec_Seq_in in H as [s [H1 H2]].
    destruct (IH1 _ _ H1) as [t1 E1]. destruct (IH2 _ _ H2) as [t2 E2].
    exists (t1 ++ t2). now rewrite E1, E2, app_assoc.
Qed.

(** Groups once closed stay closed. *)
Lemma group_set_cap n from to : group (set_cap n from to) n <> None.
Proof. unfold group, set_cap. cbn [m_caps find fst]. now rewrite Nat.eqb_refl. Qed.

Lemma group_set_cap_keeps k n from to :
  group to k <> None -> group (set_cap n from to) k <> None.
Proof.
  unfold group, set_cap. cbn [m_caps find fst].
  destruct (n =? k); [discriminate|trivial].
Qed.

Lemma exec_keeps_groups k r : forall st st',
  In st' (exec r st) -> group st k <> None -> group st' k <> None.
Proof.
  induction r as [| |p|p lo hi g|r IH|n r IH|r1 IH1 r2 IH2]; intros st st' H Hk.
  - cbn [exec] in H. destruct (m_pos st =? 0); [|contradiction].
    now destruct H as [<-|[]].
  - cbn [exec] in H. destruct (m_rest st) as [|a [|b u]].
    + now destruct H as [<-|[]].
    + destruct (chr_eqb a newline); [|contradiction]. now destruct H as [<-|[]].
    + contradiction.
  - apply exec_Cls_inv in H as [_ [_ [_ E]]]. unfold group in *. now rewrite E.
  - apply exec_Rep_inv in H as [_ [_ [_ [_ E]]]]. unfold group in *. now rewrite E.
  - cbn [exec] in H. apply in_app_iff in H as [H|[<-|[]]]; eauto.
  - cbn [exec] in H. apply in_map_iff in H as [s [<- H]].
    apply group_set_cap_keeps. eauto.
  - apply exec_Seq_in in H as [s [H1 H2]]. eauto.
Qed.

Lemma spine_reached g r : on_spine g r -> forall st st',
  In st' (exec r st) ->
  exists s s' t, m_rest st = t ++ m_rest s /\ In s' (exec g s).
Proof.
  induction 1 as [|r1 r2 _ IH|r1 r2 _ IH]; intros st st' H.
  - exists st, st', []. now split.
  - apply exec_Seq_in in H as [s1 [H1 _]]. eauto.
  - apply exec_Seq_in in H as [s1 [H1 H2]].
    destruct (IH _ _ H2) as [s [s' [t [E Hin]]]].
    destruct (exec_suffix _ _ _ H1) as [t1 E1].
    exists s, s', (t1 ++ t). split; [|assumption]. now rewrite E1, E, app_assoc.
Qed.

Lemma spine_group_set k r0 r : on_spine (Grp k r0) r -> forall st st',
  In st' (exec r st) -> group st' k <> None.
Proof.
  remember (Grp k r0) as g eqn:Eg.
  induction 1 as [|r1 r2 _ IH|r1 r2 _ IH]; intros st st' H.
  - subst g. cbn [exec] in H. apply in_map_iff in H as [s [<- _]].
    apply group_set_cap.
  - apply exec_Seq_in in H as [s1 [H1 H2]].
    apply (exec_keeps_groups k _ _ _ H2). eauto.
  - apply exec_Seq_in in H as [s1 [_ H2]]. eauto.
Qed.

Lemma hd_error_in {A} (l : list A) x : hd_error l = Some x -> In x l.
Proof. destruct l; [discriminate|]. intros H. injection H as ->. now left. Qed.

Lemma pattern_spines p :
  In p patterns ->
  exists n, on_spine (Grp n re_timestamp) p
            /\ (exists r1, on_spine (Grp 1 r1) p)
            /\ (exists r2, on_spine (Grp 2 r2) p).
Proof.
  intros [<-|[<-|[<-|[]]]]; unfold pattern_a, pattern_b, pattern_c, chain;
    cbn [fold_right].
  - exists 1. split; [|split; eexists].
    + apply spine_right, spine_right, spine_left, spine_here.
    + apply spine_right, spine_right, spine_left, spine_here.
    + do 5 apply spine_right. apply spine_left, spine_here.
  - exists 1. split; [|split; eexists].
    + apply spine_right, spine_left, spine_here.
    + apply spine_right, spine_left, spine_here.
    + do 3 apply spine_right. apply spine_left, spine_here.
  - exists 2. split; [|split; eexists].
    + do 4 apply spine_right. apply spine_left, spine_here.
    + apply spine_right, spine_left, spine_here.
    + do 4 apply spine_right. apply spine_left, spine_here.
Qed.

(** Both groups took part in every match of the three patterns, so
    [extraction_of] never meets a missing group. *)
Lemma groups_present p u m :
  In p patterns -> re_match p u = Some m ->
  group m 1 <> None /\ group m 2 <> None.
Proof.
  intros Hp H. apply hd_error_in in H.
  destruct (pattern_spines p Hp) as [_ [_ [[r1 S1] [r2 S2]]]].
  split; [exact (spine_group_set 1 r1 p S1 _ _ H)|exact (spine_group_set 2 r2 p S2 _ _ H)].
Qed.

(** ** Lines without anything that looks like a timestamp *)

Lemma starts_with_shape_app x post :
  starts_with_shape x = true -> starts_with_shape (x ++ post) = true.
Proof. destruct x as [|a [|b [|c [|d x]]]]; try discriminate. trivial. Qed.

Lemma has_timestamp_shape_app_r x post :
  has_timestamp_shape x = true -> has_timestamp_shape (x ++ post) = true.
Proof.
  induction x as [|a x IH]; [discriminate|].
  change ((a :: x) ++ post) with (a :: (x ++ post)).
  cbn [has_timestamp_shape]. intros H.
  apply orb_true_iff in H as [H|H]; apply orb_true_iff.
  - left. now apply (starts_with_shape_app (a :: x)).
  - right. now apply IH.
Qed.

Lemma has_timestamp_shape_app_l pre x :
  has_timestamp_shape x = true -> has_timestamp_shape (pre ++ x) = true.
Proof.
  intros H. induction pre as [|a pre IH]; [exact H|].
  change ((a :: pre) ++ x) with (a :: (pre ++ x)).
  cbn [has_timestamp_shape]. rewrite IH. apply orb_true_r.
Qed.

Lemma timestamp_consumes_shape st st' :
  In st' (exec re_timestamp st) -> has_timestamp_shape (m_rest st) = true.
Proof.
  unfold re_timestamp, chain. cbn [fold_right]. intros H.
  apply exec_Seq_in in H as [s1 [H1 H]].
  apply exec_Seq_in in H as [s2 [H2 H]].
  apply exec_Seq_in in H as [s3 [H3 _]].
  apply exec_Rep_inv in H1 as [t1 [E1 [P1 [L1 _]]]].
  apply exec_Cls_inv in H2 as [b [E2 [Pb _]]].
  apply exec_Rep_inv in H3 as [t3 [E3 [P3 [L3 _]]]].
  destruct (exists_last (l := t1)) as [pre [a Et]].
  { intros ->. simpl in L1. lia. }
  subst t1. rewrite forallb_app in P1. apply andb_true_iff in P1 as [_ Pa].
  simpl in Pa. rewrite andb_true_r in Pa.
  destruct t3 as [|c [|d t3]]; simpl in L3; try lia.
  simpl in P3. apply andb_true_iff in P3 as [Pc P3].
  apply andb_true_iff in P3 as [Pd _].
  rewrite E1, E2, E3, <- app_assoc. apply has_timestamp_shape_app_l.
  simpl. now rewrite Pa, Pb, Pc, Pd.
Qed.

Lemma first_match_shape ps u x :
  (forall p, In p ps -> In p patterns) ->
  first_match ps u = Some x -> has_timestamp_shape u = true.
Proof.
  induction ps as [|p ps IH]; intros Hps H; [discriminate|].
  cbn [first_match] in H.
  destruct (re_match p u) as [m|] eqn:E.
  - clear H IH. apply hd_error_in in E.
    destruct (pattern_spines p (Hps p (or_introl eq_refl))) as [n [S _]].
    destruct (spine_reached _ _ S _ _ E) as [s [s' [t [Et Hin]]]].
    cbn [exec] in Hin. apply in_map_iff in Hin as [s'' [_ Hin]].
    apply timestamp_consumes_shape in Hin.
    cbn [m_rest] in Et. rewrite Et. now apply has_timestamp_shape_app_l.
  - apply IH; [|exact H]. intros q Hq. apply Hps. now right.
Qed.

Lemma lstrip_suffix s : exists pre, s = pre ++ lstrip s.
Proof.
  induction s as [|a s [pre IH]]; [now exists []|].
  simpl. destruct (is_space a); [|now exists []].
  exists (a :: pre). simpl. now rewrite <- IH.
Qed.

Lemma strip_infix s : exists pre post, s = pre ++ strip s ++ post.
Proof.
  unfold strip, rstrip.
  destruct (lstrip_suffix s) as [pre E].
  destruct (lstrip_suffix (rev (lstrip s))) as [post' E'].
  exists pre, (rev post'). rewrite <- rev_app_distr, <- E', rev_involutive.
  exact E.
Qed.

Lemma ordinal_only_at_start pos u : pos <> 0 -> match_at re_ordinal pos u = None.
Proof.
  intros H. unfold match_at, re_ordinal, chain. cbn [fold_right exec m_pos].
  destruct pos; [now elim H|reflexivity].
Qed.

Lemma sub_scan_ordinal_later u : forall pos k,
  pos <> 0 -> sub_scan re_ordinal pos k u = skipn k u.
Proof.
  induction u as [|a u IH]; intros pos k H.
  - now destruct k.
  - cbn [sub_scan]. destruct k as [|k].
    + rewrite (ordinal_only_at_start pos (a :: u) H). rewrite IH by lia. reflexivity.
    + rewrite IH by lia. reflexivity.
Qed.

(** Stripping the ordinal marker removes a piece at the front, or nothing. *)
Lemma re_sub_ordinal_suffix u : exists n, re_sub_empty re_ordinal u = skipn n u.
Proof.
  unfold re_sub_empty. destruct u as [|a u]; [now exists 0|].
  cbn [sub_scan].
  destruct (match_at re_ordinal 0 (a :: u)) as [m|].
  - destruct (m_pos m - 0) as [|k].
    + rewrite sub_scan_ordinal_later by lia. now exists 0.
    + rewrite sub_scan_ordinal_later by lia. now exists (S k).
  - rewrite sub_scan_ordinal_later by lia. now exists 0.
Qed.

Lemma extraction_needs_shape ps line x :
  (forall p, In p ps -> In p patterns) ->
  match strip line with
  | [] => None
  | _ => first_match ps (re_sub_empty re_ordinal (strip line))
  end = Some x ->
  has_timestamp_shape line = true.
Proof.
  intros Hps H.
  destruct (strip_infix line) as [pre [post E]].
  rewrite E. apply has_timestamp_shape_app_l, has_timestamp_shape_app_r.
  destruct (strip line) as [|a l] eqn:El; [discriminate|].
  apply (first_match_shape ps _ x Hps) in H.
  destruct (re_sub_ordinal_suffix (a :: l)) as [n En]. rewrite En in H.
  rewrite <- (firstn_skipn n (a :: l)). now apply has_timestamp_shape_app_l.
Qed.

Lemma strip_blank line : forallb is_space line = true -> strip line = [].
Proof.
  intros H. unfold strip.
  assert (E : lstrip line = []).
  { induction line as [|a l IH]; [reflexivity|]. simpl in *.
    apply andb_true_iff in H as [Ha Hl]. rewrite Ha. now apply IH. }
  now rewrite E.
Qed.

(** C2.  The four canonical lines give the pairs of the specification; a
    line of white space only, and a line in which no piece reads digit,
    colon, digit, digit, give no match. *)
Theorem parse_timestamp_line_canonical (self : CueGenerator) :
  parse_timestamp_line self (lit "0:00 Intro")
  = Some (mk_extraction (lit "0:00") (lit "Intro"))
  /\ parse_timestamp_line self (lit "[0:00] Intro")
     = Some (mk_extraction (lit "0:00") (lit "Intro"))
  /\ parse_timestamp_line self (lit "Intro (0:00)")
     = Some (mk_extraction (lit "0:00") (lit "Intro"))
  /\ parse_timestamp_line self (lit "1. 0:05 Second Track")
     = Some (mk_extraction (lit "0:05") (lit "Second Track"))
  /\ (forall line, forallb is_space line = true ->
        parse_timestamp_line self line = None)
  /\ (forall line, has_timestamp_shape line = false ->
        parse_timestamp_line self line = None).
Proof.
  repeat (split; [reflexivity|]). split.
  - intros line H. unfold parse_timestamp_line. now rewrite (strip_blank line H).
  - intros line H.
    destruct (parse_timestamp_line self line) as [x|] eqn:E; [|reflexivity].
    unfold parse_timestamp_line in E.
    apply (extraction_needs_shape patterns) in E; [congruence|trivial].
Qed.

Lemma parse_timestamp_line_canonical_witness :
  parse_timestamp_line init (lit "   ") = None
  /\ parse_timestamp_line init (lit "just text, no timestamp") = None.
Proof.
  split.
  - apply (proj1 (proj2 (proj2 (proj2 (proj2 (parse_timestamp_line_canonical init)))))).
    reflexivity.
  - apply (proj2 (proj2 (proj2 (proj2 (proj2 (parse_timestamp_line_canonical init)))))).
    reflexivity.
Defined.

(** ** Shape (b) against shape (a) *)

Lemma pattern_a_eq :
  pattern_a
  = Seq Bol (Seq re_open (Seq (Grp 1 re_timestamp) (Seq re_close re_tail))).
Proof. reflexivity. Qed.

Lemma pattern_b_eq : pattern_b = Seq Bol (Seq (Grp 1 re_timestamp) re_tail).
Proof. reflexivity. Qed.

Lemma exec_Seq r1 r2 st : exec (Seq r1 r2) st = flat_map (exec r2) (exec r1 st).
Proof. reflexivity. Qed.

Lemma exec_Opt r st : exec (Opt r) st = exec r st ++ [st].
Proof. reflexivity. Qed.

Lemma exec_Grp n r st : exec (Grp n r) st = map (set_cap n st) (exec r st).
Proof. reflexivity. Qed.

Lemma exec_optional_class p st :
  exec (Rep p 0 (Some 1) true) st
  = match m_rest st with
    | a :: u' => if p a then [move st (S (m_pos st), u'); st] else [st]
    | [] => [st]
    end.
Proof.
  destruct st as [pos [|a u] caps]; cbn; [reflexivity|].
  destruct (p a); cbn; [|reflexivity].
  now rewrite take_upto_zero.
Qed.

Lemma exec_exact p n st :
  exec (Rep p n (Some n) true) st
  = match take_exact p n (m_pos st) (m_rest st) with
    | Some pu => [move st pu]
    | None => []
    end.
Proof.
  cbn [exec option_map]. rewrite Nat.sub_diag.
  destruct (take_exact p n (m_pos st) (m_rest st)) as [[pos u]|]; [|reflexivity].
  now rewrite take_upto_zero.
Qed.

Lemma exec_one_or_two p st :
  exec (Rep p 1 (Some 2) true) st
  = match m_rest st with
    | a :: u1 =>
        if p a then
          match u1 with
          | b :: u2 =>
              if p b then [move st (S (S (m_pos st)), u2); move st (S (m_pos st), u1)]
              else [move st (S (m_pos st), u1)]
          | [] => [move st (S (m_pos st), u1)]
          end
        else []
    | [] => []
    end.
Proof.
  destruct st as [pos [|a u1] caps]; cbn; [reflexivity|].
  destruct (p a); cbn; [|reflexivity].
  destruct u1 as [|b u2]; cbn; [reflexivity|].
  destruct (p b); cbn; [|reflexivity].
  now rewrite take_upto_zero.
Qed.

Lemma exec_Cls_then p r st :
  exec (Seq (Cls p) r) st
  = match m_rest st with
    | a :: u' => if p a then exec r (move st (S (m_pos st), u')) else []
    | [] => []
    end.
Proof.
  rewrite exec_Seq. cbn [exec].
  destruct (m_rest st) as [|a u']; [reflexivity|].
  destruct (p a); [|reflexivity]. cbn [flat_map]. apply app_nil_r.
Qed.

(** A pattern that begins with at least one character of a class matches
    only where the text begins with such a character. *)
Lemma rep_needs_first p lo hi g r st :
  1 <= lo -> exec (Seq (Rep p lo hi g) r) st <> [] ->
  exists a u, m_rest st = a :: u /\ p a = true.
Proof.
  intros Hlo H.
  destruct (exec (Seq (Rep p lo hi g) r) st) as [|x l] eqn:E; [now elim H|].
  assert (Hin : In x (exec (Seq (Rep p lo hi g) r) st)) by (rewrite E; now left).
  apply exec_Seq_in in Hin as [s [Hs _]].
  apply exec_Rep_inv in Hs as [t [Et [Pt [Lt _]]]].
  destruct t as [|a t]; [simpl in Lt; lia|].
  simpl in Pt. apply andb_true_iff in Pt as [Pa _].
  exists a, (t ++ m_rest s). now split.
Qed.

Lemma tail_needs_space st :
  exec re_tail st <> [] -> exists a u, m_rest st = a :: u /\ is_space a = true.
Proof. apply rep_needs_first. lia. Qed.

Lemma timestamp_needs_digit st :
  exec re_timestamp st <> [] -> exists a u, m_rest st = a :: u /\ is_digit a = true.
Proof. apply rep_needs_first. lia. Qed.

(** Where the tail matches, an optional closing bracket before it matches
    nothing. *)
Lemma close_then_tail st :
  exec re_tail st <> [] -> exec (Seq re_close re_tail) st = exec re_tail st.
Proof.
  intros H. destruct (tail_needs_space st H) as [a [u [E Ha]]].
  rewrite exec_Seq. unfold re_close. rewrite exec_optional_class, E.
  rewrite (space_not_close a Ha). cbn [flat_map]. apply app_nil_r.
Qed.

Lemma seconds_outcomes s :
  timestamp_outcomes
    (exec (Seq (Rep is_digit 2 (Some 2) true)
             (Opt (Seq (Cls is_colon) (Rep is_digit 2 (Some 2) true)))) s).
Proof.
  rewrite exec_Seq, exec_exact.
  destruct (take_exact is_digit 2 (m_pos s) (m_rest s)) as [pu|]; [|now left].
  cbn [flat_map]. rewrite app_nil_r, exec_Opt, exec_Cls_then.
  destruct (m_rest (move s pu)) as [|a u] eqn:E; [right; left; now eexists|].
  destruct (is_colon a) eqn:Ha; [|right; left; now eexists].
  rewrite exec_exact.
  match goal with |- context [take_exact ?p ?n ?x ?y] =>
    destruct (take_exact p n x y) as [pu'|] end.
  - right. right. do 3 eexists. split; [reflexivity|].
    rewrite E. f_equal. now apply is_colon_eq.
  - right. left. now eexists.
Qed.

Lemma timestamp_outcomes_spec st : timestamp_outcomes (exec re_timestamp st).
Proof.
  unfold re_timestamp, chain. cbn [fold_right].
  rewrite exec_Seq, exec_one_or_two.
  destruct (m_rest st) as [|a u1]; [now left|].
  destruct (is_digit a); [|now left].
  assert (Hone : forall s,
            timestamp_outcomes
              (exec (Seq (Cls is_colon)
                       (Seq (Rep is_digit 2 (Some 2) true)
                          (Opt (Seq (Cls is_colon) (Rep is_digit 2 (Some 2) true))))) s)).
  { intros s. rewrite exec_Cls_then.
    destruct (m_rest s) as [|c u]; [now left|].
    destruct (is_colon c); [apply seconds_outcomes|now left]. }
  destruct u1 as [|b u2].
  - cbn [flat_map]. rewrite app_nil_r. apply Hone.
  - destruct (is_digit b) eqn:Hb.
    + cbn [flat_map]. rewrite app_nil_r.
      rewrite (exec_Cls_then _ _ (move st (S (m_pos st), b :: u2))).
      cbn [move m_rest snd]. rewrite (digit_not_colon b Hb), app_nil_r.
      apply Hone.
    + cbn [flat_map]. rewrite app_nil_r. apply Hone.
Qed.

Lemma hd_error_app_nonempty {A} (l l' : list A) :
  l <> [] -> hd_error (l ++ l') = hd_error l.
Proof. destruct l; [now intros H; elim H|reflexivity]. Qed.

(** Whatever match shape (b) finds, shape (a) finds the same match. *)
Lemma pattern_b_match_is_pattern_a_match u m :
  re_match pattern_b u = Some m -> re_match pattern_a u = Some m.
Proof.
  unfold re_match, match_at. rewrite pattern_a_eq, pattern_b_eq.
  set (st0 := mk_mstate 0 u []).
  rewrite (exec_Seq Bol), (exec_Seq Bol).
  change (exec Bol st0) with [st0]. cbn [flat_map]. rewrite !app_nil_r.
  intros H.
  assert (Hts : exec re_timestamp st0 <> []).
  { intros E. rewrite exec_Seq in H. cbn [exec] in H. rewrite E in H. discriminate H. }
  destruct (timestamp_needs_digit st0 Hts) as [a [u' [Eu Ha]]].
  rewrite (exec_Seq re_open). unfold re_open. rewrite exec_optional_class, Eu.
  rewrite (digit_not_open a Ha). cbn [flat_map]. rewrite app_nil_r.
  rewrite exec_Seq in *. cbn [exec] in *.
  fold (exec re_close) in *. fold (exec re_tail) in *.
  change (fun x => flat_map (exec re_tail) (exec re_close x))
    with (exec (Seq re_close re_tail)) in *.
  destruct (timestamp_outcomes_spec st0) as [E|[[z E]|[v [z [r [E Ez]]]]]];
    rewrite E in *; cbn [map flat_map] in *.
  - discriminate H.
  - rewrite app_nil_r in *.
    rewrite close_then_tail; [exact H|]. intros E'. rewrite E' in H. discriminate H.
  - assert (Hz : exec re_tail (set_cap 1 st0 z) = []).
    { destruct (exec re_tail (set_cap 1 st0 z)) as [|x l] eqn:E'; [reflexivity|].
      destruct (tail_needs_space (set_cap 1 st0 z)) as [c [w [Ec Hc]]];
        [rewrite E'; discriminate|].
      unfold set_cap in Ec. cbn [m_rest] in Ec. rewrite Ez in Ec.
      injection Ec as <- _. discriminate Hc. }
    rewrite Hz, !app_nil_r in H.
    assert (Hv : exec re_tail (set_cap 1 st0 v) <> []).
    { intros E'. rewrite E' in H. discriminate H. }
    rewrite (close_then_tail _ Hv). now rewrite hd_error_app_nonempty.
Qed.

(** C7.  A match of shape (b) is a match of shape (a) with the same groups,
    hence the same timestamp and title; and the extractor without shape (b)
    returns on every line what the extractor returns. *)
Theorem shape_b_subsumed_by_shape_a :
  (forall u m, re_match pattern_b u = Some m ->
     re_match pattern_a u = Some m
     /\ exists m', re_match pattern_a u = Some m'
                   /\ group m' 1 = group m 1 /\ group m' 2 = group m 2
                   /\ extraction_of m' = extraction_of m)
  /\ (forall self line,
        parse_timestamp_line_without_b self line = parse_timestamp_line self line).
Proof.
  split.
  - intros u m H. apply pattern_b_match_is_pattern_a_match in H.
    split; [exact H|]. exists m. now repeat split.
  - intros self line. unfold parse_timestamp_line_without_b, parse_timestamp_line.
    destruct (strip line) as [|c l]; [reflexivity|].
    unfold patterns_without_b, patterns. cbn [first_match].
    destruct (re_match pattern_a (re_sub_empty re_ordinal (c :: l))) as [ma|] eqn:Ea;
      [reflexivity|].
    destruct (re_match pattern_b (re_sub_empty re_ordinal (c :: l))) as [mb|] eqn:Eb;
      [|reflexivity].
    apply pattern_b_match_is_pattern_a_match in Eb. congruence.
Qed.

Lemma shape_b_subsumed_by_shape_a_witness :
  re_match pattern_a (lit "0:00 Intro")
  = Some (mk_mstate 10 [] [(2, lit "Intro"); (1, lit "0:00")]).
Proof.
  exact (proj1 (proj1 shape_b_subsumed_by_shape_a (lit "0:00 Intro")
                  (mk_mstate 10 [] [(2, lit "Intro"); (1, lit "0:00")]) eq_refl)).
Defined.

(** * Further properties *)

(** ** White space around a token or a line *)

Lemma lstrip_blank ws : forallb is_space ws = true -> lstrip ws = [].
Proof.
  induction ws as [|a ws IH]; [reflexivity|]. simpl. intros H.
  apply andb_true_iff in H as [Ha Hw]. rewrite Ha. now apply IH.
Qed.

Lemma lstrip_spaces ws s :
  forallb is_space ws = true -> lstrip (ws ++ s) = lstrip s.
Proof.
  induction ws as [|a ws IH]; [reflexivity|]. simpl. intros H.
  apply andb_true_iff in H as [Ha Hw]. rewrite Ha. now apply IH.
Qed.

Lemma forallb_rev {A} (p : A -> bool) l :
  forallb p l = true -> forallb p (rev l) = true.
Proof.
  intros H. apply forallb_forall. intros x Hx. apply in_rev in Hx.
  exact (proj1 (forallb_forall _ _) H x Hx).
Qed.

Lemma rstrip_spaces s ws :
  forallb is_space ws = true -> rstrip (s ++ ws) = rstrip s.
Proof.
  intros H. unfold rstrip. rewrite rev_app_distr.
  now rewrite lstrip_spaces by now apply forallb_rev.
Qed.

Lemma lstrip_app_spaces s ws :
  forallb is_space ws = true ->
  lstrip (s ++ ws) = lstrip s ++ ws \/ (lstrip s = [] /\ lstrip (s ++ ws) = []).
Proof.
  intros H. induction s as [|a s IH].
  - right. split; [reflexivity|]. now apply lstrip_blank.
  - simpl. destruct (is_space a); [exact IH|now left].
Qed.

Lemma strip_spaces ws s ws' :
  forallb is_space ws = true -> forallb is_space ws' = true ->
  strip (ws ++ s ++ ws') = strip s.
Proof.
  intros H H'. unfold strip. rewrite lstrip_spaces by assumption.
  destruct (lstrip_app_spaces s ws' H') as [E|[E1 E2]].
  - rewrite E. now apply rstrip_spaces.
  - now rewrite E1, E2.
Qed.

(** X1.  White space around the text changes nothing: a timestamp token
    converts (or fails, with the same message) as the trimmed token does,
    and a line is extracted as the trimmed line is.  In particular the line
    ends that [readlines] leaves on the lines do not matter. *)
Theorem surrounding_whitespace_ignored
  (self : CueGenerator) (ws t ws' : str) :
  forallb is_space ws = true -> forallb is_space ws' = true ->
  parse_timestamp self (ws ++ t ++ ws') = parse_timestamp self t
  /\ parse_timestamp_line self (ws ++ t ++ ws') = parse_timestamp_line self t.
Proof.
  intros H H'. unfold parse_timestamp, parse_timestamp_line.
  now rewrite (strip_spaces ws t ws' H H').
Qed.

Lemma surrounding_whitespace_ignored_witness :
  parse_timestamp init (lit "  1:02 " ++ [newline]) = parse_timestamp init (lit "1:02")
  /\ parse_timestamp_line init (lit " 0:00 Intro" ++ [newline])
     = parse_timestamp_line init (lit "0:00 Intro").
Proof.
  split.
  - exact (proj1 (surrounding_whitespace_ignored init (lit "  ") (lit "1:02")
                    (lit " " ++ [newline]) eq_refl eq_refl)).
  - exact (proj2 (surrounding_whitespace_ignored init (lit " ") (lit "0:00 Intro")
                    [newline] eq_refl eq_refl)).
Defined.

(** ** What a successful load leaves in the object *)

Lemma parse_timestamp_frames self t m s f :
  parse_timestamp self t = Ok (m, s, f) -> f = 0%Z.
Proof.
  unfold parse_timestamp.
  destruct (split colon (strip t)) as [|p0 [|p1 [|p2 [|p3 rest]]]]; try discriminate.
  - destruct (int p0); [|discriminate]. destruct (int p1); [|discriminate].
    simpl. intros H. now injection H as _ _ <-.
  - destruct (int p0); [|discriminate]. destruct (int p1); [|discriminate].
    destruct (int p2); [|discriminate].
    simpl. intros H. now injection H as _ _ <-.
Qed.

Lemma line_track_frames self line :
  Forall (fun t => frames t = 0%Z) (line_track self line).
Proof.
  unfold line_track. destruct (parse_timestamp_line self line) as [x|]; [|constructor].
  destruct (parse_timestamp self (x_timestamp x)) as [[[m s] f]|e] eqn:E; [|constructor].
  constructor; [|constructor]. simpl. exact (parse_timestamp_frames _ _ _ _ _ E).
Qed.

Lemma line_outcome_once self k line :
  length (line_track self line) + length (line_diagnostic self (k, line)) <= 1.
Proof.
  unfold line_track, line_diagnostic. simpl.
  destruct (parse_timestamp_line self line) as [x|]; [|simpl; lia].
  destruct (parse_timestamp self (x_timestamp x)) as [[[m s] f]|e]; simpl; lia.
Qed.

Lemma lines_outcome_count self lines : forall k,
  length (flat_map (line_track self) lines)
  + length (flat_map (line_diagnostic self) (enumerate k lines))
  <= length lines.
Proof.
  induction lines as [|line lines IH]; intros k; [simpl; lia|].
  cbn [enumerate flat_map length]. rewrite !length_app.
  pose proof (line_outcome_once self k line). pose proof (IH (S k)). lia.
Qed.

(** X2.  When the call returns normally on a readable file, the number
    returned is the number of tracks now held, it is at least 1, tracks and
    printed warnings together are at most the lines of the file, every
    track has frames 0, and the five metadata fields are untouched. *)
Theorem read_timestamps_file_counts
  (self self' : CueGenerator) (filepath : str) (fs : filesystem)
  (lines out : list str) (n : nat) :
  fs filepath = ReadLines lines ->
  read_timestamps_file self filepath fs = (Ok n, self', out) ->
  n = length (tracks self') /\ 1 <= n
  /\ n + length out <= length lines
  /\ Forall (fun t => frames t = 0%Z) (tracks self')
  /\ (album self', artist self', year self', genre self', audio_file self')
     = (album self, artist self, year self, genre self, audio_file self).
Proof.
  intros E H. unfold read_timestamps_file in H.
  rewrite (read_body_lines _ _ _ _ E) in H.
  pose proof (lines_outcome_count self lines 1) as Hcount.
  assert (Hfr : Forall (fun t => frames t = 0%Z) (flat_map (line_track self) lines)).
  { apply Forall_flat_map, Forall_forall. intros l _. apply line_track_frames. }
  destruct (flat_map (line_track self) lines) as [|t ts].
  - discriminate H.
  - injection H as <- <- <-.
    cbn [set_tracks tracks album artist year genre audio_file].
    repeat split; [simpl; lia|exact Hcount|exact Hfr].
Qed.

Lemma read_timestamps_file_counts_witness :
  2 = length (tracks (set_tracks init
        [mk_track (lit "Intro") 0 0 0; mk_track (lit "Two") 2 15 0]))
  /\ 2 + 1 <= 4.
Proof.
  pose proof (read_timestamps_file_counts init
    (set_tracks init [mk_track (lit "Intro") 0 0 0; mk_track (lit "Two") 2 15 0])
    (lit "t.txt")
    (fun _ => ReadLines [lit "0:00 Intro"; lit "junk"; lit "a: b 1:00"; lit "[2:15] Two"])
    [lit "0:00 Intro"; lit "junk"; lit "a: b 1:00"; lit "[2:15] Two"]
    [lit "Warning: Skipping line 3 - invalid literal for int() with base 10: 'a'"]
    2 eq_refl eq_refl) as H.
  split; [exact (proj1 H)|exact (proj1 (proj2 (proj2 H)))].
Defined.

(** ** Writing a number and reading it back *)

Lemma uint_chars_cons d :
  match d with
  | Decimal.Nil => uint_chars d = []
  | Decimal.D0 l => uint_chars d = "0"%char :: uint_chars l
  | Decimal.D1 l => uint_chars d = "1"%char :: uint_chars l
  | Decimal.D2 l => uint_chars d = "2"%char :: uint_chars l
  | Decimal.D3 l => uint_chars d = "3"%char :: uint_chars l
  | Decimal.D4 l => uint_chars d = "4"%char :: uint_chars l
  | Decimal.D5 l => uint_chars d = "5"%char :: uint_chars l
  | Decimal.D6 l => uint_chars d = "6"%char :: uint_chars l
  | Decimal.D7 l => uint_chars d = "7"%char :: uint_chars l
  | Decimal.D8 l => uint_chars d = "8"%char :: uint_chars l
  | Decimal.D9 l => uint_chars d = "9"%char :: uint_chars l
  end.
Proof. destruct d; reflexivity. Qed.

Lemma int_digits_uint d : forall acc,
  int_digits acc false (uint_chars d) = Some (uint_val d acc).
Proof.
  induction d as [|d IH|d IH|d IH|d IH|d IH|d IH|d IH|d IH|d IH|d IH];
    intros acc; [reflexivity|..];
    match goal with |- context [uint_chars ?x] =>
      rewrite (uint_chars_cons x) end;
    cbn [int_digits uint_val];
    match goal with |- context [is_digit ?c] =>
      change (is_digit c) with true end;
    cbv iota; rewrite IH; reflexivity.
Qed.

Lemma uint_chars_digits d : forallb is_digit (uint_chars d) = true.
Proof.
  induction d as [|d IH|d IH|d IH|d IH|d IH|d IH|d IH|d IH|d IH|d IH];
    [reflexivity|..];
    match goal with |- context [uint_chars ?x] =>
      rewrite (uint_chars_cons x) end;
    cbn [forallb]; rewrite IH; reflexivity.
Qed.

Lemma uint_val_pos d : forall p,
  uint_val d (Zpos p) = Zpos (Pos.of_uint_acc d p).
Proof.
  induction d as [|d IH|d IH|d IH|d IH|d IH|d IH|d IH|d IH|d IH|d IH];
    intros p; [reflexivity|..];
    cbn [uint_val Pos.of_uint_acc]; rewrite <- IH; f_equal;
    lia.
Qed.

Lemma uint_val_of_uint d : uint_val d 0 = Z.of_uint d.
Proof.
  unfold Z.of_uint.
  induction d as [|d IH|d IH|d IH|d IH|d IH|d IH|d IH|d IH|d IH|d IH];
    [reflexivity|exact IH|..];
    cbn [uint_val Pos.of_uint Z.of_N]; apply uint_val_pos.
Qed.

Lemma uint_chars_nonempty d : d <> Decimal.Nil -> uint_chars d <> [].
Proof. destruct d; [intros H; now elim H|..]; intros _; discriminate. Qed.

Lemma nilzero_chars d :
  d <> Decimal.Nil -> lit (NilZero.string_of_uint d) = uint_chars d.
Proof. destruct d; [intros H; now elim H|..]; reflexivity. Qed.

(** The decimal text of a number that is not negative: digits, at least
    one, that read back as the number. *)
Lemma str_of_nonneg a :
  (0 <= a)%Z ->
  forallb is_digit (str_of_Z a) = true /\ str_of_Z a <> []
  /\ int_digits 0 false (str_of_Z a) = Some a.
Proof.
  intros H. destruct a as [|p|p]; [repeat split; discriminate| |lia].
  unfold str_of_Z. cbn [Z.to_int NilZero.string_of_int].
  rewrite nilzero_chars by apply DecimalPos.Unsigned.to_uint_nonnil.
  split; [apply uint_chars_digits|]. split.
  - apply uint_chars_nonempty, DecimalPos.Unsigned.to_uint_nonnil.
  - rewrite int_digits_uint, uint_val_of_uint. f_equal.
    exact (DecimalZ.of_to (Zpos p)).
Qed.

Lemma digit_not_int_space a : is_digit a = true -> is_int_space a = false.
Proof. by_cases_on_char a. Qed.

Lemma digit_not_sign a :
  is_digit a = true -> chr_eqb a "-"%char = false /\ chr_eqb a "+"%char = false.
Proof. by_cases_on_char a; now split. Qed.

Lemma int_lskip_head a s : is_int_space a = false -> int_lskip (a :: s) = a :: s.
Proof. intros H. simpl. now rewrite H. Qed.

Lemma int_body_digits s :
  forallb is_digit s = true -> s <> [] -> int_body s = int_digits 0 false s.
Proof.
  destruct s as [|a s]; [intros _ H; now elim H|]. intros H _. simpl in *.
  apply andb_true_iff in H as [Ha _]. now rewrite Ha.
Qed.

Lemma int_span_digits s : forallb is_digit s = true -> int_span s = (s, []).
Proof.
  induction s as [|a s IH]; [reflexivity|]. cbn [forallb int_span]. intros H.
  apply andb_true_iff in H as [Ha Hs]. unfold is_int_chr.
  rewrite Ha, (IH Hs). reflexivity.
Qed.

Lemma filter_digits s : forallb is_digit s = true -> filter is_digit s = s.
Proof.
  induction s as [|a s IH]; [reflexivity|]. cbn [forallb filter]. intros H.
  apply andb_true_iff in H as [Ha Hs]. now rewrite Ha, (IH Hs).
Qed.

(** A run of digits, not longer than the limit, with nothing behind it. *)
Lemma int_unsigned_digits s :
  forallb is_digit s = true -> s <> [] -> length s <= int_max_str_digits ->
  int_unsigned s
  = match int_digits 0 false s with
    | Some v => IntValue v
    | None => IntInvalid
    end.
Proof.
  intros H Hs Hl. unfold int_unsigned.
  rewrite (int_span_digits s H), (int_body_digits s H Hs), (filter_digits s H).
  destruct (int_digits 0 false s) as [v|]; [|reflexivity].
  apply Nat.ltb_ge in Hl. rewrite Hl. reflexivity.
Qed.

Lemma int_literal_digits s :
  forallb is_digit s = true -> s <> [] -> length s <= int_max_str_digits ->
  int_literal s = int_digits 0 false s.
Proof.
  intros H Hs Hl. unfold int_literal, int_scan.
  destruct s as [|a s]; [now elim Hs|].
  assert (Ha : is_digit a = true) by (simpl in H; now apply andb_true_iff in H).
  rewrite int_lskip_head by now apply digit_not_int_space.
  destruct (digit_not_sign a Ha) as [-> ->].
  rewrite (int_unsigned_digits _ H Hs Hl).
  now destruct (int_digits 0 false (a :: s)).
Qed.

Lemma int_literal_minus_digits s :
  forallb is_digit s = true -> s <> [] -> length s <= int_max_str_digits ->
  int_literal ("-"%char :: s) = option_map Z.opp (int_digits 0 false s).
Proof.
  intros H Hs Hl. unfold int_literal, int_scan.
  rewrite int_lskip_head by reflexivity.
  change (chr_eqb "-"%char "-"%char) with true. cbv iota.
  rewrite (int_unsigned_digits _ H Hs Hl).
  now destruct (int_digits 0 false s).
Qed.

Lemma int_of_literal s z : int_literal s = Some z -> int s = Ok z.
Proof.
  unfold int_literal, int. destruct (int_scan s); [|discriminate..].
  intros H. injection H as <-. reflexivity.
Qed.

Lemma int_digits_zeros k s :
  int_digits 0 false (repeat "0"%char k ++ s) = int_digits 0 false s.
Proof. induction k as [|k IH]; [reflexivity|exact IH]. Qed.

Lemma zeros_digits k s :
  forallb is_digit s = true -> forallb is_digit (repeat "0"%char k ++ s) = true.
Proof. intros H. induction k as [|k IH]; [exact H|exact IH]. Qed.

(** A numeral read from the left is at least its start shifted by its
    length. *)
Lemma uint_val_lower d : forall acc,
  (0 <= acc)%Z ->
  (acc * 10 ^ Z.of_nat (Decimal.nb_digits d) <= uint_val d acc)%Z.
Proof.
  induction d as [|d IH|d IH|d IH|d IH|d IH|d IH|d IH|d IH|d IH|d IH];
    intros acc Hacc; cbn [uint_val Decimal.nb_digits];
    [rewrite Z.pow_0_r; lia|..];
    rewrite Nat2Z.inj_succ, Z.pow_succ_r by lia;
    (etransitivity; [|apply IH; lia]);
    pose proof (Z.pow_nonneg 10 (Z.of_nat (Decimal.nb_digits d))) as Hp;
    nia.
Qed.

Lemma uint_chars_length d : length (uint_chars d) = Decimal.nb_digits d.
Proof.
  induction d as [|d IH|d IH|d IH|d IH|d IH|d IH|d IH|d IH|d IH|d IH];
    [reflexivity|..];
    match goal with |- context [uint_chars ?x] =>
      rewrite (uint_chars_cons x) end;
    cbn [length Decimal.nb_digits]; now rewrite IH.
Qed.

(** The decimal numeral of a positive number does not begin with 0. *)
Lemma to_uint_head p d : Pos.to_uint p <> Decimal.D0 d.
Proof.
  intros E.
  pose proof (DecimalPos.Unsigned.to_of (Pos.to_uint p)) as H.
  rewrite DecimalPos.Unsigned.of_to in H. cbn [N.to_uint] in H.
  pose proof (DecimalPos.Unsigned.to_uint_nonzero p) as Hz.
  rewrite E in H, Hz. unfold Decimal.unorm in H. cbn [Decimal.nzhead] in H.
  pose proof (DecimalFacts.nb_digits_nzhead d) as Hl.
  destruct (Decimal.nzhead d) eqn:En;
    try (now elim Hz);
    rewrite <- H in Hl; cbn [Decimal.nb_digits] in Hl; lia.
Qed.

(** A number below [10 ^ n] has at most [n] digits. *)
Lemma str_of_Z_length a n :
  (0 <= a < 10 ^ Z.of_nat n)%Z -> 0 < n -> length (str_of_Z a) <= n.
Proof.
  intros [H0 Hn] Hpos. destruct a as [|p|p]; [simpl; lia| |lia].
  unfold str_of_Z. cbn [Z.to_int NilZero.string_of_int].
  rewrite nilzero_chars by apply DecimalPos.Unsigned.to_uint_nonnil.
  rewrite uint_chars_length.
  pose proof (uint_val_of_uint (Pos.to_uint p)) as Hv.
  pose proof (DecimalZ.of_to (Zpos p)) as Hof.
  cbn [Z.to_int Z.of_int] in Hof. rewrite Hof in Hv.
  pose proof (to_uint_head p) as Hh.
  pose proof (DecimalPos.Unsigned.to_uint_nonnil p) as Hnil.
  destruct (Pos.to_uint p) as [|d|d|d|d|d|d|d|d|d|d];
    [now elim Hnil|now elim (Hh d)|..];
    cbn [uint_val Decimal.nb_digits] in *;
    match type of Hv with
    | uint_val _ ?k = _ =>
        pose proof (uint_val_lower d k ltac:(lia)) as Hl
    end;
    rewrite Hv in Hl;
    assert (Hlt : (10 ^ Z.of_nat (Decimal.nb_digits d) < 10 ^ Z.of_nat n)%Z)
      by (pose proof (Z.pow_pos_nonneg 10 (Z.of_nat (Decimal.nb_digits d)));
          nia);
    apply Z.pow_lt_mono_r_iff in Hlt; lia.
Qed.

Lemma within_limit_length z :
  within_limit z = true -> length (str_of_Z (Z.abs z)) <= int_max_str_digits.
Proof.
  unfold within_limit, int_limit. intros H. apply Z.ltb_lt in H.
  apply str_of_Z_length; [|unfold int_max_str_digits; apply Nat.ltb_lt; reflexivity].
  split; [apply Z.abs_nonneg|exact H].
Qed.

Lemma pad_02d_digits_length d k :
  length d <= int_max_str_digits -> k <= 2 - length d ->
  length (repeat "0"%char k ++ d) <= int_max_str_digits.
Proof.
  intros Hd Hk. rewrite length_app, repeat_length.
  assert (H2 : 2 <= int_max_str_digits) by (apply Nat.leb_le; reflexivity).
  lia.
Qed.

Lemma int_literal_pad_02d z :
  within_limit z = true -> int_literal (pad_02d z) = Some z.
Proof.
  intros Hz. pose proof (within_limit_length z Hz) as Hl.
  unfold pad_02d. destruct (z <? 0)%Z eqn:E.
  - apply Z.ltb_lt in E.
    destruct (str_of_nonneg (Z.abs z)) as [Hd [Hn Hv]]; [lia|].
    change (lit "-" ++ ?x) with ("-"%char :: x).
    rewrite int_literal_minus_digits.
    + rewrite int_digits_zeros, Hv. simpl. f_equal. lia.
    + now apply zeros_digits.
    + destruct (repeat "0"%char _); [exact Hn|discriminate].
    + apply pad_02d_digits_length; [exact Hl|].
      cbn [lit list_ascii_of_string length]. lia.
  - apply Z.ltb_ge in E.
    destruct (str_of_nonneg (Z.abs z)) as [Hd [Hn Hv]]; [lia|].
    cbn [app]. rewrite int_literal_digits.
    + rewrite int_digits_zeros, Hv. f_equal. lia.
    + now apply zeros_digits.
    + destruct (repeat "0"%char _); [exact Hn|discriminate].
    + apply pad_02d_digits_length; [exact Hl|].
      cbn [lit list_ascii_of_string length]. lia.
Qed.

Lemma sign_or_digit_plain a :
  is_digit a = true \/ a = "-"%char -> plain a.
Proof.
  intros [H| ->]; [|now split].
  split; [now apply digit_not_space|exact (digit_not_colon a H)].
Qed.

Lemma pad_02d_plain z : Forall plain (pad_02d z).
Proof.
  unfold pad_02d.
  destruct (str_of_nonneg (Z.abs z)) as [Hd _]; [lia|].
  assert (Hds : Forall plain (str_of_Z (Z.abs z))).
  { apply Forall_forall. intros a Ha. apply sign_or_digit_plain. left.
    exact (proj1 (forallb_forall _ _) Hd a Ha). }
  apply Forall_app. split.
  - destruct (z <? 0)%Z; [|constructor].
    constructor; [now split|constructor].
  - apply Forall_app. split; [|exact Hds].
    apply Forall_forall. intros a Ha. apply repeat_spec in Ha. subst a. now split.
Qed.

Lemma digit_val_range a : is_digit a = true -> (0 <= digit_val a <= 9)%Z.
Proof.
  intros H.
  assert (E : ((0 <=? digit_val a) && (digit_val a <=? 9))%Z = true).
  { revert H. by_cases_on_char a. }
  apply andb_true_iff in E as [E1 E2]. apply Z.leb_le in E1, E2. lia.
Qed.

(** What [int_digits] returns lies below the start, plus one, shifted by
    the number of digits read. *)
Lemma int_digits_upper s : forall acc b v,
  (0 <= acc)%Z -> int_digits acc b s = Some v ->
  (0 <= v < (acc + 1) * 10 ^ Z.of_nat (length (filter is_digit s)))%Z.
Proof.
  induction s as [|a s IH]; intros acc b v Hacc H; cbn [int_digits] in H.
  - destruct b; [discriminate|]. injection H as <-. simpl. lia.
  - cbn [filter]. destruct (is_digit a) eqn:Ea.
    + pose proof (digit_val_range a Ea) as Hd.
      apply IH in H; [|lia]. cbn [length].
      rewrite Nat2Z.inj_succ, Z.pow_succ_r by lia.
      pose proof (Z.pow_pos_nonneg 10 (Z.of_nat (length (filter is_digit s)))).
      nia.
    + destruct (chr_eqb a "_"%char); [|discriminate].
      destruct b; [discriminate|]. now apply IH in H.
Qed.

Lemma int_body_upper s v :
  int_body s = Some v ->
  (0 <= v < 10 ^ Z.of_nat (length (filter is_digit s)))%Z.
Proof.
  destruct s as [|a s]; [discriminate|]. cbn [int_body filter].
  destruct (is_digit a) eqn:Ea; [|discriminate]. intros H.
  pose proof (digit_val_range a Ea) as Hd.
  apply int_digits_upper in H; [|lia]. cbn [length].
  rewrite Nat2Z.inj_succ, Z.pow_succ_r by lia.
  pose proof (Z.pow_pos_nonneg 10 (Z.of_nat (length (filter is_digit s)))).
  nia.
Qed.

Lemma int_unsigned_within s z :
  int_unsigned s = IntValue z -> (0 <= z < int_limit)%Z.
Proof.
  unfold int_unsigned. destruct (int_span s) as [run rest].
  destruct (int_body run) as [v|] eqn:Eb; [|discriminate].
  destruct (int_max_str_digits <? length (filter is_digit run)) eqn:El;
    [discriminate|].
  destruct (int_lskip rest); [|discriminate]. intros H. injection H as <-.
  apply int_body_upper in Eb. apply Nat.ltb_ge in El.
  assert (Hp : (10 ^ Z.of_nat (length (filter is_digit run)) <= int_limit)%Z).
  { unfold int_limit. apply Z.pow_le_mono_r; lia. }
  lia.
Qed.

(** Whatever [int] returns has at most [int_max_str_digits] digits, and so
    can be written again. *)
Lemma int_within_limit p z : int p = Ok z -> within_limit z = true.
Proof.
  unfold int, int_scan, within_limit. intros H. apply Z.ltb_lt.
  destruct (int_lskip p) as [|a t]; [discriminate|].
  destruct (chr_eqb a "-"%char).
  - destruct (int_unsigned t) as [v| |d] eqn:E; [|discriminate..].
    injection H as <-. apply int_unsigned_within in E. lia.
  - destruct (chr_eqb a "+"%char).
    + destruct (int_unsigned t) as [v| |d] eqn:E; [|discriminate..].
      injection H as <-. apply int_unsigned_within in E. lia.
    + destruct (int_unsigned (a :: t)) as [v| |d] eqn:E; [|discriminate..].
      injection H as <-. apply int_unsigned_within in E. lia.
Qed.

Lemma int_pad_02d z : within_limit z = true -> int (pad_02d z) = Ok z.
Proof. intros H. now apply int_of_literal, int_literal_pad_02d. Qed.

(** X3.  Times written in the format of the [INDEX] line read back: for
    all integers [m] and [s] of at most 4300 digits, the format [02d] gives
    their texts, these joined by a colon convert to [(m, s, 0)], and [int]
    of the text of [m] is [m].  An integer of more digits is not written:
    the format raises [ValueError].  Whatever [int] returns has at most
    4300 digits, so it can be written again. *)
Theorem written_time_reads_back (self : CueGenerator) (m s : Z) :
  (within_limit m = true -> within_limit s = true ->
   exists mm ss,
     fmt_02d m = Ok mm /\ fmt_02d s = Ok ss
     /\ parse_timestamp self (mm ++ lit ":" ++ ss) = Ok (m, s, 0%Z)
     /\ int mm = Ok m)
  /\ (within_limit m = false ->
      fmt_02d m = Raise limit_error /\ exn_cls limit_error = ValueError)
  /\ (forall p z, int p = Ok z -> exists t, fmt_02d z = Ok t /\ int t = Ok z).
Proof.
  split; [|split].
  - intros Hm Hs. exists (pad_02d m), (pad_02d s).
    split; [now apply fmt_02d_within|]. split; [now apply fmt_02d_within|].
    split; [|now apply int_pad_02d].
    change (lit ":" ++ pad_02d s) with (colon :: pad_02d s).
    rewrite parse_two_groups by apply pad_02d_plain.
    now rewrite !int_pad_02d.
  - intros Hm. unfold fmt_02d. rewrite Hm. now split.
  - intros p z H. apply int_within_limit in H. exists (pad_02d z).
    split; [now apply fmt_02d_within|now apply int_pad_02d].
Qed.

Lemma written_time_reads_back_witness :
  exists mm ss,
    fmt_02d 2 = Ok mm /\ fmt_02d 15 = Ok ss
    /\ parse_timestamp init (mm ++ lit ":" ++ ss) = Ok (2%Z, 15%Z, 0%Z)
    /\ int mm = Ok 2%Z.
Proof.
  apply (proj1 (written_time_reads_back init 2 15)); vm_compute; reflexivity.
Defined.

(** ** At the limit of the conversion *)

Lemma forallb_repeat {A} (f : A -> bool) a n :
  f a = true -> forallb f (repeat a n) = true.
Proof. intros H. induction n as [|n IH]; [reflexivity|]. simpl. now rewrite H. Qed.

Lemma int_digits_total s : forall acc,
  forallb is_digit s = true -> exists v, int_digits acc false s = Some v.
Proof.
  induction s as [|a s IH]; intros acc H; [now exists acc|].
  cbn [forallb] in H. apply andb_true_iff in H as [Ha Hs].
  cbn [int_digits]. rewrite Ha. now apply IH.
Qed.

(** More digits than the limit: [int] raises, and says how many. *)
Lemma int_too_long s :
  forallb is_digit s = true -> int_max_str_digits < length s ->
  int s = Raise (int_limit_error (length s)).
Proof.
  intros H Hl. destruct s as [|a s]; [now apply Nat.nlt_0_r in Hl|].
  assert (Ha : is_digit a = true)
    by (cbn [forallb] in H; now apply andb_true_iff in H).
  unfold int, int_scan. rewrite int_lskip_head by now apply digit_not_int_space.
  destruct (digit_not_sign a Ha) as [-> ->]. unfold int_unsigned.
  rewrite (int_span_digits _ H), (int_body_digits _ H) by discriminate.
  rewrite (filter_digits _ H).
  destruct (int_digits_total (a :: s) 0 H) as [v ->].
  apply Nat.ltb_lt in Hl. now rewrite Hl.
Qed.

Lemma int_digits_nines n : forall acc,
  int_digits acc false (repeat "9"%char n)
  = Some ((acc + 1) * 10 ^ Z.of_nat n - 1)%Z.
Proof.
  induction n as [|n IH]; intros acc; cbn [repeat int_digits].
  - rewrite Z.pow_0_r. f_equal. lia.
  - change (is_digit "9"%char) with true. cbv iota. rewrite IH.
    change (digit_val "9"%char) with 9%Z.
    rewrite Nat2Z.inj_succ, Z.pow_succ_r by lia. f_equal. ring.
Qed.

(** As many nines as the limit allows: the largest integer that [int]
    returns. *)
Lemma int_nines : int (repeat "9"%char int_max_str_digits) = Ok (int_limit - 1)%Z.
Proof.
  apply int_of_literal. rewrite int_literal_digits.
  - rewrite int_digits_nines. unfold int_limit.
    generalize (10 ^ Z.of_nat int_max_str_digits)%Z. intros x. f_equal. ring.
  - now apply forallb_repeat.
  - discriminate.
  - now rewrite repeat_length.
Qed.

Lemma int_limit_lower : (10 <= int_limit)%Z.
Proof.
  unfold int_limit. change 10%Z with (10 ^ 1)%Z at 1.
  apply Z.pow_le_mono_r; [lia|]. apply Z.leb_le. reflexivity.
Qed.

Lemma within_limit_beyond z :
  (int_limit <= Z.abs z)%Z -> within_limit z = false.
Proof. intros H. unfold within_limit. now apply Z.ltb_ge. Qed.

Lemma within_limit_below z :
  (Z.abs z < int_limit)%Z -> within_limit z = true.
Proof. intros H. unfold within_limit. now apply Z.ltb_lt. Qed.

Lemma tracks_within_limit_beyond ts : forall i t,
  In t ts -> track_within_limit t = false -> tracks_within_limit i ts = false.
Proof.
  induction ts as [|t0 ts IH]; intros i t Hin Ht; [contradiction|].
  cbn [tracks_within_limit]. destruct Hin as [->|Hin].
  - now rewrite Ht, andb_false_r.
  - rewrite (IH (S i) t Hin Ht). apply andb_false_r.
Qed.

(** A track with a number that cannot be written is not rendered. *)
Lemma track_beyond_limit self now_year t :
  In t (tracks self) -> track_within_limit t = false ->
  generate_cue_content self now_year = Raise limit_error.
Proof.
  intros Hin Ht. rewrite generate_cue_content_spec. unfold numbers_within_limit.
  rewrite (tracks_within_limit_beyond _ 1 t Hin Ht). now rewrite andb_false_r.
Qed.

Example int_ex_limit :
  int (repeat "9"%char 4300) = Ok (int_limit - 1)%Z
  /\ int (repeat "0"%char 4301) = Raise (int_limit_error 4301)
  /\ int (lit "+" ++ repeat "1"%char 4301 ++ lit "x")
     = Raise (int_limit_error 4301)
  /\ exn_msg (int_limit_error 4301)
     = lit "Exceeds the limit (4300 digits) for integer string conversion: value has 4301 digits; use sys.set_int_max_str_digits() to increase the limit".
Proof.
  split; [exact int_nines|]. split; [|split; vm_compute; reflexivity].
  rewrite int_too_long.
  - now rewrite repeat_length.
  - now apply forallb_repeat.
  - rewrite repeat_length. apply Nat.ltb_lt. reflexivity.
Qed.

Example fmt_ex_limit :
  fmt_02d int_limit = Raise limit_error
  /\ fmt_2d (- int_limit) = Raise limit_error
  /\ str_int int_limit = Raise limit_error
  /\ fmt_02d (int_limit - 1) = Ok (pad_02d (int_limit - 1))
  /\ fmt_02d (1 - int_limit) = Ok (pad_02d (1 - int_limit)).
Proof.
  pose proof int_limit_lower as H.
  unfold fmt_02d, fmt_2d, str_int.
  rewrite (within_limit_beyond int_limit), (within_limit_beyond (- int_limit)),
    (within_limit_below (int_limit - 1)), (within_limit_below (1 - int_limit))
    by lia.
  now repeat split.
Qed.

(** ** Failure of [parse_timestamp] *)

(** C5.  [parse_timestamp] raises exactly when the trimmed token does not
    split at its colons into 2 or 3 groups, or some group is one that [int]
    does not convert (it is not an integer literal, or it has more than 4300
    digits: [int_literal] gives no integer exactly when [int] raises); what
    it raises is always a [ValueError]; the tokens [""], ["abc"] and
    ["1:2:3:4"] all raise it, and so does a token whose first group has
    4301 digits. *)
Theorem parse_timestamp_failure (self : CueGenerator) (t : str) :
  let parts := split colon (strip t) in
  ((exists e, parse_timestamp self t = Raise e)
   <-> ((length parts <> 2 /\ length parts <> 3)
        \/ exists p, In p parts /\ int_literal p = None))
  /\ (forall e, parse_timestamp self t = Raise e -> exn_cls e = ValueError)
  /\ (exists e, parse_timestamp self (lit "") = Raise e)
  /\ (exists e, parse_timestamp self (lit "abc") = Raise e)
  /\ (exists e, parse_timestamp self (lit "1:2:3:4") = Raise e)
  /\ (forall p, int_literal p = None <-> exists e, int p = Raise e)
  /\ (exists e,
        parse_timestamp self ((lit "1" ++ repeat "0"%char 4300) ++ lit ":05")
        = Raise e).
Proof.
  cbv zeta. split; [apply parse_timestamp_groups|].
  split; [intros e; apply parse_timestamp_raises_value_error|].
  split; [eexists; reflexivity|]. split; [eexists; reflexivity|].
  split; [eexists; reflexivity|]. split.
  - intros p. unfold int, int_literal.
    destruct (int_scan p) as [z| |d]; split; try discriminate;
      try (intros _; eexists; reflexivity).
    intros [e He]. discriminate He.
  - eexists. change (lit ":05") with (colon :: lit "05").
    rewrite parse_two_groups.
    + rewrite int_too_long; [reflexivity| |].
      * change (lit "1" ++ ?x) with ("1"%char :: x). cbn [forallb].
        now rewrite forallb_repeat.
      * rewrite length_app, repeat_length. apply Nat.ltb_lt. reflexivity.
    + apply Forall_app. split; [repeat constructor|].
      apply Forall_forall. intros a Ha. apply repeat_spec in Ha. subst a.
      now split.
    + repeat constructor.
Qed.

(** ** Tracks that are not rendered *)

(** C8 as it is worded fails.  For the token [9...9:00:00] with 4300 nines
    [parse_timestamp] returns minutes of 4302 digits; a track list that
    holds a track with these minutes is not rendered:
    [generate_cue_content] raises [ValueError] instead of returning a
    text. *)
Lemma track_beyond_limit_not_rendered :
  let token := repeat "9"%char 4300 ++ lit ":00:00" in
  let track := mk_track (lit "Intro") ((int_limit - 1) * 60) 0 0 in
  let self :=
    mk_gen (lit "Album") (lit "Artist") [] [] (lit "a.wav") [track] in
  parse_timestamp init token = Ok (minutes track, seconds track, frames track)
  /\ nth_error (tracks self) 0 = Some track
  /\ frames track = 0%Z
  /\ generate_cue_content self 2024 = Raise limit_error
  /\ exn_cls limit_error = ValueError
  /\ ~ (exists content, generate_cue_content self 2024 = Ok content).
Proof.
  cbv zeta. pose proof int_limit_lower as Hl.
  assert (E : generate_cue_content
                (mk_gen (lit "Album") (lit "Artist") [] [] (lit "a.wav")
                   [mk_track (lit "Intro") ((int_limit - 1) * 60) 0 0]) 2024
              = Raise limit_error).
  { apply (track_beyond_limit _ _
             (mk_track (lit "Intro") ((int_limit - 1) * 60) 0 0));
      [now left|].
    unfold track_within_limit. cbn [minutes].
    rewrite (within_limit_beyond ((int_limit - 1) * 60)) by lia.
    reflexivity. }
  split.
  { change (lit ":00:00") with (colon :: lit "00" ++ colon :: lit "00").
    rewrite parse_three_groups.
    - change (repeat "9"%char 4300) with (repeat "9"%char int_max_str_digits).
      rewrite int_nines.
      change (int (lit "00")) with (@Ok Z 0%Z). reflexivity.
    - apply Forall_forall. intros a Ha. apply repeat_spec in Ha. subst a.
      now split.
    - repeat constructor.
    - repeat constructor. }
  split; [reflexivity|]. split; [reflexivity|]. split; [exact E|].
  split; [reflexivity|].
  intros [content H]. rewrite E in H. discriminate H.
Qed.

(** ** The anatomy of a match *)

Lemma take_upto_bound p g : forall u hi pos pos' u',
  In (pos', u') (take_upto p g hi pos u) ->
  exists t, u = t ++ u' /\ forallb p t = true /\ pos' = pos + length t
            /\ match hi with Some h => length t <= h | None => True end.
Proof.
  induction u as [|a u IH]; intros hi pos pos' u' H; simpl in H.
  - destruct H as [H|[]]. injection H as <- <-. exists []. simpl.
    repeat split; [lia|destruct hi; [lia|exact I]].
  - assert (Hhere : (pos, a :: u) = (pos', u') ->
              exists t, a :: u = t ++ u' /\ forallb p t = true
                        /\ pos' = pos + length t
                        /\ match hi with Some h => length t <= h | None => True end).
    { intros E. injection E as <- <-. exists []. simpl.
      repeat split; [lia|destruct hi; [lia|exact I]]. }
    assert (Hmore : In (pos', u') (take_upto p g (spend hi) (S pos) u) ->
              p a = true -> has_budget hi = true ->
              exists t, a :: u = t ++ u' /\ forallb p t = true
                        /\ pos' = pos + length t
                        /\ match hi with Some h => length t <= h | None => True end).
    { intros Hin Ha Hb. destruct (IH _ _ _ _ Hin) as [t [-> [Hp [-> Hh]]]].
      exists (a :: t). simpl. rewrite Ha, Hp. repeat split; [lia|].
      destruct hi as [[|h]|]; [discriminate|simpl in Hh; lia|exact I]. }
    destruct (p a && has_budget hi) eqn:E.
    + apply andb_true_iff in E as [Ha Hb]. destruct g.
      * apply in_app_iff in H as [H|[H|[]]]; auto.
      * destruct H as [H|H]; auto.
    + destruct H as [H|[]]. auto.
Qed.

Lemma exec_Rep_anatomy p lo hi g st st' :
  In st' (exec (Rep p lo hi g) st) ->
  exists t, m_rest st = t ++ m_rest st' /\ forallb p t = true
            /\ lo <= length t
            /\ match hi with Some h => length t <= lo + (h - lo) | None => True end
            /\ m_caps st' = m_caps st /\ m_pos st' = m_pos st + length t.
Proof.
  cbn [exec]. destruct (take_exact p lo (m_pos st) (m_rest st)) as [[pos u]|] eqn:E;
    [|contradiction].
  intros H. apply in_map_iff in H as [[pos' u'] [<- H]].
  apply take_exact_inv in E as [t1 [E1 [Hl [Hp1 ->]]]].
  apply take_upto_bound in H as [t2 [E2 [Hp2 [-> Hh]]]].
  exists (t1 ++ t2). simpl. rewrite E1, E2, forallb_app, Hp1, Hp2, length_app.
  repeat split; [now rewrite app_assoc|lia| |lia].
  destruct hi as [h|]; [simpl in Hh; lia|exact I].
Qed.

Lemma exec_Cls_anatomy p st st' :
  In st' (exec (Cls p) st) ->
  exists a, m_rest st = a :: m_rest st' /\ p a = true
            /\ m_caps st' = m_caps st /\ m_pos st' = S (m_pos st).
Proof.
  cbn [exec]. destruct (m_rest st) as [|a u]; [contradiction|].
  destruct (p a) eqn:Ha; [|contradiction].
  intros [<-|[]]. exists a. now repeat split.
Qed.

Lemma exec_Bol_anatomy st st' : In st' (exec Bol st) -> st' = st /\ m_pos st = 0.
Proof.
  cbn [exec]. destruct (m_pos st =? 0) eqn:E; [|contradiction].
  intros [<-|[]]. split; [reflexivity|now apply Nat.eqb_eq].
Qed.

Lemma exec_Eol_anatomy st st' :
  In st' (exec Eol st) -> st' = st /\ (m_rest st = [] \/ m_rest st = [newline]).
Proof.
  cbn [exec]. destruct (m_rest st) as [|a [|b u]].
  - intros [<-|[]]. now split; [|left].
  - destruct (chr_eqb a newline) eqn:E; [|contradiction].
    intros [<-|[]]. split; [reflexivity|right].
    f_equal. now apply Ascii.eqb_eq.
  - contradiction.
Qed.

(** Matching moves forward, and counts what it passes. *)
Lemma exec_advance r : forall st st',
  In st' (exec r st) ->
  exists t, m_rest st = t ++ m_rest st' /\ m_pos st' = m_pos st + length t.
Proof.
  induction r as [| |p|p lo hi g|r IH|n r IH|r1 IH1 r2 IH2]; intros st st' H.
  - apply exec_Bol_anatomy in H as [-> _]. exists []. simpl. split; [reflexivity|lia].
  - apply exec_Eol_anatomy in H as [-> _]. exists []. simpl. split; [reflexivity|lia].
  - apply exec_Cls_anatomy in H as [a [E [_ [_ Hp]]]]. exists [a]. simpl.
    split; [assumption|lia].
  - apply exec_Rep_anatomy in H as [t [E [_ [_ [_ [_ Hp]]]]]]. now exists t.
  - cbn [exec] in H. apply in_app_iff in H as [H|[<-|[]]]; [now apply IH|].
    exists []. simpl. split; [reflexivity|lia].
  - cbn [exec] in H. apply in_map_iff in H as [s [<- H]].
    unfold set_cap. cbn [m_rest m_pos]. now apply IH.
  - apply exec_Seq_in in H as [s [H1 H2]].
    destruct (IH1 _ _ H1) as [t1 [E1 P1]]. destruct (IH2 _ _ H2) as [t2 [E2 P2]].
    exists (t1 ++ t2). rewrite E1, E2, app_assoc, length_app. split; [reflexivity|lia].
Qed.

Lemma firstn_exact {A} (t r : list A) n : n = length t -> firstn n (t ++ r) = t.
Proof.
  intros ->. rewrite firstn_app, Nat.sub_diag, firstn_all. simpl. apply app_nil_r.
Qed.

(** A group records the text its pattern passed. *)
Lemma exec_Grp_anatomy n r st st' :
  In st' (exec (Grp n r) st) ->
  exists s t, In s (exec r st) /\ m_rest st = t ++ m_rest s
              /\ m_rest st' = m_rest s /\ m_pos st' = m_pos s
              /\ m_caps st' = (n, t) :: m_caps s.
Proof.
  cbn [exec]. intros H. apply in_map_iff in H as [s [<- H]].
  destruct (exec_advance _ _ _ H) as [t [E P]].
  exists s, t. unfold set_cap. cbn [m_rest m_pos m_caps]. repeat split; try assumption.
  rewrite E. f_equal. f_equal. apply firstn_exact. lia.
Qed.

Lemma two_digits_anatomy st st' :
  In st' (exec (Rep is_digit 2 (Some 2) true) st) ->
  exists d1 d2, m_rest st = d1 :: d2 :: m_rest st'
                /\ is_digit d1 = true /\ is_digit d2 = true
                /\ m_caps st' = m_caps st.
Proof.
  intros H. apply exec_Rep_anatomy in H as [t [E [P [L [U [C _]]]]]].
  destruct t as [|d1 [|d2 [|d3 t]]]; simpl in L, U; try lia.
  simpl in P. apply andb_true_iff in P as [P1 P2].
  apply andb_true_iff in P2 as [P2 _].
  exists d1, d2. now repeat split.
Qed.

Lemma leading_digits_anatomy st st' :
  In st' (exec (Rep is_digit 1 (Some 2) true) st) ->
  exists t, m_rest st = t ++ m_rest st' /\ forallb is_digit t = true
            /\ (length t = 1 \/ length t = 2) /\ m_caps st' = m_caps st.
Proof.
  intros H. apply exec_Rep_anatomy in H as [t [E [P [L [U [C _]]]]]].
  exists t. repeat split; try assumption. simpl in U. lia.
Qed.

Lemma is_token_two lead c s1 s2 :
  forallb is_digit lead = true -> length lead = 1 \/ length lead = 2 ->
  is_colon c = true -> is_digit s1 = true -> is_digit s2 = true ->
  is_token (lead ++ [c; s1; s2]) = true.
Proof.
  intros P L Pc P1 P2.
  destruct lead as [|a [|b [|x lead]]]; simpl in L; try lia; simpl in P |- *;
    repeat match goal with
           | H : _ && _ = true |- _ => apply andb_true_iff in H as [? ?]
           end;
    repeat match goal with H : _ = true |- _ => rewrite H; clear H end;
    reflexivity.
Qed.

Lemma is_token_three lead c m1 m2 c' s1 s2 :
  forallb is_digit lead = true -> length lead = 1 \/ length lead = 2 ->
  is_colon c = true -> is_digit m1 = true -> is_digit m2 = true ->
  is_colon c' = true -> is_digit s1 = true -> is_digit s2 = true ->
  is_token (lead ++ [c; m1; m2; c'; s1; s2]) = true.
Proof.
  intros P L Pc P1 P2 Pc' P3 P4.
  destruct lead as [|a [|b [|x lead]]]; simpl in L; try lia; simpl in P |- *;
    repeat match goal with
           | H : _ && _ = true |- _ => apply andb_true_iff in H as [? ?]
           end;
    repeat match goal with H : _ = true |- _ => rewrite H; clear H end;
    reflexivity.
Qed.

(** The timestamp pattern passes exactly a timestamp token. *)
Lemma timestamp_anatomy st st' :
  In st' (exec re_timestamp st) ->
  exists tok, m_rest st = tok ++ m_rest st' /\ is_token tok = true
              /\ m_caps st' = m_caps st.
Proof.
  unfold re_timestamp, chain. cbn [fold_right]. intros H.
  apply exec_Seq_in in H as [s1 [H1 H]].
  apply exec_Seq_in in H as [s2 [H2 H]].
  apply exec_Seq_in in H as [s3 [H3 H]].
  apply leading_digits_anatomy in H1 as [lead [E1 [P1 [L1 C1]]]].
  apply exec_Cls_anatomy in H2 as [c [E2 [Pc [C2 _]]]].
  apply two_digits_anatomy in H3 as [m1 [m2 [E3 [Pm1 [Pm2 C3]]]]].
  rewrite exec_Opt in H. apply in_app_iff in H as [H|[<-|[]]].
  - apply exec_Seq_in in H as [s4 [H4 H5]].
    apply exec_Cls_anatomy in H4 as [c' [E4 [Pc' [C4 _]]]].
    apply two_digits_anatomy in H5 as [n1 [n2 [E5 [Pn1 [Pn2 C5]]]]].
    exists (lead ++ [c; m1; m2; c'; n1; n2]). split; [|split].
    + rewrite E1, E2, E3, E4, E5, <- app_assoc. reflexivity.
    + now apply is_token_three.
    + congruence.
  - exists (lead ++ [c; m1; m2]). split; [|split].
    + rewrite E1, E2, E3, <- app_assoc. reflexivity.
    + now apply is_token_two.
    + congruence.
Qed.

Lemma optional_anatomy p st st' :
  In st' (exec (Rep p 0 (Some 1) true) st) ->
  exists o, m_rest st = o ++ m_rest st' /\ at_most_one p o = true
            /\ m_caps st' = m_caps st.
Proof.
  intros H. apply exec_Rep_anatomy in H as [t [E [P [_ [U [C _]]]]]].
  exists t. repeat split; try assumption.
  destruct t as [|a [|b t]]; simpl in U; try lia; [reflexivity|].
  simpl in P. now rewrite andb_true_r in P.
Qed.

Lemma group_timestamp_anatomy n st st' :
  In st' (exec (Grp n re_timestamp) st) ->
  exists tok, m_rest st = tok ++ m_rest st' /\ is_token tok = true
              /\ m_caps st' = (n, tok) :: m_caps st.
Proof.
  intros H. apply exec_Grp_anatomy in H as [s [t [H [E [R [_ C]]]]]].
  apply timestamp_anatomy in H as [tok [E' [T C']]].
  assert (t = tok) by (rewrite E in E'; now apply app_inv_tail in E').
  subst t. exists tok. rewrite R, C, C'. now repeat split.
Qed.

Lemma group_run_anatomy n p lo hi g st st' :
  In st' (exec (Grp n (Rep p lo hi g)) st) ->
  exists t, m_rest st = t ++ m_rest st' /\ forallb p t = true /\ lo <= length t
            /\ m_caps st' = (n, t) :: m_caps st.
Proof.
  intros H. apply exec_Grp_anatomy in H as [s [t [H [E [R [_ C]]]]]].
  apply exec_Rep_anatomy in H as [t' [E' [P [L [_ [C' _]]]]]].
  assert (t = t') by (rewrite E in E'; now apply app_inv_tail in E').
  subst t'. exists t. rewrite R, C, C'. now repeat split.
Qed.

(** A match of shape (a): bracket or nothing, token, bracket or nothing,
    white space, title, and the end of the text or its last line feed. *)
Lemma pattern_a_anatomy u m :
  re_match pattern_a u = Some m ->
  exists o tok c ws ttl e,
    u = o ++ tok ++ c ++ ws ++ ttl ++ e
    /\ at_most_one is_open o = true /\ is_token tok = true
    /\ at_most_one is_close c = true
    /\ ws <> [] /\ forallb is_space ws = true
    /\ ttl <> [] /\ forallb is_dot ttl = true
    /\ (e = [] \/ e = [newline])
    /\ m_caps m = [(2, ttl); (1, tok)].
Proof.
  intros H. apply hd_error_in in H. rewrite pattern_a_eq in H.
  unfold re_open, re_close, re_tail, chain in H. cbn [fold_right] in H.
  apply exec_Seq_in in H as [s0 [H0 H]]. apply exec_Bol_anatomy in H0 as [-> _].
  apply exec_Seq_in in H as [s1 [H1 H]].
  apply optional_anatomy in H1 as [o [E1 [Po C1]]].
  apply exec_Seq_in in H as [s2 [H2 H]].
  apply group_timestamp_anatomy in H2 as [tok [E2 [Pt C2]]].
  apply exec_Seq_in in H as [s3 [H3 H]].
  apply optional_anatomy in H3 as [c [E3 [Pc C3]]].
  apply exec_Seq_in in H as [s4 [H4 H]].
  apply exec_Rep_anatomy in H4 as [ws [E4 [Pw [Lw [_ [C4 _]]]]]].
  apply exec_Seq_in in H as [s5 [H5 H]].
  apply group_run_anatomy in H5 as [ttl [E5 [Pl [Ll C5]]]].
  apply exec_Eol_anatomy in H as [-> He].
  exists o, tok, c, ws, ttl, (m_rest s5). cbn [m_rest m_caps] in *.
  repeat split; try assumption.
  - now rewrite E1, E2, E3, E4, E5.
  - intros ->. simpl in Lw. lia.
  - intros ->. simpl in Ll. lia.
  - now rewrite C5, C4, C3, C2, C1.
Qed.

(** A match of shape (c): title, white space, bracket or nothing, token,
    bracket or nothing, and the end of the text or its last line feed. *)
Lemma pattern_c_anatomy u m :
  re_match pattern_c u = Some m ->
  exists ttl ws o tok c e,
    u = ttl ++ ws ++ o ++ tok ++ c ++ e
    /\ ttl <> [] /\ forallb is_dot ttl = true
    /\ ws <> [] /\ forallb is_space ws = true
    /\ at_most_one is_open o = true /\ is_token tok = true
    /\ at_most_one is_close c = true
    /\ (e = [] \/ e = [newline])
    /\ m_caps m = [(2, tok); (1, ttl)].
Proof.
  intros H. apply hd_error_in in H.
  unfold pattern_c, chain in H. cbn [fold_right] in H.
  apply exec_Seq_in in H as [s0 [H0 H]]. apply exec_Bol_anatomy in H0 as [-> _].
  apply exec_Seq_in in H as [s1 [H1 H]].
  apply group_run_anatomy in H1 as [ttl [E1 [Pl [Ll C1]]]].
  apply exec_Seq_in in H as [s2 [H2 H]].
  apply exec_Rep_anatomy in H2 as [ws [E2 [Pw [Lw [_ [C2 _]]]]]].
  apply exec_Seq_in in H as [s3 [H3 H]].
  apply optional_anatomy in H3 as [o [E3 [Po C3]]].
  apply exec_Seq_in in H as [s4 [H4 H]].
  apply group_timestamp_anatomy in H4 as [tok [E4 [Pt C4]]].
  apply exec_Seq_in in H as [s5 [H5 H]].
  apply optional_anatomy in H5 as [c [E5 [Pc C5]]].
  apply exec_Eol_anatomy in H as [-> He].
  exists ttl, ws, o, tok, c, (m_rest s5). cbn [m_rest m_caps] in *.
  repeat split; try assumption.
  - now rewrite E1, E2, E3, E4, E5.
  - intros ->. simpl in Ll. lia.
  - intros ->. simpl in Lw. lia.
  - now rewrite C5, C4, C3, C2, C1.
Qed.

(** ** Trimmed text *)

Lemma lstrip_split s :
  exists pre, s = pre ++ lstrip s /\ forallb is_space pre = true.
Proof.
  induction s as [|a s [pre [E P]]]; [now exists []|].
  simpl. destruct (is_space a) eqn:Ha; [|now exists []].
  exists (a :: pre). simpl. rewrite Ha, P. split; [now rewrite <- E|reflexivity].
Qed.

Lemma rstrip_split s :
  exists post, s = rstrip s ++ post /\ forallb is_space post = true.
Proof.
  unfold rstrip. destruct (lstrip_split (rev s)) as [pre [E P]].
  exists (rev pre). split; [|now apply forallb_rev].
  rewrite <- rev_app_distr, <- E. symmetry. apply rev_involutive.
Qed.

Lemma strip_split s :
  exists pre post, s = pre ++ strip s ++ post
                   /\ forallb is_space pre = true /\ forallb is_space post = true.
Proof.
  unfold strip. destruct (lstrip_split s) as [pre [E P]].
  destruct (rstrip_split (lstrip s)) as [post [E' P']].
  exists pre, post. repeat split; try assumption. now rewrite <- E'.
Qed.

Lemma lstrip_head_ok s : head_ok (lstrip s).
Proof.
  induction s as [|a s IH]; [exact I|]. simpl.
  destruct (is_space a) eqn:Ha; [exact IH|exact Ha].
Qed.

Lemma head_ok_lstrip s : head_ok s -> lstrip s = s.
Proof. destruct s as [|a s]; [reflexivity|]. simpl. now intros ->. Qed.

Lemma rstrip_last_ok s : last_ok (rstrip s).
Proof.
  unfold rstrip. intros w a E.
  apply (f_equal (@rev ascii)) in E. rewrite rev_involutive, rev_app_distr in E.
  simpl in E. pose proof (lstrip_head_ok (rev s)) as H. now rewrite E in H.
Qed.

Lemma rstrip_head_ok s : head_ok s -> head_ok (rstrip s).
Proof.
  intros H. destruct (rstrip_split s) as [post [E _]].
  destruct (rstrip s) as [|b r]; [exact I|]. rewrite E in H. exact H.
Qed.

Lemma strip_head_ok s : head_ok (strip s).
Proof. apply rstrip_head_ok, lstrip_head_ok. Qed.

Lemma strip_last_ok s : last_ok (strip s).
Proof. apply rstrip_last_ok. Qed.

Lemma lstrip_idem s : lstrip (lstrip s) = lstrip s.
Proof. apply head_ok_lstrip, lstrip_head_ok. Qed.

Lemma strip_idem s : strip (strip s) = strip s.
Proof.
  unfold strip at 1. rewrite (head_ok_lstrip _ (strip_head_ok s)).
  unfold strip, rstrip. now rewrite rev_involutive, lstrip_idem.
Qed.

Lemma forallb_In {A} (p : A -> bool) l x :
  forallb p l = true -> In x l -> p x = true.
Proof. intros H. exact (proj1 (forallb_forall _ _) H x). Qed.

(** Text with a character that is not white space does not trim to
    nothing. *)
Lemma strip_keeps s a : In a s -> is_space a = false -> strip s <> [].
Proof.
  intros Hin Ha E. destruct (strip_split s) as [pre [post [Es [P P']]]].
  rewrite E in Es. simpl in Es. rewrite Es in Hin.
  apply in_app_iff in Hin as [Hin|Hin].
  - rewrite (forallb_In _ _ _ P Hin) in Ha. discriminate.
  - rewrite (forallb_In _ _ _ P' Hin) in Ha. discriminate.
Qed.

(** Trimming keeps every character that is not white space. *)
Lemma strip_contains x s :
  is_space x = false -> contains_chr x (strip s) = contains_chr x s.
Proof.
  intros Hx. destruct (strip_split s) as [pre [post [Es [P P']]]].
  assert (Hno : forall l, forallb is_space l = true -> existsb (chr_eqb x) l = false).
  { intros l Hl. destruct (existsb (chr_eqb x) l) eqn:E; [|reflexivity].
    apply existsb_exists in E as [y [Hy Exy]].
    apply Ascii.eqb_eq in Exy. subst y.
    rewrite (forallb_In _ _ _ Hl Hy) in Hx. discriminate. }
  unfold contains_chr. rewrite Es at 2.
  rewrite !existsb_app, (Hno pre P), (Hno post P'). simpl. now rewrite orb_false_r.
Qed.

Lemma strip_forallb p s : forallb p s = true -> forallb p (strip s) = true.
Proof.
  intros H. destruct (strip_split s) as [pre [post [Es _]]].
  rewrite Es in H. rewrite !forallb_app in H.
  apply andb_true_iff in H as [_ H]. now apply andb_true_iff in H as [H _].
Qed.

Lemma no_newline_iff s :
  forallb is_dot s = true -> contains_chr newline s = false.
Proof.
  intros H. unfold contains_chr.
  destruct (existsb (chr_eqb newline) s) eqn:E; [|reflexivity].
  apply existsb_exists in E as [y [Hy Ey]].
  apply Ascii.eqb_eq in Ey. subst y.
  pose proof (forallb_In _ _ _ H Hy) as Hd. discriminate Hd.
Qed.

(** ** The line after trimming and removal of an ordinal marker *)

Lemma hd_error_flat_map {A B} (f : A -> list B) l y :
  hd_error (flat_map f l) = Some y -> exists x, In x l /\ hd_error (f x) = Some y.
Proof.
  induction l as [|x l IH]; [discriminate|]. cbn [flat_map].
  destruct (f x) as [|z zs] eqn:E.
  - intros H. destruct (IH H) as [x' [Hin Hx]]. exists x'. split; [now right|exact Hx].
  - intros H. exists x. split; [now left|]. now rewrite E.
Qed.

(** A greedy run stops first where the class stops. *)
Lemma take_upto_greedy_head p : forall u pos,
  exists t u', hd_error (take_upto p true None pos u) = Some (pos + length t, u')
               /\ u = t ++ u'
               /\ match u' with [] => True | a :: _ => p a = false end.
Proof.
  induction u as [|a u IH]; intros pos.
  - exists [], []. simpl. repeat split. f_equal. f_equal. lia.
  - cbn [take_upto has_budget spend option_map]. destruct (p a) eqn:Ha; cbn [andb].
    + destruct (IH (S pos)) as [t [u' [Hh [E Hu]]]].
      exists (a :: t), u'. split; [|split; [now rewrite E|exact Hu]].
      destruct (take_upto p true None (S pos) u) as [|x l]; [discriminate|].
      simpl in *. rewrite Hh. f_equal. f_equal. lia.
    + exists [], (a :: u). simpl. repeat split; [|exact Ha]. f_equal. f_equal. lia.
Qed.

Lemma ordinal_match_head_ok u m :
  match_at re_ordinal 0 u = Some m -> head_ok (m_rest m).
Proof.
  unfold match_at, re_ordinal, chain. cbn [fold_right]. intros H.
  rewrite exec_Seq in H. apply hd_error_flat_map in H as [s0 [_ H]].
  rewrite exec_Seq in H. apply hd_error_flat_map in H as [s1 [_ H]].
  rewrite exec_Seq in H. apply hd_error_flat_map in H as [s2 [_ H]].
  cbn [exec take_exact option_map] in H.
  destruct (take_upto_greedy_head is_space (m_rest s2) (m_pos s2))
    as [t [u' [Hh [_ Hu]]]].
  destruct (take_upto is_space true None (m_pos s2) (m_rest s2)) as [|x l];
    [discriminate|].
  simpl in Hh, H. injection Hh as ->. injection H as <-. exact Hu.
Qed.

Lemma re_sub_ordinal_cases u :
  re_sub_empty re_ordinal u = u
  \/ exists m, match_at re_ordinal 0 u = Some m
               /\ re_sub_empty re_ordinal u = m_rest m.
Proof.
  unfold re_sub_empty. destruct u as [|a u]; [now left|].
  cbn [sub_scan].
  destruct (match_at re_ordinal 0 (a :: u)) as [m|] eqn:E.
  - destruct (exec_advance _ _ _ (hd_error_in _ _ E)) as [t [Et Ep]].
    cbn [m_rest m_pos] in Et, Ep. rewrite Ep. simpl.
    destruct t as [|b t]; simpl.
    + left. now rewrite sub_scan_ordinal_later by lia.
    + right. exists m. split; [reflexivity|].
      rewrite sub_scan_ordinal_later by lia.
      injection Et as -> ->. clear. induction t as [|c t IH]; [reflexivity|exact IH].
  - left. now rewrite sub_scan_ordinal_later by lia.
Qed.

Lemma normalized_head_ok line :
  head_ok (re_sub_empty re_ordinal (strip line)).
Proof.
  destruct (re_sub_ordinal_cases (strip line)) as [->|[m [Hm ->]]].
  - apply strip_head_ok.
  - exact (ordinal_match_head_ok _ _ Hm).
Qed.

Lemma normalized_last_ok line :
  last_ok (re_sub_empty re_ordinal (strip line)).
Proof.
  destruct (re_sub_ordinal_suffix (strip line)) as [n E]. rewrite E.
  intros w a Ew. apply (strip_last_ok line (firstn n (strip line) ++ w) a).
  rewrite <- app_assoc, <- Ew. symmetry. apply firstn_skipn.
Qed.

(** ** Timestamp tokens *)

Lemma digit_or_colon_facts a :
  is_digit a || is_colon a = true -> is_space a = false /\ is_dot a = true.
Proof. by_cases_on_char a; now split. Qed.

Lemma digit_plain a : is_digit a = true -> plain a.
Proof. intros H. apply sign_or_digit_plain. now left. Qed.

Lemma int_one_digit a : is_digit a = true -> int [a] = Ok (digit_val a).
Proof.
  intros H. apply int_of_literal.
  rewrite int_literal_digits;
    [|simpl; now rewrite H|discriminate|apply Nat.leb_le; reflexivity].
  simpl. now rewrite H.
Qed.

Lemma int_two_digits a b :
  is_digit a = true -> is_digit b = true ->
  int [a; b] = Ok (10 * digit_val a + digit_val b)%Z.
Proof.
  intros Ha Hb. apply int_of_literal.
  rewrite int_literal_digits;
    [|simpl; now rewrite Ha, Hb|discriminate|apply Nat.leb_le; reflexivity].
  simpl. now rewrite Ha, Hb.
Qed.

Ltac split_ands :=
  repeat match goal with
         | H : _ && _ = true |- _ => apply andb_true_iff in H as [? ?]
         end.

Ltac colons_known :=
  repeat match goal with
         | H : is_colon ?c = true |- _ => apply is_colon_eq in H; subst c
         end.

(** A token is made of digits and colons and has a colon. *)
Lemma is_token_chars tok :
  is_token tok = true ->
  tok <> [] /\ forallb (fun a => is_digit a || is_colon a) tok = true
  /\ contains_chr colon tok = true.
Proof.
  intros H.
  destruct tok as [|a1 [|a2 [|a3 [|a4 [|a5 [|a6 [|a7 [|a8 [|a9 tok]]]]]]]]];
    try discriminate; simpl in H; split_ands;
    (split; [discriminate|]); split;
    try (simpl;
         repeat match goal with H : _ = true |- _ => rewrite H; clear H end;
         rewrite ?orb_true_r; reflexivity);
    colons_known; apply existsb_exists; exists colon;
    (split; [simpl; tauto|reflexivity]).
Qed.

Lemma is_token_strip tok : is_token tok = true -> strip tok = tok.
Proof.
  intros H. destruct (is_token_chars tok H) as [_ [P _]].
  apply strip_no_space, Forall_forall. intros a Ha.
  exact (proj1 (digit_or_colon_facts a (forallb_In _ _ _ P Ha))).
Qed.

Lemma is_token_no_newline tok : is_token tok = true -> forallb is_dot tok = true.
Proof.
  intros H. destruct (is_token_chars tok H) as [_ [P _]].
  apply forallb_forall. intros a Ha.
  exact (proj2 (digit_or_colon_facts a (forallb_In _ _ _ P Ha))).
Qed.

(** Every token converts, to minutes and seconds within the bounds that two
    digits per group allow. *)
Lemma is_token_converts self tok :
  is_token tok = true ->
  exists m s, parse_timestamp self tok = Ok (m, s, 0%Z)
              /\ (0 <= m <= 6039)%Z /\ (0 <= s <= 99)%Z.
Proof.
  intros H.
  destruct tok as [|a1 [|a2 [|a3 [|a4 [|a5 [|a6 [|a7 [|a8 [|a9 tok]]]]]]]]];
    try discriminate; simpl in H; split_ands; colons_known;
    repeat match goal with
           | H : is_digit ?a = true |- _ =>
               pose proof (digit_val_range a H); pose proof (digit_plain a H);
               revert H
           end; intros.
  - change [a1; colon; a3; a4] with ([a1] ++ colon :: [a3; a4]).
    rewrite parse_two_groups by (repeat (apply Forall_cons; [assumption|]); apply Forall_nil).
    rewrite int_one_digit, int_two_digits by assumption.
    do 2 eexists. split; [reflexivity|lia].
  - change [a1; a2; colon; a4; a5] with ([a1; a2] ++ colon :: [a4; a5]).
    rewrite parse_two_groups by (repeat (apply Forall_cons; [assumption|]); apply Forall_nil).
    rewrite !int_two_digits by assumption.
    do 2 eexists. split; [reflexivity|lia].
  - change [a1; colon; a3; a4; colon; a6; a7]
      with ([a1] ++ colon :: [a3; a4] ++ colon :: [a6; a7]).
    rewrite parse_three_groups by (repeat (apply Forall_cons; [assumption|]); apply Forall_nil).
    rewrite int_one_digit, !int_two_digits by assumption.
    do 2 eexists. split; [reflexivity|lia].
  - change [a1; a2; colon; a4; a5; colon; a7; a8]
      with ([a1; a2] ++ colon :: [a4; a5] ++ colon :: [a7; a8]).
    rewrite parse_three_groups by (repeat (apply Forall_cons; [assumption|]); apply Forall_nil).
    rewrite !int_two_digits by assumption.
    do 2 eexists. split; [reflexivity|lia].
Qed.

(** ** What the extractor returns *)

Lemma caps_groups m t1 t2 :
  m_caps m = [(2, t2); (1, t1)] -> group m 1 = Some t1 /\ group m 2 = Some t2.
Proof. unfold group. intros ->. now split. Qed.

(** Every result comes from a token and a title text that does not trim to
    nothing: as (token, title), or, in the suffix form with a colon in the
    title text, as (title, token). *)
Lemma extraction_classified self line x :
  parse_timestamp_line self line = Some x ->
  exists tok ttl,
    is_token tok = true /\ forallb is_dot ttl = true /\ strip ttl <> []
    /\ (x = mk_extraction tok (strip ttl)
        \/ (contains_chr colon ttl = true /\ x = mk_extraction (strip ttl) tok)).
Proof.
  unfold parse_timestamp_line.
  pose proof (normalized_head_ok line) as Hh.
  pose proof (normalized_last_ok line) as Hl.
  remember (re_sub_empty re_ordinal (strip line)) as v eqn:Ev. clear Ev.
  destruct (strip line) as [|c0 l0]; [discriminate|].
  unfold patterns. cbn [first_match].
  destruct (re_match pattern_a v) as [m|] eqn:Ea.
  - apply pattern_a_anatomy in Ea
      as [o [tok [c [ws [ttl [e [Ev [_ [Pt [_ [_ [_ [Nl [Pl [He Hc]]]]]]]]]]]]]]].
    destruct (caps_groups _ _ _ Hc) as [G1 G2].
    unfold extraction_of. rewrite G1, G2.
    rewrite (proj2 (proj2 (is_token_chars tok Pt))), (is_token_strip tok Pt).
    intros H. injection H as <-.
    exists tok, ttl. repeat split; try assumption; [|now left].
    destruct (exists_last Nl) as [w [a Ew]]. subst ttl.
    assert (Hv : exists w', v = w' ++ [a] \/ v = w' ++ [newline]).
    { destruct He as [->| ->].
      - exists (o ++ tok ++ c ++ ws ++ w). left. rewrite Ev.
        rewrite app_nil_r. now rewrite <- !app_assoc.
      - exists (o ++ tok ++ c ++ ws ++ w ++ [a]). right. rewrite Ev.
        now rewrite <- !app_assoc. }
    destruct Hv as [w' [Hv|Hv]].
    + apply (strip_keeps _ a); [apply in_app_iff; right; now left|].
      exact (Hl _ _ Hv).
    + discriminate (Hl _ _ Hv).
  - destruct (re_match pattern_b v) as [m|] eqn:Eb.
    { apply pattern_b_match_is_pattern_a_match in Eb. congruence. }
    destruct (re_match pattern_c v) as [m|] eqn:Ec; [|discriminate].
    apply pattern_c_anatomy in Ec
      as [ttl [ws [o [tok [c [e [Ev [Nl [Pl [_ [_ [_ [Pt [_ [_ Hc]]]]]]]]]]]]]]].
    destruct (caps_groups _ _ _ Hc) as [G1 G2].
    unfold extraction_of. rewrite G1, G2.
    assert (Hs : strip ttl <> []).
    { destruct ttl as [|a w]; [now elim Nl|]. rewrite Ev in Hh.
      apply (strip_keeps _ a); [now left|exact Hh]. }
    destruct (contains_chr colon ttl) eqn:Et; intros H; injection H as <-;
      exists tok, ttl; rewrite (is_token_strip tok Pt);
      repeat split; try assumption; [right; now split|now left].
Qed.

Lemma extraction_fields (self : CueGenerator) (line : str) (x : Extraction) :
  parse_timestamp_line self line = Some x ->
  x_timestamp x <> [] /\ x_title x <> []
  /\ strip (x_timestamp x) = x_timestamp x /\ strip (x_title x) = x_title x
  /\ contains_chr newline (x_timestamp x) = false
  /\ contains_chr newline (x_title x) = false
  /\ contains_chr colon (x_timestamp x) = true
  /\ (is_token (x_timestamp x) = true \/ is_token (x_title x) = true).
Proof.
  intros H.
  destruct (extraction_classified self line x H)
    as [tok [ttl [Pt [Pl [Ns [->|[Ct ->]]]]]]]; cbn [x_timestamp x_title];
    destruct (is_token_chars tok Pt) as [Nt [_ Cc]];
    pose proof (is_token_strip tok Pt) as St;
    pose proof (no_newline_iff _ (is_token_no_newline tok Pt)) as Nn;
    pose proof (no_newline_iff _ (strip_forallb _ _ Pl)) as Nn';
    pose proof (strip_idem ttl) as Si.
  - repeat split; try assumption. now left.
  - repeat split; try assumption; [|now right].
    now rewrite strip_contains.
Qed.

(** X4.  Whatever the extractor returns: neither field is empty, neither
    has white space at its ends or a line feed inside, the field returned
    as timestamp holds a colon, and one of the two fields is a timestamp
    token. *)
Theorem extraction_well_formed (self : CueGenerator) (line : str) (x : Extraction) :
  parse_timestamp_line self line = Some x ->
  x_timestamp x <> [] /\ x_title x <> []
  /\ strip (x_timestamp x) = x_timestamp x /\ strip (x_title x) = x_title x
  /\ contains_chr newline (x_timestamp x) = false
  /\ contains_chr newline (x_title x) = false
  /\ contains_chr colon (x_timestamp x) = true
  /\ (is_token (x_timestamp x) = true \/ is_token (x_title x) = true).
Proof. apply extraction_fields. Qed.

Lemma extraction_well_formed_witness :
  lit "Part 1: Intro" <> [] /\ is_token (lit "0:00") = true.
Proof.
  pose proof (extraction_well_formed init (lit "Part 1: Intro (0:00)")
                (mk_extraction (lit "Part 1: Intro") (lit "0:00")) eq_refl) as H.
  split; [exact (proj1 H)|].
  destruct (proj2 (proj2 (proj2 (proj2 (proj2 (proj2 (proj2 H))))))) as [E|E];
    [discriminate E|exact E].
Defined.

(** X5.  When the returned title holds no colon, the returned timestamp is
    a timestamp token and converts: to minutes in 0..6039 and seconds in
    0..99, frames 0; so the loader makes a track of the line and prints no
    warning for it. *)
Theorem extraction_without_colon_converts
  (self : CueGenerator) (line : str) (x : Extraction) :
  parse_timestamp_line self line = Some x ->
  contains_chr colon (x_title x) = false ->
  is_token (x_timestamp x) = true
  /\ exists m s,
       parse_timestamp self (x_timestamp x) = Ok (m, s, 0%Z)
       /\ (0 <= m <= 6039)%Z /\ (0 <= s <= 99)%Z
       /\ line_track self line = [mk_track (x_title x) m s 0]
       /\ forall k, line_diagnostic self (k, line) = [].
Proof.
  intros H Hc.
  destruct (extraction_classified self line x H)
    as [tok [ttl [Pt [Pl [Ns [->|[Ct ->]]]]]]]; cbn [x_timestamp x_title] in *.
  - split; [exact Pt|].
    destruct (is_token_converts self tok Pt) as [m [s [E [Hm Hs]]]].
    exists m, s. repeat split; try assumption; try lia.
    + unfold line_track. rewrite H. cbn [x_timestamp x_title]. now rewrite E.
    + intros k. unfold line_diagnostic. cbn [snd]. rewrite H.
      cbn [x_timestamp]. now rewrite E.
  - rewrite (proj2 (proj2 (is_token_chars tok Pt))) in Hc. discriminate Hc.
Qed.

Lemma extraction_without_colon_converts_witness :
  is_token (lit "4:30") = true.
Proof.
  exact (proj1 (extraction_without_colon_converts init (lit "Track Three (4:30)")
                  (mk_extraction (lit "4:30") (lit "Track Three")) eq_refl eq_refl)).
Defined.

(** ** The tracks a load leaves, and the lines of the rendered text *)

Lemma line_track_titles self line :
  Forall (fun t => title t <> [] /\ strip (title t) = title t
                   /\ contains_chr newline (title t) = false)
    (line_track self line).
Proof.
  unfold line_track.
  destruct (parse_timestamp_line self line) as [x|] eqn:E; [|constructor].
  destruct (parse_timestamp self (x_timestamp x)) as [[[m s] f]|e]; [|constructor].
  constructor; [|constructor]. cbn [title].
  destruct (extraction_fields self line x E) as [_ [N [_ [S [_ [L _]]]]]].
  now repeat split.
Qed.

Lemma loaded_titles
  (self self' : CueGenerator) (filepath : str) (fs : filesystem)
  (lines out : list str) (n : nat) :
  fs filepath = ReadLines lines ->
  read_timestamps_file self filepath fs = (Ok n, self', out) ->
  Forall (fun t => title t <> [] /\ strip (title t) = title t
                   /\ contains_chr newline (title t) = false)
    (tracks self').
Proof.
  intros E H. unfold read_timestamps_file in H.
  rewrite (read_body_lines _ _ _ _ E) in H.
  assert (Ht : Forall (fun t => title t <> [] /\ strip (title t) = title t
                                /\ contains_chr newline (title t) = false)
                 (flat_map (line_track self) lines)).
  { apply Forall_flat_map, Forall_forall. intros l _. apply line_track_titles. }
  destruct (flat_map (line_track self) lines) as [|t ts]; [discriminate H|].
  injection H as <- <- <-. exact Ht.
Qed.

(** X6.  After a normal return on a readable file every track held has a
    title that is not empty, has no white space at its ends and no line
    feed inside. *)
Theorem loaded_titles_well_formed
  (self self' : CueGenerator) (filepath : str) (fs : filesystem)
  (lines out : list str) (n : nat) :
  fs filepath = ReadLines lines ->
  read_timestamps_file self filepath fs = (Ok n, self', out) ->
  Forall (fun t => title t <> [] /\ strip (title t) = title t
                   /\ contains_chr newline (title t) = false)
    (tracks self').
Proof. apply loaded_titles. Qed.

Lemma loaded_titles_well_formed_witness :
  Forall (fun t => title t <> [] /\ strip (title t) = title t
                   /\ contains_chr newline (title t) = false)
    [mk_track (lit "Intro") 0 0 0; mk_track (lit "Two") 2 15 0].
Proof.
  exact (loaded_titles_well_formed init
    (set_tracks init [mk_track (lit "Intro") 0 0 0; mk_track (lit "Two") 2 15 0])
    (lit "t.txt")
    (fun _ => ReadLines [lit "0:00 Intro"; lit "junk"; lit "[2:15] Two"])
    [lit "0:00 Intro"; lit "junk"; lit "[2:15] Two"] [] 2 eq_refl eq_refl).
Defined.

Lemma split_join ls :
  ls <> [] -> Forall one_line ls -> split newline (join [newline] ls) = ls.
Proof.
  unfold split. induction ls as [|l ls IH]; intros N H; [now elim N|].
  inversion H as [|? ? Hl Hls]; subst.
  destruct ls as [|l' ls].
  - cbn [join]. now rewrite split_on_no_sep.
  - cbn [join]. change ([newline] ++ ?x) with (newline :: x).
    rewrite split_on_first by exact Hl. cbn [rev app]. f_equal.
    apply IH; [discriminate|exact Hls].
Qed.

Lemma one_line_app s t : one_line s -> one_line t -> one_line (s ++ t).
Proof. intros Hs Ht. apply Forall_app. now split. Qed.

Lemma one_line_quoted s : one_line s -> one_line (quoted s).
Proof.
  intros H. unfold quoted. constructor; [reflexivity|].
  apply one_line_app; [exact H|]. now constructor.
Qed.

Lemma plain_one_line s : Forall plain s -> one_line s.
Proof.
  apply Forall_impl. intros a [Hs _]. revert Hs. by_cases_on_char a.
Qed.

Lemma str_of_Z_plain z : Forall plain (str_of_Z z).
Proof.
  assert (Hd : forall d, Forall plain (uint_chars d)).
  { intros d. apply Forall_forall. intros a Ha. apply digit_plain.
    exact (forallb_In _ _ _ (uint_chars_digits d) Ha). }
  destruct z as [|p|p]; unfold str_of_Z; cbn [Z.to_int NilZero.string_of_int].
  - repeat constructor.
  - rewrite nilzero_chars by apply DecimalPos.Unsigned.to_uint_nonnil. apply Hd.
  - change (lit (String "-" ?x)) with ("-"%char :: lit x).
    rewrite nilzero_chars by apply DecimalPos.Unsigned.to_uint_nonnil.
    constructor; [now split|apply Hd].
Qed.

Ltac one_line_lit := vm_compute; repeat constructor.

Lemma block_text_one_line self i t :
  one_line (artist self) -> one_line (title t) ->
  Forall one_line (block_text self i t).
Proof.
  intros Ha Ht. unfold block_text.
  apply Forall_cons; [|apply Forall_cons; [|apply Forall_cons;
    [|apply Forall_cons; [|apply Forall_nil]]]].
  - apply one_line_app; [one_line_lit|]. apply one_line_app; [|one_line_lit].
    apply plain_one_line, pad_02d_plain.
  - apply one_line_app; [one_line_lit|]. now apply one_line_quoted.
  - apply one_line_app; [one_line_lit|]. now apply one_line_quoted.
  - apply one_line_app; [one_line_lit|].
    apply one_line_app; [apply plain_one_line, pad_02d_plain|].
    apply one_line_app; [one_line_lit|].
    apply one_line_app; [apply plain_one_line, pad_02d_plain|].
    apply one_line_app; [one_line_lit|apply plain_one_line, pad_02d_plain].
Qed.

Lemma blocks_one_line self ts : forall i,
  one_line (artist self) -> Forall (fun t => one_line (title t)) ts ->
  Forall one_line (flat_map (block_of self) (enumerate i ts)).
Proof.
  induction ts as [|t ts IH]; intros i Ha Ht; [constructor|].
  inversion Ht as [|? ? H1 H2]; subst. cbn [enumerate flat_map].
  apply Forall_app. split; [now apply block_text_one_line|now apply IH].
Qed.

Lemma rendered_lines (self : CueGenerator) (now_year : Z) :
  one_line (album self) -> one_line (artist self) -> one_line (year self) ->
  one_line (genre self) -> one_line (audio_file self) ->
  Forall (fun t => one_line (title t)) (tracks self) ->
  split newline (join [newline] (lines_text self now_year))
  = lines_text self now_year
  /\ length (lines_text self now_year) = 6 + 4 * length (tracks self).
Proof.
  intros Hal Har Hy Hg Hf Ht.
  assert (Hlines : Forall one_line (lines_text self now_year)).
  { unfold lines_text, header_text. cbn [app].
    apply Forall_cons; [|apply Forall_cons; [|apply Forall_cons;
      [|apply Forall_cons; [|apply Forall_cons; [|apply Forall_cons;
        [|now apply blocks_one_line]]]]]].
    - apply one_line_app; [one_line_lit|]. apply one_line_quoted.
      destruct (truthy (genre self)); [exact Hg|one_line_lit].
    - apply one_line_app; [one_line_lit|].
      destruct (truthy (year self));
        [exact Hy|apply plain_one_line, str_of_Z_plain].
    - one_line_lit.
    - apply one_line_app; [one_line_lit|]. now apply one_line_quoted.
    - apply one_line_app; [one_line_lit|]. now apply one_line_quoted.
    - apply one_line_app; [one_line_lit|]. apply one_line_app; [|one_line_lit].
      now apply one_line_quoted. }
  split.
  - apply split_join; [|exact Hlines]. unfold lines_text, header_text.
    discriminate.
  - unfold lines_text. rewrite length_app, blocks_length. simpl. lia.
Qed.

Lemma rendered_text_lines_parts (self : CueGenerator) (now_year : Z) :
  one_line (album self) -> one_line (artist self) -> one_line (year self) ->
  one_line (genre self) -> one_line (audio_file self) ->
  Forall (fun t => one_line (title t)) (tracks self) ->
  (numbers_within_limit self now_year = true ->
   exists text lines,
     generate_cue_content self now_year = Ok text
     /\ cue_lines self now_year = Ok lines
     /\ split newline text = lines
     /\ length lines = 6 + 4 * length (tracks self))
  /\ (numbers_within_limit self now_year = false ->
      generate_cue_content self now_year = Raise limit_error
      /\ exn_cls limit_error = ValueError).
Proof.
  intros Hal Har Hy Hg Hf Ht.
  destruct (rendered_lines self now_year Hal Har Hy Hg Hf Ht) as [E L].
  rewrite generate_cue_content_spec, cue_lines_spec. split; intros ->.
  - exists (join [newline] (lines_text self now_year)),
      (lines_text self now_year). now repeat split.
  - now split.
Qed.

(** X7.  When the metadata fields and the titles hold no line feed and
    every number that is written has at most 4300 digits, the method
    returns a text that splits at its line feeds into exactly the lines
    that were appended: 6 header lines and 4 lines per track; the text has
    no line feed at its end.  When some number has more digits, the method
    raises [ValueError] and returns no text. *)
Theorem rendered_text_lines (self : CueGenerator) (now_year : Z) :
  one_line (album self) -> one_line (artist self) -> one_line (year self) ->
  one_line (genre self) -> one_line (audio_file self) ->
  Forall (fun t => one_line (title t)) (tracks self) ->
  (numbers_within_limit self now_year = true ->
   exists text lines,
     generate_cue_content self now_year = Ok text
     /\ cue_lines self now_year = Ok lines
     /\ split newline text = lines
     /\ length lines = 6 + 4 * length (tracks self))
  /\ (numbers_within_limit self now_year = false ->
      generate_cue_content self now_year = Raise limit_error
      /\ exn_cls limit_error = ValueError).
Proof. apply rendered_text_lines_parts. Qed.

Lemma rendered_text_lines_witness :
  exists text lines,
    generate_cue_content
      (mk_gen (lit "Album") (lit "Artist") [] [] (lit "a.wav")
         [mk_track (lit "Intro") 0 0 0; mk_track (lit "Two") 2 15 0]) 2024
    = Ok text
    /\ cue_lines
         (mk_gen (lit "Album") (lit "Artist") [] [] (lit "a.wav")
            [mk_track (lit "Intro") 0 0 0; mk_track (lit "Two") 2 15 0]) 2024
       = Ok lines
    /\ split newline text = lines
    /\ length lines = 6 + 4 * 2.
Proof.
  refine (proj1 (rendered_text_lines
    (mk_gen (lit "Album") (lit "Artist") [] [] (lit "a.wav")
       [mk_track (lit "Intro") 0 0 0; mk_track (lit "Two") 2 15 0]) 2024
    _ _ _ _ _ _) eq_refl); vm_compute; repeat constructor.
Defined.

(** ** The first match *)

Lemma hd_Seq r1 r2 st s1 m :
  hd_error (exec r1 st) = Some s1 -> hd_error (exec r2 s1) = Some m ->
  hd_error (exec (Seq r1 r2) st) = Some m.
Proof.
  rewrite exec_Seq. destruct (exec r1 st) as [|x l]; [discriminate|].
  intros H. injection H as ->. cbn [flat_map].
  destruct (exec r2 s1) as [|y l']; [discriminate|]. trivial.
Qed.

Lemma take_exact_run p t : forall pos r,
  forallb p t = true -> take_exact p (length t) pos (t ++ r) = Some (pos + length t, r).
Proof.
  induction t as [|a t IH]; intros pos r H; simpl.
  - f_equal. f_equal. lia.
  - simpl in H. apply andb_true_iff in H as [Ha Ht]. rewrite Ha, IH by assumption.
    f_equal. f_equal. lia.
Qed.

Lemma take_upto_greedy_run p t : forall pos r,
  forallb p t = true ->
  match r with [] => True | a :: _ => p a = false end ->
  hd_error (take_upto p true None pos (t ++ r)) = Some (pos + length t, r).
Proof.
  induction t as [|a t IH]; intros pos r H Hr.
  - simpl. destruct r as [|b r]; simpl; [f_equal; f_equal; lia|].
    rewrite Hr. simpl. f_equal. f_equal. lia.
  - simpl in H. apply andb_true_iff in H as [Ha Ht].
    cbn [app take_upto has_budget spend option_map]. rewrite Ha. cbn [andb].
    specialize (IH (S pos) r Ht Hr).
    destruct (take_upto p true None (S pos) (t ++ r)) as [|x l]; [discriminate|].
    simpl in *. rewrite IH. f_equal. f_equal. lia.
Qed.

(** A greedy run first passes the whole stretch of the class. *)
Lemma greedy_head p lo st t r :
  m_rest st = t ++ r -> forallb p t = true -> lo <= length t ->
  match r with [] => True | a :: _ => p a = false end ->
  hd_error (exec (Rep p lo None true) st)
  = Some (move st (m_pos st + length t, r)).
Proof.
  intros E P L Hr. cbn [exec option_map].
  rewrite <- (firstn_skipn lo t) in E, P. rewrite <- app_assoc in E.
  rewrite forallb_app in P. apply andb_true_iff in P as [P1 P2].
  assert (Ll : length (firstn lo t) = lo) by (rewrite length_firstn; lia).
  rewrite E. rewrite <- Ll at 1. rewrite take_exact_run by assumption.
  pose proof (take_upto_greedy_run p (skipn lo t)
                (m_pos st + length (firstn lo t)) r P2 Hr) as H.
  destruct (take_upto p true None _ (skipn lo t ++ r)) as [|x l]; [discriminate|].
  simpl in *. injection H as ->. do 3 f_equal.
  rewrite <- (firstn_skipn lo t) at 3. rewrite length_app. lia.
Qed.

Lemma optional_taken p st a r :
  m_rest st = a :: r -> p a = true ->
  hd_error (exec (Rep p 0 (Some 1) true) st) = Some (move st (S (m_pos st), r)).
Proof. intros E H. now rewrite exec_optional_class, E, H. Qed.

Lemma optional_skipped p st :
  match m_rest st with [] => True | a :: _ => p a = false end ->
  hd_error (exec (Rep p 0 (Some 1) true) st) = Some st.
Proof.
  intros H. rewrite exec_optional_class. destruct (m_rest st) as [|a r]; [reflexivity|].
  now rewrite H.
Qed.

Lemma exec_two_digits st a b r :
  m_rest st = a :: b :: r -> is_digit a = true -> is_digit b = true ->
  exec (Rep is_digit 2 (Some 2) true) st = [move st (S (S (m_pos st)), r)].
Proof. intros E Ha Hb. rewrite exec_exact, E. simpl. now rewrite Ha, Hb. Qed.

Lemma exec_colon_then r st u :
  m_rest st = colon :: u ->
  exec (Seq (Cls is_colon) r) st = exec r (move st (S (m_pos st), u)).
Proof. intros E. now rewrite exec_Cls_then, E. Qed.

Lemma exec_colon_absent r st :
  no_colon_next (m_rest st) -> exec (Seq (Cls is_colon) r) st = [].
Proof.
  intros H. rewrite exec_Cls_then. destruct (m_rest st) as [|a u]; [reflexivity|].
  simpl in H. now rewrite H.
Qed.

(** The seconds, and a third group where one follows. *)
Lemma seconds_head st a b r :
  m_rest st = a :: b :: r -> is_digit a = true -> is_digit b = true ->
  no_colon_next r ->
  exec (Seq (Rep is_digit 2 (Some 2) true)
          (Opt (Seq (Cls is_colon) (Rep is_digit 2 (Some 2) true)))) st
  = [move st (S (S (m_pos st)), r)].
Proof.
  intros E Ha Hb Hr. rewrite exec_Seq, (exec_two_digits st a b r E Ha Hb).
  cbn [flat_map]. rewrite exec_Opt, exec_colon_absent by exact Hr. reflexivity.
Qed.

Lemma seconds_third_head st a b c d r :
  m_rest st = a :: b :: colon :: c :: d :: r ->
  is_digit a = true -> is_digit b = true -> is_digit c = true -> is_digit d = true ->
  hd_error
    (exec (Seq (Rep is_digit 2 (Some 2) true)
             (Opt (Seq (Cls is_colon) (Rep is_digit 2 (Some 2) true)))) st)
  = Some (move st (5 + m_pos st, r)).
Proof.
  intros E Ha Hb Hc Hd.
  rewrite exec_Seq, (exec_two_digits st a b _ E Ha Hb).
  cbn [flat_map]. rewrite exec_Opt.
  rewrite (exec_colon_then _ _ (c :: d :: r)) by reflexivity.
  rewrite (exec_two_digits _ c d r) by (reflexivity || assumption).
  reflexivity.
Qed.

(** Where a token stands and no colon follows it, the timestamp pattern
    passes the token first. *)
Lemma timestamp_head st tok r :
  m_rest st = tok ++ r -> is_token tok = true -> no_colon_next r ->
  hd_error (exec re_timestamp st) = Some (move st (m_pos st + length tok, r)).
Proof.
  intros E H Hr. destruct st as [pos u caps]. cbn [m_rest m_pos] in *. subst u.
  unfold re_timestamp, chain. cbn [fold_right].
  destruct tok as [|a1 [|a2 [|a3 [|a4 [|a5 [|a6 [|a7 [|a8 [|a9 tok]]]]]]]]];
    try discriminate; simpl in H; split_ands; colons_known;
    rewrite exec_Seq, exec_one_or_two; cbn [m_rest app m_pos];
    repeat match goal with H : is_digit ?a = true |- context [is_digit ?a] =>
             rewrite H end;
    try change (is_digit colon) with false; cbv iota; cbn [flat_map].
  - rewrite (exec_colon_then _ _ (a3 :: a4 :: r)) by reflexivity.
    rewrite (seconds_head _ a3 a4 r) by (reflexivity || assumption).
    cbn. unfold move; cbn [fst snd m_caps]. do 2 f_equal. lia.
  - rewrite (exec_colon_then _ _ (a4 :: a5 :: r)) by reflexivity.
    rewrite (seconds_head _ a4 a5 r) by (reflexivity || assumption).
    cbn. unfold move; cbn [fst snd m_caps]. do 2 f_equal. lia.
  - rewrite (exec_colon_then _ _ (a3 :: a4 :: colon :: a6 :: a7 :: r)) by reflexivity.
    rewrite app_nil_r.
    rewrite (seconds_third_head _ a3 a4 a6 a7 r) by (reflexivity || assumption).
    cbn. unfold move; cbn [fst snd m_caps]. do 2 f_equal. lia.
  - rewrite (exec_colon_then _ _ (a4 :: a5 :: colon :: a7 :: a8 :: r)) by reflexivity.
    match goal with |- hd_error (?x ++ _) = _ =>
      assert (Hx : hd_error x = Some (move (mk_mstate pos (a1 :: a2 :: colon :: a4 :: a5 :: colon :: a7 :: a8 :: r) caps) (pos + 8, r)));
      [|destruct x; [discriminate Hx|exact Hx]] end.
    rewrite (seconds_third_head _ a4 a5 a7 a8 r) by (reflexivity || assumption).
    cbn. unfold move; cbn [fst snd m_caps]. do 2 f_equal. lia.
Qed.

Lemma hd_error_map {A B} (f : A -> B) l :
  hd_error (map f l) = option_map f (hd_error l).
Proof. now destruct l. Qed.

Lemma tail_head st ws ttl :
  m_rest st = ws ++ ttl ->
  1 <= length ws -> forallb is_space ws = true ->
  1 <= length ttl -> forallb is_dot ttl = true -> head_ok ttl ->
  hd_error (exec re_tail st)
  = Some (mk_mstate (m_pos st + length ws + length ttl) []
            ((2, ttl) :: m_caps st)).
Proof.
  intros E Lw Pw Ll Pl Hh. unfold re_tail, chain. cbn [fold_right].
  apply (hd_Seq _ _ _ (move st (m_pos st + length ws, ttl))).
  { apply greedy_head; assumption. }
  apply (hd_Seq _ _ _ (mk_mstate (m_pos st + length ws + length ttl) []
                         ((2, ttl) :: m_caps st))); [|reflexivity].
  rewrite exec_Grp, hd_error_map.
  rewrite (greedy_head is_dot 1 _ ttl []).
  - unfold set_cap, move. cbn [option_map fst snd m_pos m_rest m_caps].
    do 3 f_equal.
    replace (m_pos st + length ws + length ttl - (m_pos st + length ws))
      with (length ttl) by lia.
    now rewrite firstn_all.
  - cbn [move m_rest snd]. now rewrite app_nil_r.
  - exact Pl.
  - exact Ll.
  - exact I.
Qed.

Lemma is_token_first tok :
  is_token tok = true -> exists a t, tok = a :: t /\ is_digit a = true.
Proof.
  intros H.
  destruct tok as [|a1 [|a2 [|a3 [|a4 [|a5 [|a6 [|a7 [|a8 [|a9 tok]]]]]]]]];
    try discriminate; simpl in H; split_ands; eauto.
Qed.

Lemma at_most_one_inv p o :
  at_most_one p o = true -> o = [] \/ exists b, o = [b] /\ p b = true.
Proof.
  destruct o as [|b [|c o]]; [now left| |discriminate].
  intros H. right. now exists b.
Qed.

Lemma space_not_colon a : is_space a = true -> is_colon a = false.
Proof. by_cases_on_char a. Qed.

Lemma close_not_colon a : is_close a = true -> is_colon a = false.
Proof. by_cases_on_char a. Qed.

Lemma open_not_space a : is_open a = true -> is_space a = false.
Proof. by_cases_on_char a. Qed.

Lemma open_not_digit a : is_open a = true -> is_digit a = false.
Proof. by_cases_on_char a. Qed.

(** Shape (a) on a text made of its parts: the first match has the token
    as group 1 and the title as group 2. *)
Lemma pattern_a_head o tok c ws ttl :
  at_most_one is_open o = true -> is_token tok = true ->
  at_most_one is_close c = true ->
  1 <= length ws -> forallb is_space ws = true ->
  1 <= length ttl -> forallb is_dot ttl = true -> head_ok ttl ->
  exists m, re_match pattern_a (o ++ tok ++ c ++ ws ++ ttl) = Some m
            /\ m_caps m = [(2, ttl); (1, tok)].
Proof.
  intros Ho Ht Hc Lw Pw Ll Pl Hh.
  destruct (is_token_first tok Ht) as [a [t [Etok Ha]]].
  destruct ws as [|w ws']; [simpl in Lw; lia|].
  assert (Hw : is_space w = true) by (simpl in Pw; now apply andb_true_iff in Pw).
  exists (mk_mstate (length o + length tok + length c + length (w :: ws')
                       + length ttl) [] [(2, ttl); (1, tok)]).
  split; [|reflexivity].
  unfold re_match, match_at. rewrite pattern_a_eq.
  set (u := o ++ tok ++ c ++ (w :: ws') ++ ttl).
  apply (hd_Seq _ _ _ (mk_mstate 0 u [])); [reflexivity|].
  apply (hd_Seq _ _ _ (mk_mstate (length o) (tok ++ c ++ (w :: ws') ++ ttl) [])).
  { unfold re_open. destruct (at_most_one_inv _ _ Ho) as [->|[b [-> Hb]]].
    - apply optional_skipped. unfold u. cbn [m_rest app]. rewrite Etok. cbn [app].
      destruct (is_open a) eqn:E; [|reflexivity].
      rewrite (open_not_digit a E) in Ha. discriminate.
    - exact (optional_taken is_open (mk_mstate 0 u []) b _ eq_refl Hb). }
  apply (hd_Seq _ _ _ (mk_mstate (length o + length tok) (c ++ (w :: ws') ++ ttl)
                         [(1, tok)])).
  { rewrite exec_Grp, hd_error_map.
    rewrite (timestamp_head _ tok (c ++ (w :: ws') ++ ttl)); [|reflexivity|exact Ht|].
    - unfold set_cap, move. cbn [option_map fst snd m_pos m_rest m_caps].
      replace (length o + length tok - length o) with (length tok) by lia.
      now rewrite firstn_exact.
    - destruct (at_most_one_inv _ _ Hc) as [->|[b [-> Hb]]]; cbn [app no_colon_next].
      + now apply space_not_colon.
      + now apply close_not_colon. }
  apply (hd_Seq _ _ _ (mk_mstate (length o + length tok + length c)
                         ((w :: ws') ++ ttl) [(1, tok)])).
  { unfold re_close. destruct (at_most_one_inv _ _ Hc) as [->|[b [-> Hb]]].
    - rewrite optional_skipped.
      + cbn [app length]. do 2 f_equal. lia.
      + cbn [m_rest app]. now apply space_not_close.
    - rewrite (optional_taken is_close _ b ((w :: ws') ++ ttl)) by (reflexivity || assumption).
      unfold move. cbn [fst snd m_pos m_caps length]. do 2 f_equal. lia. }
  rewrite (tail_head _ (w :: ws') ttl) by (reflexivity || assumption).
  reflexivity.
Qed.

Lemma last_ok_head_rev s : last_ok s -> head_ok (rev s).
Proof.
  intros H. destruct (rev s) as [|a l] eqn:E; [exact I|].
  apply (H (rev l) a). rewrite <- (rev_involutive s), E. reflexivity.
Qed.

Lemma strip_fixed s : head_ok s -> last_ok s -> strip s = s.
Proof.
  intros Hh Hl. unfold strip, rstrip. rewrite (head_ok_lstrip s Hh).
  rewrite (head_ok_lstrip _ (last_ok_head_rev s Hl)). apply rev_involutive.
Qed.

Lemma fixed_head_ok s : strip s = s -> head_ok s.
Proof. intros <-. apply strip_head_ok. Qed.

Lemma fixed_last_ok s : strip s = s -> last_ok s.
Proof. intros <-. apply strip_last_ok. Qed.

Lemma last_ok_app x s : s <> [] -> last_ok s -> last_ok (x ++ s).
Proof.
  intros N H w a E. destruct (exists_last N) as [s' [b Es]]. subst s.
  rewrite app_assoc in E. apply app_inj_tail in E as [_ <-].
  exact (H s' b eq_refl).
Qed.

Lemma nonempty_length {A} (l : list A) : 1 <= length l -> l <> [].
Proof. destruct l; simpl; [lia|discriminate]. Qed.

(** ** Ordinal markers *)

Lemma skip_digits_run ds d r :
  forallb is_digit ds = true -> is_digit d = false ->
  skip_digits (ds ++ d :: r) = d :: r.
Proof.
  intros H Hd. induction ds as [|a ds IH]; simpl.
  - now rewrite Hd.
  - simpl in H. apply andb_true_iff in H as [Ha Hs]. rewrite Ha. now apply IH.
Qed.

Lemma dot_not_digit a : is_dotchr a = true -> is_digit a = false.
Proof. by_cases_on_char a. Qed.

Lemma colon_not_dot a : is_colon a = true -> is_dotchr a = false.
Proof. by_cases_on_char a. Qed.

(** The ordinal pattern matches only a text that begins with a marker. *)
Lemma ordinal_match_marker u m :
  match_at re_ordinal 0 u = Some m -> has_ordinal_marker u = true.
Proof.
  intros H. apply hd_error_in in H. unfold re_ordinal, chain in H.
  cbn [fold_right] in H.
  apply exec_Seq_in in H as [s0 [H0 H]]. apply exec_Bol_anatomy in H0 as [-> _].
  apply exec_Seq_in in H as [s1 [H1 H]].
  apply exec_Rep_anatomy in H1 as [ds [E1 [P1 [L1 _]]]].
  apply exec_Seq_in in H as [s2 [H2 _]].
  apply exec_Cls_anatomy in H2 as [d [E2 [Pd _]]].
  cbn [m_rest] in E1. rewrite E1, E2. unfold has_ordinal_marker.
  rewrite (skip_digits_run ds d _ P1 (dot_not_digit d Pd)), Pd.
  destruct ds as [|a ds]; [simpl in L1; lia|].
  simpl in P1. apply andb_true_iff in P1 as [Pa _]. cbn [app]. now rewrite Pa.
Qed.

Lemma re_sub_ordinal_match u m :
  match_at re_ordinal 0 u = Some m -> re_sub_empty re_ordinal u = m_rest m.
Proof.
  intros E. unfold re_sub_empty.
  destruct (exec_advance _ _ _ (hd_error_in _ _ E)) as [t [Et Ep]].
  cbn [m_rest m_pos] in Et, Ep.
  destruct u as [|a u].
  - destruct t; [exact Et|discriminate].
  - cbn [sub_scan]. rewrite E, Ep. simpl.
    destruct t as [|b t]; simpl.
    + rewrite sub_scan_ordinal_later by lia. exact Et.
    + rewrite sub_scan_ordinal_later by lia.
      injection Et as -> ->. clear. induction t as [|c t IH]; [reflexivity|exact IH].
Qed.

Lemma re_sub_ordinal_no_marker u :
  has_ordinal_marker u = false -> re_sub_empty re_ordinal u = u.
Proof.
  intros H. destruct (re_sub_ordinal_cases u) as [E|[m [Hm _]]]; [exact E|].
  rewrite (ordinal_match_marker u m Hm) in H. discriminate.
Qed.

Lemma token_no_marker tok r :
  is_token tok = true -> has_ordinal_marker (tok ++ r) = false.
Proof.
  intros H.
  destruct tok as [|a1 [|a2 [|a3 [|a4 [|a5 [|a6 [|a7 [|a8 [|a9 tok]]]]]]]]];
    try discriminate; simpl in H; split_ands; colons_known;
    unfold has_ordinal_marker; cbn [app skip_digits];
    repeat match goal with H : is_digit ?a = true |- context [is_digit ?a] =>
             rewrite H end;
    reflexivity.
Qed.

(** X8.  The prefix form is extracted as written: an optional opening
    bracket or parenthesis, a timestamp token, an optional closing bracket or
    parenthesis (the two need not pair up), white space, and a title that
    is trimmed, not empty and without line feed, give the token and the
    title. *)
Theorem prefix_form_extracted
  (self : CueGenerator) (o tok c ws ttl : str) :
  at_most_one is_open o = true -> is_token tok = true ->
  at_most_one is_close c = true ->
  1 <= length ws -> forallb is_space ws = true ->
  1 <= length ttl -> forallb is_dot ttl = true -> strip ttl = ttl ->
  parse_timestamp_line self (o ++ tok ++ c ++ ws ++ ttl)
  = Some (mk_extraction tok ttl).
Proof.
  intros Ho Ht Hc Lw Pw Ll Pl St.
  pose proof (fixed_head_ok ttl St) as Hh.
  pose proof (fixed_last_ok ttl St) as Hl.
  destruct (is_token_first tok Ht) as [a [t [Etok Ha]]].
  set (line := o ++ tok ++ c ++ ws ++ ttl).
  assert (Hline : strip line = line).
  { apply strip_fixed.
    - unfold line. destruct (at_most_one_inv _ _ Ho) as [->|[b [-> Hb]]].
      + rewrite Etok. simpl. now apply digit_not_space.
      + simpl. now apply open_not_space.
    - unfold line. rewrite !app_assoc.
      apply last_ok_app; [now apply nonempty_length|exact Hl]. }
  assert (Hsub : re_sub_empty re_ordinal line = line).
  { apply re_sub_ordinal_no_marker. unfold line.
    destruct (at_most_one_inv _ _ Ho) as [->|[b [-> Hb]]].
    - cbn [app]. now apply token_no_marker.
    - simpl. now rewrite (open_not_digit b Hb). }
  unfold parse_timestamp_line. rewrite Hline, Hsub.
  destruct (pattern_a_head o tok c ws ttl Ho Ht Hc Lw Pw Ll Pl Hh) as [m [Hm Hcaps]].
  fold line in Hm.
  destruct line as [|x l] eqn:El.
  { apply (f_equal (@length ascii)) in El. unfold line in El.
    rewrite !length_app in El. simpl in El. lia. }
  unfold patterns. cbn [first_match]. rewrite Hm.
  destruct (caps_groups _ _ _ Hcaps) as [G1 G2].
  unfold extraction_of. rewrite G1, G2.
  rewrite (proj2 (proj2 (is_token_chars tok Ht))), (is_token_strip tok Ht), St.
  reflexivity.
Qed.

Lemma prefix_form_extracted_witness :
  parse_timestamp_line init (lit "(1:02:03] Part 1: Intro")
  = Some (mk_extraction (lit "1:02:03") (lit "Part 1: Intro")).
Proof.
  apply (prefix_form_extracted init (lit "(") (lit "1:02:03") (lit "]") (lit " ")
           (lit "Part 1: Intro"));
    first [reflexivity | simpl; lia].
Defined.

(** The ordinal pattern on digits, a full stop, white space and a text that
    does not begin with white space: the first match ends in front of that
    text. *)
Lemma ordinal_head ds sp rest :
  1 <= length ds -> forallb is_digit ds = true ->
  forallb is_space sp = true -> head_ok rest ->
  exists m, match_at re_ordinal 0 (ds ++ lit "." ++ sp ++ rest) = Some m
            /\ m_rest m = rest.
Proof.
  intros Ld Pd Ps Hh.
  exists (mk_mstate (length ds + 1 + length sp) rest []). split; [|reflexivity].
  unfold match_at, re_ordinal, chain. cbn [fold_right].
  set (u := ds ++ lit "." ++ sp ++ rest).
  apply (hd_Seq _ _ _ (mk_mstate 0 u [])); [reflexivity|].
  apply (hd_Seq _ _ _ (mk_mstate (length ds) (lit "." ++ sp ++ rest) [])).
  { rewrite (greedy_head is_digit 1 _ ds (lit "." ++ sp ++ rest));
      try assumption; reflexivity. }
  apply (hd_Seq _ _ _ (mk_mstate (length ds + 1) (sp ++ rest) [])).
  { change (lit "." ++ sp ++ rest) with ("."%char :: sp ++ rest).
    cbn [exec m_rest m_pos]. change (is_dotchr "."%char) with true.
    unfold move. cbn [hd_error fst snd m_caps]. do 2 f_equal. lia. }
  rewrite (greedy_head is_space 0 _ sp rest); try assumption; [reflexivity| |lia].
  reflexivity.
Qed.

(** X9.  A leading ordinal marker (digits, a full stop, any white space)
    in front of a trimmed, non-empty text is removed once: the line is
    matched as the text behind the marker stands, and when that text does
    not itself begin with a marker the line is extracted as that text is. *)
Theorem ordinal_marker_removed_once
  (self : CueGenerator) (ds sp rest : str) :
  1 <= length ds -> forallb is_digit ds = true ->
  forallb is_space sp = true ->
  1 <= length rest -> strip rest = rest ->
  parse_timestamp_line self (ds ++ lit "." ++ sp ++ rest)
  = first_match patterns rest
  /\ (has_ordinal_marker rest = false ->
      parse_timestamp_line self (ds ++ lit "." ++ sp ++ rest)
      = parse_timestamp_line self rest).
Proof.
  intros Ld Pd Ps Lr Sr.
  pose proof (fixed_head_ok rest Sr) as Hh.
  pose proof (fixed_last_ok rest Sr) as Hl.
  set (line := ds ++ lit "." ++ sp ++ rest).
  assert (Hline : strip line = line).
  { apply strip_fixed.
    - unfold line. destruct ds as [|a ds]; [simpl in Ld; lia|].
      simpl in Pd. apply andb_true_iff in Pd as [Pa _]. simpl.
      now apply digit_not_space.
    - unfold line. rewrite !app_assoc.
      apply last_ok_app; [now apply nonempty_length|exact Hl]. }
  assert (Hsub : re_sub_empty re_ordinal line = rest).
  { destruct (ordinal_head ds sp rest Ld Pd Ps Hh) as [m [Hm <-]].
    now apply re_sub_ordinal_match. }
  assert (E : parse_timestamp_line self line = first_match patterns rest).
  { unfold parse_timestamp_line. rewrite Hline, Hsub.
    destruct line as [|x l] eqn:El; [|reflexivity].
    apply (f_equal (@length ascii)) in El. unfold line in El.
    rewrite !length_app in El. simpl in El. lia. }
  split; [exact E|].
  intros Hm. rewrite E. unfold parse_timestamp_line.
  rewrite Sr, (re_sub_ordinal_no_marker rest Hm).
  destruct rest; [simpl in Lr; lia|reflexivity].
Qed.

Lemma ordinal_marker_removed_once_witness :
  parse_timestamp_line init (lit "12.  0:05 Second Track")
  = parse_timestamp_line init (lit "0:05 Second Track")
  /\ parse_timestamp_line init (lit "1. 2. 0:05 Second") = None.
Proof.
  split.
  - apply (proj2 (ordinal_marker_removed_once init (lit "12") (lit "  ")
                    (lit "0:05 Second Track")
                    ltac:(simpl; lia) eq_refl eq_refl ltac:(simpl; lia) eq_refl)).
    reflexivity.
  - exact (proj1 (ordinal_marker_removed_once init (lit "1") (lit " ")
                    (lit "2. 0:05 Second")
                    ltac:(simpl; lia) eq_refl eq_refl ltac:(simpl; lia) eq_refl)).
Defined.

(** ** The interactive methods *)

Lemma or_default_nonempty s d : d <> [] -> or_default s d <> [].
Proof. unfold or_default. destruct s; [trivial|discriminate]. Qed.

Lemma or_default_trimmed s d :
  strip d = d -> strip (or_default (strip s) d) = or_default (strip s) d.
Proof.
  intros Hd. unfold or_default. destruct (truthy (strip s)); [apply strip_idem|exact Hd].
Qed.

(** With five lines to read, the call returns and this is the object. *)
Lemma get_user_input_five g a1 a2 a3 a4 a5 rest out :
  exists out',
    get_user_input (mk_world g (a1 :: a2 :: a3 :: a4 :: a5 :: rest) out)
    = (Some tt,
       mk_world
         (mk_gen (or_default (strip a2) (lit "Unknown Album"))
            (or_default (strip a1) (lit "Unknown Artist"))
            (if isdigit (strip a4) then strip a4 else year g)
            (strip a5)
            (or_default (strip a3) (lit "audio.wav"))
            (tracks g))
         rest out').
Proof.
  unfold get_user_input, io_bind, print, input, assign, io_ret.
  cbn [w_self w_stdin w_stdout].
  destruct (isdigit (strip a4)); cbn [w_self w_stdin w_stdout];
    eexists; reflexivity.
Qed.

(** With fewer, it ends at the end of the input, the tracks untouched. *)
Lemma get_user_input_short g stdin out :
  length stdin < 5 ->
  exists g' out',
    get_user_input (mk_world g stdin out) = (None, mk_world g' [] out')
    /\ tracks g' = tracks g.
Proof.
  intros H.
  destruct stdin as [|a1 [|a2 [|a3 [|a4 [|a5 rest]]]]]; try (simpl in H; lia);
    unfold get_user_input, io_bind, print, input, assign, io_ret;
    cbn [w_self w_stdin w_stdout];
    try (destruct (isdigit (strip a4)); cbn [w_self w_stdin w_stdout]);
    do 2 eexists; (split; [reflexivity|reflexivity]).
Qed.

(** X10.  [get_user_input] returns normally exactly when five lines can be
    read, and then has read just these; artist, album and audio file name
    are then not empty, all five fields are trimmed, and the year is the
    previous one or passes [isdigit].  When the input ends earlier the
    call ends with it.  The tracks are never touched. *)
Theorem get_user_input_outcome (w : world) :
  let r := fst (get_user_input w) in
  let w' := snd (get_user_input w) in
  let g' := w_self w' in
  (r = Some tt <-> 5 <= length (w_stdin w))
  /\ tracks g' = tracks (w_self w)
  /\ (r = Some tt ->
      w_stdin w' = skipn 5 (w_stdin w)
      /\ artist g' <> [] /\ album g' <> [] /\ audio_file g' <> []
      /\ strip (artist g') = artist g' /\ strip (album g') = album g'
      /\ strip (audio_file g') = audio_file g' /\ strip (genre g') = genre g'
      /\ (year g' = year (w_self w)
          \/ (isdigit (year g') = true /\ strip (year g') = year g')))
  /\ (r = None -> w_stdin w' = []).
Proof.
  destruct w as [g stdin out]. cbv zeta. cbn [w_stdin w_self].
  destruct (Nat.lt_ge_cases (length stdin) 5) as [Hlt|Hge].
  - destruct (get_user_input_short g stdin out Hlt) as [g' [out' [E Ht]]].
    rewrite E. cbn [fst snd w_self w_stdin].
    split; [split; [discriminate|intros H; lia]|].
    split; [exact Ht|]. split; [discriminate|reflexivity].
  - destruct stdin as [|a1 [|a2 [|a3 [|a4 [|a5 rest]]]]]; try (simpl in Hge; lia).
    destruct (get_user_input_five g a1 a2 a3 a4 a5 rest out) as [out' E].
    rewrite E. cbn [fst snd w_self w_stdin skipn tracks artist album audio_file genre year].
    split; [split; [intros _; exact Hge|reflexivity]|].
    split; [reflexivity|]. split; [|discriminate].
    intros _. split; [reflexivity|].
    split; [apply or_default_nonempty; discriminate|].
    split; [apply or_default_nonempty; discriminate|].
    split; [apply or_default_nonempty; discriminate|].
    split; [now apply or_default_trimmed|].
    split; [now apply or_default_trimmed|].
    split; [now apply or_default_trimmed|].
    split; [apply strip_idem|].
    destruct (isdigit (strip a4)) eqn:Ed; [right|now left].
    split; [exact Ed|apply strip_idem].
Qed.

Lemma get_user_input_outcome_witness :
  artist (w_self (snd (get_user_input
            (mk_world init [lit " Ann "; []; []; lit "2020"; lit "Rock"] []))))
  <> []
  /\ w_stdin (snd (get_user_input (mk_world init [lit "Ann"; []] []))) = [].
Proof.
  split.
  - exact (proj1 (proj2 (proj1 (proj2 (proj2 (get_user_input_outcome
      (mk_world init [lit " Ann "; []; []; lit "2020"; lit "Rock"] []))))
      eq_refl))).
  - exact (proj2 (proj2 (proj2 (get_user_input_outcome
      (mk_world init [lit "Ann"; []] [])))) eq_refl).
Defined.

Lemma review_line_spec i t :
  review_line i t
  = if within_limit (Z.of_nat i) && track_within_limit t
    then Ok (review_text i t) else Raise limit_error.
Proof.
  unfold review_line, track_within_limit, fmt_02d, fmt_2d.
  destruct (within_limit (minutes t)); [|now rewrite andb_false_r].
  destruct (within_limit (seconds t)); [|now rewrite andb_false_r].
  destruct (within_limit (frames t)); [|now rewrite andb_false_r].
  destruct (within_limit (Z.of_nat i)); [|reflexivity].
  cbn [bind andb]. unfold review_text, time_text.
  now rewrite <- !app_assoc.
Qed.

(** The loop prints the lines of the tracks in front of the first one with
    a number that cannot be written, and stops there with the conversion
    error; it reads nothing. *)
Lemma review_loop_spec ts : forall i w,
  review_loop i ts w
  = (Some (if tracks_within_limit i ts then Ok tt else Raise limit_error),
     mk_world (w_self w) (w_stdin w)
       (w_stdout w
        ++ concat (map shown (enumerate i (writable_prefix i ts))))).
Proof.
  induction ts as [|t ts IH]; intros i w.
  - destruct w. cbn. now rewrite app_nil_r.
  - cbn [review_loop tracks_within_limit writable_prefix].
    rewrite review_line_spec.
    destruct (within_limit (Z.of_nat i) && track_within_limit t).
    + unfold io_bind, print. rewrite IH.
      cbn [w_self w_stdin w_stdout enumerate map concat andb].
      unfold shown at 2. cbn [fst snd]. now rewrite <- !app_assoc.
    + destruct w. cbn. now rewrite app_nil_r.
Qed.

Lemma writable_prefix_all ts : forall i,
  tracks_within_limit i ts = true -> writable_prefix i ts = ts.
Proof.
  induction ts as [|t ts IH]; intros i H; [reflexivity|].
  cbn [tracks_within_limit writable_prefix] in *.
  apply andb_true_iff in H as [H Hts]. rewrite H. f_equal. now apply IH.
Qed.

Lemma writable_prefix_nth ts : forall i k t,
  nth_error (writable_prefix i ts) k = Some t ->
  nth_error ts k = Some t
  /\ within_limit (Z.of_nat (i + k)) && track_within_limit t = true.
Proof.
  induction ts as [|t0 ts IH]; intros i k t H.
  - destruct k; discriminate.
  - cbn [writable_prefix] in H.
    destruct (within_limit (Z.of_nat i) && track_within_limit t0) eqn:E;
      [|destruct k; discriminate].
    destruct k as [|k]; simpl in H.
    + injection H as <-. replace (i + 0) with i by lia. now split.
    + replace (i + S k) with (S i + k) by lia. cbn [nth_error]. now apply IH.
Qed.

Lemma in_concat_infix {A} (x : list A) ls : In x ls -> 
  exists pre post, concat ls = pre ++ x ++ post.
Proof.
  induction ls as [|l ls IH]; intros H; [contradiction|].
  destruct H as [->|H].
  - exists [], (concat ls). reflexivity.
  - destruct (IH H) as [pre [post E]]. exists (l ++ pre), post.
    cbn [concat]. now rewrite E, <- app_assoc.
Qed.

(** X11.  [review_tracks] never changes the object.  When every number of
    the tracks (and every track number) has at most 4300 digits, it ends
    with the end of the input when there is no line to read, and otherwise
    reads one line and accepts exactly when that line, trimmed and in lower
    case, is [y], [yes] or empty.  When some number has more digits, it
    raises [ValueError] without reading anything, after the heading and the
    lines of the tracks in front of the first such track.  For every track
    in front of the first such track it has printed a line that holds the
    title and the very time text that [generate_cue_content] writes behind
    [INDEX 01]. *)
Theorem review_tracks_outcome (w : world) :
  let r := fst (review_tracks w) in
  let w' := snd (review_tracks w) in
  let ts := tracks (w_self w) in
  w_self w' = w_self w
  /\ (tracks_within_limit 1 ts = true ->
      writable_prefix 1 ts = ts
      /\ w_stdin w' = tl (w_stdin w)
      /\ match w_stdin w with
         | [] => r = None
         | a :: _ =>
             r = Some (Ok (existsb (str_eqb (lower (strip a)))
                             [lit "y"; lit "yes"; []]))
         end)
  /\ (tracks_within_limit 1 ts = false ->
      r = Some (Raise limit_error) /\ exn_cls limit_error = ValueError
      /\ w_stdin w' = w_stdin w
      /\ w_stdout w'
         = w_stdout w ++ ([newline] ++ lit "PARSED TRACKS:") ++ [newline]
           ++ rule ++ [newline]
           ++ concat (map shown (enumerate 1 (writable_prefix 1 ts))))
  /\ forall k track,
       nth_error (writable_prefix 1 ts) k = Some track ->
       nth_error ts k = Some track
       /\ review_line (S k) track = Ok (review_text (S k) track)
       /\ is_infix (review_text (S k) track ++ [newline]) (w_stdout w')
       /\ is_infix (lit "[" ++ time_text track ++ lit "] " ++ title track)
            (review_text (S k) track)
       /\ exists block,
            track_block (w_self w) (S k) track = Ok block
            /\ nth_error block 3 = Some (lit "    INDEX 01 " ++ time_text track).
Proof.
  destruct w as [g stdin out]. cbv zeta.
  unfold review_tracks, io_bind, print, get_self.
  cbn [w_self w_stdin w_stdout]. rewrite review_loop_spec.
  cbn [w_self w_stdin w_stdout].
  assert (Hshown : forall k track,
            nth_error (writable_prefix 1 (tracks g)) k = Some track ->
            forall o, is_infix (review_text (S k) track ++ [newline])
                        (concat (map shown
                                   (enumerate 1 (writable_prefix 1 (tracks g))))
                         ++ o)).
  { intros k track Hk o. apply is_infix_app_r.
    apply (in_concat_infix (shown (S k, track))).
    apply in_map. exact (in_enumerate _ 1 k track Hk). }
  assert (Hline : forall k track,
            is_infix (lit "[" ++ time_text track ++ lit "] " ++ title track)
              (review_text (S k) track)).
  { intros k track. unfold review_text.
    exists (pad_2d (Z.of_nat (S k)) ++ lit ". "), [].
    rewrite app_nil_r, <- !app_assoc. reflexivity. }
  assert (Hrest : forall k track o,
            nth_error (writable_prefix 1 (tracks g)) k = Some track ->
            is_infix (review_text (S k) track ++ [newline])
              (concat (map shown (enumerate 1 (writable_prefix 1 (tracks g))))
               ++ o) ->
            nth_error (tracks g) k = Some track
            /\ review_line (S k) track = Ok (review_text (S k) track)
            /\ is_infix (review_text (S k) track ++ [newline])
                 (concat (map shown
                            (enumerate 1 (writable_prefix 1 (tracks g))))
                  ++ o)
            /\ is_infix (lit "[" ++ time_text track ++ lit "] " ++ title track)
                 (review_text (S k) track)
            /\ exists block,
                 track_block g (S k) track = Ok block
                 /\ nth_error block 3
                    = Some (lit "    INDEX 01 " ++ time_text track)).
  { intros k track o Hk Hin.
    destruct (writable_prefix_nth _ 1 k track Hk) as [Hnth Hfit].
    cbn [Nat.add] in Hfit.
    split; [exact Hnth|]. split; [now rewrite review_line_spec, Hfit|].
    split; [exact Hin|]. split; [apply Hline|].
    exists (block_text g (S k) track).
    split; [now rewrite track_block_spec, Hfit|reflexivity]. }
  destruct (tracks_within_limit 1 (tracks g)) eqn:Efit.
  - unfold input. cbn [w_self w_stdin w_stdout].
    destruct stdin as [|a rest]; cbn [fst snd w_self w_stdin w_stdout tl io_ret];
      (split; [reflexivity|]); (split; [|split; [discriminate|]]).
    + intros _. split; [now apply writable_prefix_all|now split].
    + intros k track Hk.
      destruct (Hrest k track
                  (rule ++ [newline]
                   ++ [newline] ++ lit "Do these tracks look correct? (y/n): ")
                  Hk (Hshown k track Hk _)) as [H1 [H2 [H3 [H4 H5]]]].
      split; [exact H1|]. split; [exact H2|]. split; [|now split].
      rewrite <- !app_assoc.
      do 6 apply is_infix_app_l. exact H3.
    + intros _. split; [now apply writable_prefix_all|]. split; [reflexivity|].
      unfold io_ret. cbn [fst existsb]. now rewrite orb_false_r, !orb_assoc.
    + intros k track Hk.
      destruct (Hrest k track
                  (rule ++ [newline]
                   ++ [newline] ++ lit "Do these tracks look correct? (y/n): ")
                  Hk (Hshown k track Hk _)) as [H1 [H2 [H3 [H4 H5]]]].
      split; [exact H1|]. split; [exact H2|]. split; [|now split].
      unfold io_ret. cbn [snd w_stdout].
      rewrite <- !app_assoc.
      do 6 apply is_infix_app_l. exact H3.
  - unfold io_ret. cbn [fst snd w_self w_stdin w_stdout].
    split; [reflexivity|]. split; [discriminate|]. split.
    + intros _. split; [reflexivity|]. split; [reflexivity|].
      split; [reflexivity|]. now rewrite <- !app_assoc.
    + intros k track Hk.
      destruct (Hrest k track [] Hk (Hshown k track Hk _))
        as [H1 [H2 [H3 [H4 H5]]]].
      split; [exact H1|]. split; [exact H2|]. split; [|now split].
      rewrite app_nil_r in H3. rewrite <- !app_assoc.
      do 6 apply is_infix_app_l. exact H3.
Qed.

Lemma review_tracks_outcome_witness :
  fst (review_tracks
         (mk_world (set_tracks init [mk_track (lit "Intro") 0 0 0]) [lit " YES "] []))
  = Some (Ok true)
  /\ fst (review_tracks
            (mk_world (set_tracks init [mk_track (lit "Intro") int_limit 0 0])
               [lit "y"] []))
     = Some (Raise limit_error)
  /\ is_infix (lit "[00:00:00] Intro")
       (review_text 1 (mk_track (lit "Intro") 0 0 0)).
Proof.
  pose proof (review_tracks_outcome
    (mk_world (set_tracks init [mk_track (lit "Intro") 0 0 0]) [lit " YES "] []))
    as H.
  pose proof (review_tracks_outcome
    (mk_world (set_tracks init [mk_track (lit "Intro") int_limit 0 0])
       [lit "y"] []))
    as H'.
  split; [|split].
  - exact (proj2 (proj2 (proj1 (proj2 H) eq_refl))).
  - refine (proj1 (proj1 (proj2 (proj2 H')) _)).
    apply (tracks_within_limit_beyond _ 1 (mk_track (lit "Intro") int_limit 0 0));
      [now left|].
    unfold track_within_limit. cbn [minutes].
    rewrite (within_limit_beyond int_limit); [reflexivity|].
    pose proof int_limit_lower. lia.
  - exact (proj1 (proj2 (proj2 (proj2 (proj2 (proj2 (proj2 H)) 0
                           (mk_track (lit "Intro") 0 0 0) eq_refl))))).
Defined.

(** ** From the file to the rendered text *)

Lemma one_line_strip s : one_line s -> one_line (strip s).
Proof.
  intros H. destruct (strip_split s) as [pre [post [E _]]].
  unfold one_line in *. rewrite E in H.
  apply Forall_app in H as [_ H]. now apply Forall_app in H as [H _].
Qed.

Lemma no_newline_one_line s : contains_chr newline s = false -> one_line s.
Proof.
  intros H. apply Forall_forall. intros a Ha.
  destruct (chr_eqb a newline) eqn:E; [|reflexivity].
  apply Ascii.eqb_eq in E. subst a.
  assert (Hex : contains_chr newline s = true).
  { apply existsb_exists. exists newline. split; [exact Ha|reflexivity]. }
  congruence.
Qed.

Lemma one_line_or_default s d : one_line s -> one_line d -> one_line (or_default s d).
Proof. intros Hs Hd. unfold or_default. now destruct (truthy s). Qed.

Lemma parse_timestamp_seconds self t m s f :
  parse_timestamp self t = Ok (m, s, f) -> within_limit s = true.
Proof.
  unfold parse_timestamp.
  destruct (split colon (strip t)) as [|p0 [|p1 [|p2 [|p3 rest]]]]; try discriminate.
  - destruct (int p0); [|discriminate].
    destruct (int p1) as [z|] eqn:E; [|discriminate].
    simpl. intros H. injection H as _ <- _. exact (int_within_limit _ _ E).
  - destruct (int p0); [|discriminate]. destruct (int p1); [|discriminate].
    destruct (int p2) as [z|] eqn:E; [|discriminate].
    simpl. intros H. injection H as _ <- _. exact (int_within_limit _ _ E).
Qed.

Lemma line_track_seconds self line :
  Forall (fun t => within_limit (seconds t) = true) (line_track self line).
Proof.
  unfold line_track. destruct (parse_timestamp_line self line) as [x|]; [|constructor].
  destruct (parse_timestamp self (x_timestamp x)) as [[[m s] f]|e] eqn:E; [|constructor].
  constructor; [|constructor]. simpl. exact (parse_timestamp_seconds _ _ _ _ _ E).
Qed.

(** X12.  The way of [main] from the file to the text: after a load into a
    fresh object has returned [n] and [get_user_input] has returned on
    input lines without line feed, the tracks are those of the load, each
    with frames 0 and seconds of at most 4300 digits; when every number
    that is written has at most 4300 digits, the rendered text has exactly
    [6 + 4 * n] lines, which are the lines that were appended; when some
    number has more digits (the minutes of a track, which hold the hours
    times 60), [generate_cue_content] raises [ValueError]. *)
Theorem loaded_and_described_text_lines
  (filepath : str) (fs : filesystem) (lines out0 stdin : list str)
  (n : nat) (g : CueGenerator) (out : str) (w' : world) (now_year : Z) :
  fs filepath = ReadLines lines ->
  read_timestamps_file init filepath fs = (Ok n, g, out0) ->
  Forall one_line stdin ->
  get_user_input (mk_world g stdin out) = (Some tt, w') ->
  tracks (w_self w') = tracks g
  /\ length (tracks g) = n
  /\ Forall (fun t => frames t = 0%Z /\ within_limit (seconds t) = true)
       (tracks g)
  /\ (numbers_within_limit (w_self w') now_year = true ->
      exists text cue,
        generate_cue_content (w_self w') now_year = Ok text
        /\ cue_lines (w_self w') now_year = Ok cue
        /\ split newline text = cue
        /\ length cue = 6 + 4 * n)
  /\ (numbers_within_limit (w_self w') now_year = false ->
      generate_cue_content (w_self w') now_year = Raise limit_error
      /\ exn_cls limit_error = ValueError).
Proof.
  intros Efs Hload Hin Hmeta.
  pose proof (loaded_titles _ _ _ _ _ _ _ Efs Hload) as Ht.
  assert (Hg : n = length (tracks g) /\ year g = []
               /\ Forall (fun t => frames t = 0%Z
                                   /\ within_limit (seconds t) = true)
                    (tracks g)).
  { unfold read_timestamps_file in Hload.
    rewrite (read_body_lines _ _ _ _ Efs) in Hload.
    assert (Hfs : Forall (fun t => frames t = 0%Z
                                   /\ within_limit (seconds t) = true)
                    (flat_map (line_track init) lines)).
    { apply Forall_flat_map, Forall_forall. intros l _.
      pose proof (line_track_frames init l) as Hf.
      pose proof (line_track_seconds init l) as Hs.
      apply Forall_forall. intros t Hin'. split.
      - exact (proj1 (Forall_forall _ _) Hf t Hin').
      - exact (proj1 (Forall_forall _ _) Hs t Hin'). }
    destruct (flat_map (line_track init) lines) as [|t ts]; [discriminate Hload|].
    injection Hload as <- <- <-. now repeat split. }
  destruct Hg as [-> [Hy Hfs]].
  destruct (Nat.lt_ge_cases (length stdin) 5) as [Hlt|Hge].
  { destruct (get_user_input_short g stdin out Hlt) as [g' [out' [E _]]].
    rewrite E in Hmeta. discriminate Hmeta. }
  destruct stdin as [|a1 [|a2 [|a3 [|a4 [|a5 rest]]]]]; try (simpl in Hge; lia).
  destruct (get_user_input_five g a1 a2 a3 a4 a5 rest out) as [out' E].
  rewrite E in Hmeta. injection Hmeta as <-. cbn [w_self].
  repeat match goal with
         | H : Forall one_line (_ :: _) |- _ =>
             let H1 := fresh "L" in inversion H as [|? ? H1 ?]; subst; clear H
         end.
  split; [reflexivity|]. split; [reflexivity|]. split; [exact Hfs|].
  set (g' := mk_gen (or_default (strip a2) (lit "Unknown Album"))
               (or_default (strip a1) (lit "Unknown Artist"))
               (if isdigit (strip a4) then strip a4 else year g)
               (strip a5) (or_default (strip a3) (lit "audio.wav")) (tracks g)).
  change (length (tracks g)) with (length (tracks g')).
  apply rendered_text_lines_parts; unfold g';
    cbn [album artist year genre audio_file tracks].
  - apply one_line_or_default; [now apply one_line_strip|one_line_lit].
  - apply one_line_or_default; [now apply one_line_strip|one_line_lit].
  - destruct (isdigit (strip a4)); [now apply one_line_strip|].
    rewrite Hy. constructor.
  - now apply one_line_strip.
  - apply one_line_or_default; [now apply one_line_strip|one_line_lit].
  - revert Ht. apply Forall_impl. intros t [_ [_ Hnl]].
    now apply no_newline_one_line.
Qed.

Lemma loaded_and_described_text_lines_witness :
  exists text cue,
    generate_cue_content
      (mk_gen (lit "Unknown Album") (lit "Artist") (lit "2020") []
         (lit "audio.wav")
         [mk_track (lit "Intro") 0 0 0; mk_track (lit "Two") 2 15 0])
      2024 = Ok text
    /\ cue_lines
         (mk_gen (lit "Unknown Album") (lit "Artist") (lit "2020") []
            (lit "audio.wav")
            [mk_track (lit "Intro") 0 0 0; mk_track (lit "Two") 2 15 0])
         2024 = Ok cue
    /\ split newline text = cue
    /\ length cue = 6 + 4 * 2.
Proof.
  refine (proj1 (proj2 (proj2 (proj2 (loaded_and_described_text_lines (lit "t.txt")
    (fun _ => ReadLines [lit "0:00 Intro"; lit "junk"; lit "[2:15] Two"])
    [lit "0:00 Intro"; lit "junk"; lit "[2:15] Two"] []
    [lit " Artist "; []; []; lit "2020"; []]
    2 (set_tracks init [mk_track (lit "Intro") 0 0 0; mk_track (lit "Two") 2 15 0])
    []
    (snd (get_user_input
       (mk_world
          (set_tracks init [mk_track (lit "Intro") 0 0 0; mk_track (lit "Two") 2 15 0])
          [lit " Artist "; []; []; lit "2020"; []] [])))
    2024 eq_refl eq_refl _ eq_refl)))) eq_refl).
  vm_compute. repeat constructor.
Defined.

(** ** The suffix form *)

Lemma take_upto_here p g hi pos u : In (pos, u) (take_upto p g hi pos u).
Proof.
  destruct u as [|a u]; simpl; [now left|].
  destruct (p a && has_budget hi); [|now left].
  destruct g; [apply in_app_iff; right|]; now left.
Qed.

Lemma take_upto_reach p g t : forall pos r,
  forallb p t = true -> In (pos + length t, r) (take_upto p g None pos (t ++ r)).
Proof.
  induction t as [|a t IH]; intros pos r H.
  - simpl. rewrite Nat.add_0_r. apply take_upto_here.
  - simpl in H. apply andb_true_iff in H as [Ha Ht].
    cbn [app take_upto has_budget spend option_map]. rewrite Ha. cbn [andb].
    specialize (IH (S pos) r Ht).
    replace (pos + length (a :: t)) with (S pos + length t) by (simpl; lia).
    destruct g; [apply in_app_iff; left|right]; exact IH.
Qed.

(** A run, greedy or lazy, can stop after any stretch of the class that is
    long enough. *)
Lemma run_reach p lo g st t r :
  m_rest st = t ++ r -> forallb p t = true -> lo <= length t ->
  In (move st (m_pos st + length t, r)) (exec (Rep p lo None g) st).
Proof.
  intros E P L. cbn [exec option_map].
  rewrite <- (firstn_skipn lo t) in E, P. rewrite <- app_assoc in E.
  rewrite forallb_app in P. apply andb_true_iff in P as [P1 P2].
  assert (Ll : length (firstn lo t) = lo) by (rewrite length_firstn; lia).
  rewrite E. rewrite <- Ll at 1. rewrite take_exact_run by assumption.
  apply in_map_iff. exists (m_pos st + length t, r). split; [reflexivity|].
  replace (m_pos st + length t)
    with (m_pos st + length (firstn lo t) + length (skipn lo t)).
  - now apply take_upto_reach.
  - rewrite <- (firstn_skipn lo t) at 3. rewrite length_app. lia.
Qed.

Lemma in_Seq r1 r2 st s m :
  In s (exec r1 st) -> In m (exec r2 s) -> In m (exec (Seq r1 r2) st).
Proof. intros H1 H2. apply exec_Seq_in. now exists s. Qed.

Lemma in_hd {A} (l : list A) x : In x l -> exists y, hd_error l = Some y.
Proof. destruct l as [|y l]; [contradiction|]. intros _. now exists y. Qed.

Lemma close_not_space a : is_close a = true -> is_space a = false.
Proof. by_cases_on_char a. Qed.

Lemma close_not_digit_or_colon a :
  is_close a = true -> is_digit a || is_colon a = false.
Proof. by_cases_on_char a. Qed.

(** Shape (c) matches a text made of its parts. *)
Lemma pattern_c_matches ttl ws o tok c :
  1 <= length ttl -> forallb is_dot ttl = true ->
  1 <= length ws -> forallb is_space ws = true ->
  at_most_one is_open o = true -> is_token tok = true ->
  at_most_one is_close c = true ->
  exists m, re_match pattern_c (ttl ++ ws ++ o ++ tok ++ c) = Some m.
Proof.
  intros Ll Pl Lw Pw Ho Ht Hc.
  destruct (is_token_first tok Ht) as [a [t [Etok Ha]]].
  unfold re_match, match_at. apply (in_hd _
    (mk_mstate (length ttl + length ws + length o + length tok + length c) []
       [(2, tok); (1, ttl)])).
  unfold pattern_c, chain. cbn [fold_right].
  set (u := ttl ++ ws ++ o ++ tok ++ c).
  apply (in_Seq _ _ _ (mk_mstate 0 u [])); [now left|].
  apply (in_Seq _ _ _ (mk_mstate (length ttl) (ws ++ o ++ tok ++ c) [(1, ttl)])).
  { rewrite exec_Grp. apply in_map_iff.
    exists (move (mk_mstate 0 u []) (0 + length ttl, ws ++ o ++ tok ++ c)). split.
    - unfold set_cap, move. cbn [fst snd m_pos m_rest m_caps].
      rewrite Nat.sub_0_r. unfold u. now rewrite firstn_exact.
    - now apply (run_reach is_dot 1 false (mk_mstate 0 u []) ttl). }
  apply (in_Seq _ _ _ (mk_mstate (length ttl + length ws) (o ++ tok ++ c) [(1, ttl)])).
  { apply hd_error_in.
    rewrite (greedy_head is_space 1 _ ws (o ++ tok ++ c)); try assumption; try reflexivity.
    destruct (at_most_one_inv _ _ Ho) as [->|[b [-> Hb]]]; cbn [app].
    - rewrite Etok. cbn [app]. now apply digit_not_space.
    - now apply open_not_space. }
  apply (in_Seq _ _ _ (mk_mstate (length ttl + length ws + length o) (tok ++ c)
                         [(1, ttl)])).
  { apply hd_error_in. destruct (at_most_one_inv _ _ Ho) as [->|[b [-> Hb]]].
    - rewrite optional_skipped.
      + cbn [length app]. do 2 f_equal. lia.
      + cbn [m_rest app]. rewrite Etok. cbn [app].
        destruct (is_open a) eqn:E; [|reflexivity].
        rewrite (open_not_digit a E) in Ha. discriminate.
    - rewrite (optional_taken is_open _ b (tok ++ c)) by (reflexivity || assumption).
      unfold move. cbn [fst snd m_pos m_caps length]. do 2 f_equal. lia. }
  apply (in_Seq _ _ _ (mk_mstate (length ttl + length ws + length o + length tok) c
                         [(2, tok); (1, ttl)])).
  { apply hd_error_in. rewrite exec_Grp, hd_error_map.
    rewrite (timestamp_head _ tok c); [|reflexivity|exact Ht|].
    - unfold set_cap, move. cbn [option_map fst snd m_pos m_rest m_caps].
      replace (length ttl + length ws + length o + length tok
               - (length ttl + length ws + length o)) with (length tok) by lia.
      now rewrite firstn_exact.
    - destruct (at_most_one_inv _ _ Hc) as [->|[b [-> Hb]]]; [exact I|].
      now apply close_not_colon. }
  apply (in_Seq _ _ _ (mk_mstate (length ttl + length ws + length o + length tok
                                  + length c) [] [(2, tok); (1, ttl)]));
    [|now left].
  apply hd_error_in. destruct (at_most_one_inv _ _ Hc) as [->|[b [-> Hb]]].
  - rewrite optional_skipped; [|exact I]. cbn [length]. do 2 f_equal. lia.
  - rewrite (optional_taken is_close _ b []) by (reflexivity || assumption).
    unfold move. cbn [fst snd m_pos m_caps length]. do 2 f_equal. lia.
Qed.

(** Two ways to cut a text into a stretch of a class and a rest that does
    not go on with the class are the same way. *)
Lemma stretch_unique (p : ascii -> bool) : forall A A' B B',
  A ++ B = A' ++ B' ->
  forallb p A = true -> forallb p A' = true ->
  match B with [] => True | b :: _ => p b = false end ->
  match B' with [] => True | b :: _ => p b = false end ->
  A = A' /\ B = B'.
Proof.
  induction A as [|x A IH]; intros A' B B' E PA PA' HB HB'.
  - destruct A' as [|y A']; [now split|].
    simpl in E, PA'. subst B. apply andb_true_iff in PA' as [Py _].
    rewrite Py in HB. discriminate.
  - destruct A' as [|y A'].
    + simpl in E, PA. subst B'. apply andb_true_iff in PA as [Px _].
      rewrite Px in HB'. discriminate.
    + simpl in E, PA, PA'. injection E as <- E.
      apply andb_true_iff in PA as [_ PA]. apply andb_true_iff in PA' as [_ PA'].
      destruct (IH A' B B' E PA PA' HB HB') as [-> ->]. now split.
Qed.

Lemma is_token_lead tok :
  is_token tok = true ->
  exists lead rest, tok = lead ++ colon :: rest /\ forallb is_digit lead = true.
Proof.
  intros H.
  destruct tok as [|a1 [|a2 [|a3 [|a4 [|a5 [|a6 [|a7 [|a8 [|a9 tok]]]]]]]]];
    try discriminate; simpl in H; split_ands; colons_known;
    [ exists [a1], [a3; a4]
    | exists [a1; a2], [a4; a5]
    | exists [a1], [a3; a4; colon; a6; a7]
    | exists [a1; a2], [a4; a5; colon; a7; a8] ];
    (split; [reflexivity|]); simpl;
    repeat match goal with H : is_digit ?a = true |- context [is_digit ?a] =>
             rewrite H end;
    reflexivity.
Qed.

Lemma at_most_one_all (p q : ascii -> bool) o :
  (forall a, p a = true -> q a = true) ->
  at_most_one p o = true -> forallb q o = true.
Proof.
  intros Hpq H. destruct (at_most_one_inv _ _ H) as [->|[b [-> Hb]]]; [reflexivity|].
  simpl. now rewrite (Hpq b Hb).
Qed.

Lemma forallb_impl {A} (p q : A -> bool) l :
  (forall a, p a = true -> q a = true) -> forallb p l = true -> forallb q l = true.
Proof.
  intros Hpq H. apply forallb_forall. intros a Ha. apply Hpq.
  exact (forallb_In _ _ _ H Ha).
Qed.

Lemma open_facts a : is_open a = true -> not_colon a = true /\ not_space a = true.
Proof. by_cases_on_char a; now split. Qed.

Lemma close_facts a :
  is_close a = true -> not_space a = true /\ digit_or_colon a = false.
Proof. by_cases_on_char a; now split. Qed.

Lemma digit_facts a :
  is_digit a = true ->
  not_colon a = true /\ not_space a = true /\ digit_or_colon a = true.
Proof. by_cases_on_char a; now repeat split. Qed.

Lemma space_facts a :
  is_space a = true -> not_colon a = true /\ is_digit a = false /\ is_dotchr a = false.
Proof. by_cases_on_char a; now repeat split. Qed.

Lemma digit_or_colon_not_space a : digit_or_colon a = true -> not_space a = true.
Proof. by_cases_on_char a. Qed.

Lemma no_colon_not_colon s :
  contains_chr colon s = false -> forallb not_colon s = true.
Proof.
  intros H. apply forallb_forall. intros a Ha. unfold not_colon, is_colon.
  destruct (chr_eqb a colon) eqn:E; [|reflexivity].
  apply Ascii.eqb_eq in E. subst a.
  assert (contains_chr colon s = true)
    by (apply existsb_exists; exists colon; split; [exact Ha|reflexivity]).
  congruence.
Qed.

Lemma not_colon_no_colon s :
  forallb not_colon s = true -> contains_chr colon s = false.
Proof.
  intros H. unfold contains_chr. destruct (existsb (chr_eqb colon) s) eqn:E; [|reflexivity].
  apply existsb_exists in E as [a [Ha Ea]]. apply Ascii.eqb_eq in Ea. subst a.
  pose proof (forallb_In _ _ _ H Ha) as Hc. discriminate Hc.
Qed.

Lemma is_token_class tok : is_token tok = true -> forallb digit_or_colon tok = true.
Proof. intros H. exact (proj1 (proj2 (is_token_chars tok H))). Qed.

(** A text whose title part holds no colon and is followed by white space
    is not of shape (a). *)
Lemma pattern_a_rejects ttl ws r :
  1 <= length ttl -> contains_chr colon ttl = false ->
  1 <= length ws -> forallb is_space ws = true ->
  re_match pattern_a (ttl ++ ws ++ r) = None.
Proof.
  intros Ll Ct Lw Pw.
  destruct (re_match pattern_a (ttl ++ ws ++ r)) as [m|] eqn:E; [|reflexivity].
  exfalso.
  apply pattern_a_anatomy in E
    as [o1 [tok1 [c1 [ws1 [ttl1 [e1 [Ev [Po [Pt _]]]]]]]]].
  destruct (is_token_lead tok1 Pt) as [lead [rest [-> Pd]]].
  destruct ws as [|w ws']; [simpl in Lw; lia|].
  simpl in Pw. apply andb_true_iff in Pw as [Hw Pw].
  (* the text up to the first colon, read both ways *)
  assert (P1 : forallb not_colon (o1 ++ lead) = true
               /\ forallb not_space (o1 ++ lead) = true).
  { rewrite !forallb_app. split; apply andb_true_iff; split.
    - apply (at_most_one_all is_open); [|exact Po]. intros a Ha. apply open_facts, Ha.
    - apply (forallb_impl is_digit); [|exact Pd]. intros a Ha. apply digit_facts, Ha.
    - apply (at_most_one_all is_open); [|exact Po]. intros a Ha. apply open_facts, Ha.
    - apply (forallb_impl is_digit); [|exact Pd]. intros a Ha. apply digit_facts, Ha. }
  destruct P1 as [P1c P1s].
  assert (Hcut : exists A B, ttl ++ (w :: ws') ++ r = A ++ B
                             /\ forallb not_colon A = true
                             /\ In w A
                             /\ match B with [] => True | b :: _ => not_colon b = false end).
  { assert (Hgen : forall s pre, forallb not_colon pre = true -> In w pre ->
              exists A B, pre ++ s = A ++ B /\ forallb not_colon A = true /\ In w A
                          /\ match B with [] => True | b :: _ => not_colon b = false end).
    { induction s as [|x s IH]; intros pre Hp Hin.
      - exists pre, []. now repeat split.
      - destruct (not_colon x) eqn:Ex.
        + destruct (IH (pre ++ [x])) as [A [B [EAB H]]].
          * rewrite forallb_app, Hp. simpl. now rewrite Ex.
          * apply in_app_iff. now left.
          * exists A, B. split; [|exact H]. rewrite <- EAB, <- app_assoc. reflexivity.
        + exists pre, (x :: s). now repeat split. }
    destruct (Hgen (ws' ++ r) (ttl ++ [w])) as [A [B [EAB H]]].
    - rewrite forallb_app, (no_colon_not_colon ttl Ct). simpl.
      now rewrite (proj1 (space_facts w Hw)).
    - apply in_app_iff. right. now left.
    - exists A, B. split; [|exact H]. rewrite <- EAB, <- !app_assoc. reflexivity. }
  destruct Hcut as [A [B [EAB [PA [Hin HB]]]]].
  rewrite Ev in EAB.
  replace (o1 ++ (lead ++ colon :: rest) ++ c1 ++ ws1 ++ ttl1 ++ e1)
    with ((o1 ++ lead) ++ colon :: rest ++ c1 ++ ws1 ++ ttl1 ++ e1) in EAB
    by (rewrite <- !app_assoc; reflexivity).
  destruct (stretch_unique not_colon _ _ _ _ EAB P1c PA eq_refl HB) as [EA _].
  subst A. pose proof (forallb_In _ _ _ P1s Hin) as Hns.
  unfold not_space in Hns. rewrite Hw in Hns. discriminate.
Qed.

Lemma skip_digits_all s r :
  forallb is_digit s = true -> skip_digits (s ++ r) = skip_digits r.
Proof.
  induction s as [|a s IH]; [reflexivity|]. simpl. intros H.
  apply andb_true_iff in H as [Ha Hs]. rewrite Ha. now apply IH.
Qed.

Lemma skip_digits_stops s r :
  forallb is_digit s = false ->
  exists b t, skip_digits s = b :: t /\ skip_digits (s ++ r) = b :: t ++ r.
Proof.
  induction s as [|a s IH]; [discriminate|]. simpl.
  destruct (is_digit a) eqn:Ha; [exact IH|].
  intros _. exists a, s. now split.
Qed.

(** A text without marker, followed by white space, has no marker. *)
Lemma no_marker_app ttl w r :
  has_ordinal_marker ttl = false -> 1 <= length ttl -> is_space w = true ->
  has_ordinal_marker (ttl ++ w :: r) = false.
Proof.
  intros H L Hw. destruct ttl as [|a ttl]; [simpl in L; lia|].
  unfold has_ordinal_marker in *. cbn [app].
  destruct (is_digit a) eqn:Ha; [|reflexivity]. cbn [andb] in *.
  change (a :: ttl ++ w :: r) with ((a :: ttl) ++ w :: r).
  destruct (forallb is_digit (a :: ttl)) eqn:Hall.
  - rewrite skip_digits_all by exact Hall. simpl.
    destruct (space_facts w Hw) as [_ [Hd Hdot]]. now rewrite Hd.
  - destruct (skip_digits_stops (a :: ttl) (w :: r) Hall) as [b [t [E1 E2]]].
    rewrite E2. now rewrite E1 in H.
Qed.

Lemma space_free_last_ok s : forallb not_space s = true -> last_ok s.
Proof.
  intros H w a E. subst s. rewrite forallb_app in H.
  apply andb_true_iff in H as [_ H]. simpl in H. rewrite andb_true_r in H.
  unfold not_space in H. now apply negb_true_iff in H.
Qed.

Lemma rev_inj {A} (l l' : list A) : rev l = rev l' -> l = l'.
Proof.
  intros H. apply (f_equal (@rev A)) in H. now rewrite !rev_involutive in H.
Qed.

(** X13.  The suffix form is extracted as written, when the title holds
    no colon: a title that is trimmed, not empty, without line feed, colon
    or leading ordinal marker, then white space, then a timestamp token
    with or without an opening and a closing bracket or parenthesis, give
    the token and the title. *)
Theorem suffix_form_extracted
  (self : CueGenerator) (ttl ws o tok c : str) :
  1 <= length ttl -> forallb is_dot ttl = true -> strip ttl = ttl ->
  contains_chr colon ttl = false -> has_ordinal_marker ttl = false ->
  1 <= length ws -> forallb is_space ws = true ->
  at_most_one is_open o = true -> is_token tok = true ->
  at_most_one is_close c = true ->
  parse_timestamp_line self (ttl ++ ws ++ o ++ tok ++ c)
  = Some (mk_extraction tok ttl).
Proof.
  intros Ll Pl St Ct Hm Lw Pw Ho Ht Hc.
  pose proof (fixed_head_ok ttl St) as Hh.
  pose proof (fixed_last_ok ttl St) as Hl.
  destruct (is_token_first tok Ht) as [a [t [Etok Ha]]].
  assert (Hws : exists w ws', ws = w :: ws' /\ is_space w = true).
  { destruct ws as [|w ws']; [simpl in Lw; lia|]. exists w, ws'.
    simpl in Pw. apply andb_true_iff in Pw as [Hw _]. now split. }
  set (line := ttl ++ ws ++ o ++ tok ++ c).
  pose (S := o ++ tok ++ c).
  assert (PS : forallb not_space S = true).
  { unfold S. rewrite !forallb_app. apply andb_true_iff. split; [|apply andb_true_iff; split].
    - apply (at_most_one_all is_open); [|exact Ho]. intros x Hx. apply open_facts, Hx.
    - apply (forallb_impl digit_or_colon); [apply digit_or_colon_not_space|].
      now apply is_token_class.
    - apply (at_most_one_all is_close); [|exact Hc]. intros x Hx. apply close_facts, Hx. }
  assert (NS : S <> []).
  { unfold S. rewrite Etok. destruct o; discriminate. }
  assert (Eline : line = (ttl ++ ws) ++ S).
  { unfold line, S. now rewrite <- app_assoc. }
  assert (Hlast : last_ok line).
  { rewrite Eline. apply last_ok_app; [exact NS|now apply space_free_last_ok]. }
  assert (Hline : strip line = line).
  { apply strip_fixed; [|exact Hlast].
    unfold line. destruct ttl as [|x ttl']; [simpl in Ll; lia|exact Hh]. }
  assert (Hsub : re_sub_empty re_ordinal line = line).
  { apply re_sub_ordinal_no_marker. unfold line.
    destruct Hws as [w [ws' [-> Hw]]]. cbn [app]. now apply no_marker_app. }
  unfold parse_timestamp_line. rewrite Hline, Hsub.
  destruct line as [|x0 l0] eqn:El.
  { rewrite Eline in El. destruct (ttl ++ ws); [now elim NS|discriminate]. }
  rewrite <- El in *. clear El x0 l0.
  unfold patterns. cbn [first_match].
  assert (Ea : re_match pattern_a line = None).
  { unfold line. now apply pattern_a_rejects. }
  rewrite Ea.
  destruct (re_match pattern_b line) as [mb|] eqn:Eb.
  { apply pattern_b_match_is_pattern_a_match in Eb. congruence. }
  destruct (pattern_c_matches ttl ws o tok c Ll Pl Lw Pw Ho Ht Hc) as [m Em].
  fold line in Em. rewrite Em.
  apply pattern_c_anatomy in Em
    as [ttl' [ws' [o' [tok' [c' [e' [Ev [Nl' [Pl' [Nw' [Pw' [Ho' [Ht' [Hc' [He' Hcaps]]]]]]]]]]]]]]].
  destruct (caps_groups _ _ _ Hcaps) as [G1 G2].
  (* the text does not end in a line feed *)
  assert (e' = []).
  { destruct He' as [->| ->]; [reflexivity|]. exfalso.
    assert (Hnl : is_space newline = false).
    { apply (Hlast (ttl' ++ ws' ++ o' ++ tok' ++ c') newline).
      rewrite Ev, <- !app_assoc. reflexivity. }
    discriminate Hnl. }
  subst e'. rewrite app_nil_r in Ev.
  (* both readings end in the same stretch without white space *)
  pose (S' := o' ++ tok' ++ c').
  assert (PS' : forallb not_space S' = true).
  { unfold S'. rewrite !forallb_app. apply andb_true_iff. split; [|apply andb_true_iff; split].
    - apply (at_most_one_all is_open); [|exact Ho']. intros x Hx. apply open_facts, Hx.
    - apply (forallb_impl digit_or_colon); [apply digit_or_colon_not_space|].
      now apply is_token_class.
    - apply (at_most_one_all is_close); [|exact Hc']. intros x Hx. apply close_facts, Hx. }
  assert (Ecut : rev S ++ rev (ttl ++ ws) = rev S' ++ rev (ttl' ++ ws')).
  { rewrite <- !rev_app_distr. f_equal. rewrite <- Eline, Ev.
    unfold S'. now rewrite <- app_assoc. }
  assert (Hend : forall x y, y <> [] -> forallb is_space y = true ->
            match rev (x ++ y) with [] => True | b :: _ => not_space b = false end).
  { intros x y Ny Py. destruct (exists_last Ny) as [y' [b Ey]]. subst y.
    rewrite app_assoc, rev_app_distr. cbn [rev app].
    rewrite forallb_app in Py. apply andb_true_iff in Py as [_ Pb].
    simpl in Pb. rewrite andb_true_r in Pb. unfold not_space. now rewrite Pb. }
  destruct (stretch_unique not_space _ _ _ _ Ecut
              (forallb_rev _ _ PS) (forallb_rev _ _ PS')
              (Hend ttl ws (nonempty_length _ Lw) Pw)
              (Hend ttl' ws' Nw' Pw')) as [ES EX].
  apply rev_inj in ES. apply rev_inj in EX.
  (* the same token *)
  assert (Etok' : tok' = tok).
  { destruct (is_token_first tok' Ht') as [a' [t' [Etok'' Ha']]].
    unfold S, S' in ES.
    assert (Etc : tok ++ c = tok' ++ c').
    { destruct (at_most_one_inv _ _ Ho) as [->|[b [-> Hb]]];
        destruct (at_most_one_inv _ _ Ho') as [->|[b' [-> Hb']]];
        cbn [app] in ES.
      - exact ES.
      - rewrite Etok in ES. cbn [app] in ES. injection ES as -> _.
        rewrite (open_not_digit _ Hb') in Ha. discriminate.
      - rewrite Etok'' in ES. cbn [app] in ES. injection ES as -> _.
        rewrite (open_not_digit _ Hb) in Ha'. discriminate.
      - now injection ES. }
    assert (Hcl : forall k, at_most_one is_close k = true ->
              match k with [] => True | b :: _ => digit_or_colon b = false end).
    { intros k Hk. destruct (at_most_one_inv _ _ Hk) as [->|[b [-> Hb]]]; [exact I|].
      apply close_facts, Hb. }
    symmetry.
    exact (proj1 (stretch_unique digit_or_colon _ _ _ _ Etc
                    (is_token_class _ Ht) (is_token_class _ Ht')
                    (Hcl c Hc) (Hcl c' Hc'))). }
  subst tok'.
  (* the same title, up to white space, and no colon in it *)
  assert (Ettl : strip ttl' = ttl).
  { rewrite <- St.
    rewrite <- (strip_spaces [] ttl ws eq_refl Pw).
    rewrite <- (strip_spaces [] ttl' ws' eq_refl Pw').
    cbn [app]. now rewrite EX. }
  assert (Ct' : contains_chr colon ttl' = false).
  { apply not_colon_no_colon.
    assert (Hall : forallb not_colon (ttl' ++ ws') = true).
    { rewrite <- EX, forallb_app, (no_colon_not_colon ttl Ct).
      apply (forallb_impl is_space); [|exact Pw]. intros x Hx. apply space_facts, Hx. }
    rewrite forallb_app in Hall. now apply andb_true_iff in Hall as [Hall _]. }
  unfold extraction_of. rewrite G1, G2, Ct', Ettl, (is_token_strip tok Ht).
  reflexivity.
Qed.

Lemma suffix_form_extracted_witness :
  parse_timestamp_line init (lit "Track Three  [4:30)")
  = Some (mk_extraction (lit "4:30") (lit "Track Three")).
Proof.
  apply (suffix_form_extracted init (lit "Track Three") (lit "  ") (lit "[")
           (lit "4:30") (lit ")"));
    first [reflexivity | simpl; lia].
Defined.

(** ** What the caller of [read_timestamps_file] can catch *)

(** X14.  Whatever [read_timestamps_file] raises is either a
    [FileNotFoundError] with the message [File not found: <path>], raised
    exactly when reading the file raised a [FileNotFoundError], or a plain
    [Exception] whose message is [Error reading file: ] followed by the
    message of what reading raised or, for a readable file without any
    track, by [No valid timestamps found in file].  No [ValueError] and no
    [OSError] reaches the caller. *)
Theorem read_timestamps_file_raises
  (self : CueGenerator) (filepath : str) (fs : filesystem) (e : exn) :
  fst (fst (read_timestamps_file self filepath fs)) = Raise e ->
  (e = mk_exn FileNotFoundError (lit "File not found: " ++ filepath)
   /\ exists e0, fs filepath = ReadRaises e0 /\ exn_cls e0 = FileNotFoundError)
  \/ (exists msg,
        e = mk_exn Exception (lit "Error reading file: " ++ msg)
        /\ ((exists e0, fs filepath = ReadRaises e0 /\ msg = exn_msg e0
                        /\ exn_cls e0 <> FileNotFoundError)
            \/ (exists lines, fs filepath = ReadLines lines
                              /\ flat_map (line_track self) lines = []
                              /\ msg = lit "No valid timestamps found in file"))).
Proof.
  destruct (fs filepath) as [lines|e0] eqn:Efs.
  - unfold read_timestamps_file. rewrite (read_body_lines _ _ _ _ Efs).
    destruct (flat_map (line_track self) lines) as [|t ts] eqn:Et; [|discriminate].
    cbn [exn_cls subclass fst]. intros H. injection H as <-.
    right. eexists. split; [reflexivity|]. right. exists lines. now repeat split.
  - unfold read_timestamps_file, read_body. rewrite Efs.
    destruct e0 as [cls msg]. cbn [exn_cls exn_msg].
    destruct cls; cbn [subclass fst]; intros H; injection H as <-;
      try (right; eexists; split; [reflexivity|]; left; eexists;
           repeat split; discriminate).
    left. split; [reflexivity|]. eexists. now split.
Qed.

Lemma read_timestamps_file_raises_witness :
  exists msg,
    mk_exn Exception (lit "Error reading file: [Errno 13] Permission denied: 'l.txt'")
    = mk_exn Exception (lit "Error reading file: " ++ msg).
Proof.
  destruct (read_timestamps_file_raises init (lit "l.txt")
              (fun _ => ReadRaises
                 (mk_exn OSError (lit "[Errno 13] Permission denied: 'l.txt'")))
              (mk_exn Exception
                 (lit "Error reading file: [Errno 13] Permission denied: 'l.txt'"))
              eq_refl) as [[H _]|[msg [H _]]].
  - discriminate H.
  - exists msg. exact H.
Defined.
